(** * Antigravity Sync: the archive sync engine of [sync_app.py]

    A shallow embedding of the engine part of [sync_app.py] (classes
    [SyncConfig], [SyncLogic] and the polling loop of [SyncApp]) together
    with the properties claimed for it, followed by the configuration file,
    [SettingsDialog.save_settings] and the handling of the reporting queue
    by the window ([check_queue], [on_finish], [lock_ui]).

    Conventions of the embedding.
    - Python [str] values are [string]s (byte sequences, UTF-8); comparison of
      strings is comparison of the byte sequences, which orders UTF-8 text
      like Python orders code points.
    - Python [int] values are [Z]; list indices and lengths are [nat].
    - Functions of the Python library that the code calls and that are not
      part of the repository ([fnmatch.fnmatch], [os.path.isabs]) are section
      variables; [os.path.join], [os.path.basename], the file system, the
      clock and the failures of I/O calls are an explicit environment.
    - The methods of [SyncLogic] are state transformers over the instance
      fields and the observable world (reporting queue, standard output,
      storage directory, sequence of I/O actions). *)

From Stdlib Require Import String Ascii List ZArith QArith Bool Arith Lia.
From Stdlib Require Import Permutation Sorted.
From Stdlib Require Import Numbers.DecimalString.
Import ListNotations.

Close Scope Q_scope.
Open Scope list_scope.
Open Scope string_scope.

(* ================================================================== *)
(** * Python string primitives used by the engine *)
(* ================================================================== *)

Module PyStr.

(** [s.startswith(p)] *)
Definition startswith (p s : string) : bool := String.prefix p s.

(** [s.replace(a, b)] for one-character [a] and [b]. *)
Fixpoint replace (a b : ascii) (s : string) : string :=
  match s with
  | EmptyString => EmptyString
  | String c rest =>
      String (if Ascii.eqb c a then b else c) (replace a b rest)
  end.

(** [s.split(sep)] for a one-character separator: never empty, keeps the
    empty pieces between adjacent separators. *)
Fixpoint split (sep : ascii) (s : string) : list string :=
  match s with
  | EmptyString => [EmptyString]
  | String c rest =>
      if Ascii.eqb c sep then EmptyString :: split sep rest
      else match split sep rest with
           | [] => [String c EmptyString]
           | seg :: segs => String c seg :: segs
           end
  end.

(** Whitespace in the sense of [str.isspace], on the ASCII range. *)
Definition isspace (c : ascii) : bool :=
  let n := nat_of_ascii c in
  (((9 <=? n) && (n <=? 13)) || ((28 <=? n) && (n <=? 32)))%nat.

Fixpoint lstrip (s : string) : string :=
  match s with
  | EmptyString => EmptyString
  | String c rest => if isspace c then lstrip rest else s
  end.

Fixpoint rstrip (s : string) : string :=
  match s with
  | EmptyString => EmptyString
  | String c rest =>
      match rstrip rest with
      | EmptyString => if isspace c then EmptyString else String c EmptyString
      | r => String c r
      end
  end.

(** [s.strip()] *)
Definition strip (s : string) : string := rstrip (lstrip s).

(** [x in l] for a list of strings. *)
Definition mem (x : string) (l : list string) : bool :=
  existsb (String.eqb x) l.

(** [str(n)] for an integer. *)
Definition of_Z (n : Z) : string := NilZero.string_of_int (Z.to_int n).

(** [c in s] for a character. *)
Fixpoint has_char (c : ascii) (s : string) : bool :=
  match s with
  | EmptyString => false
  | String d rest => Ascii.eqb d c || has_char c rest
  end.

(** ** Facts *)

Lemma mem_In x l : mem x l = true <-> In x l.
Proof.
  unfold mem. rewrite existsb_exists. split.
  - intros [y [Hy He]]. apply String.eqb_eq in He. now subst.
  - intros H. exists x. split; [assumption | apply String.eqb_refl].
Qed.

Lemma startswith_app p s : startswith p (p ++ s) = true.
Proof.
  unfold startswith. induction p as [|c p IH]; simpl.
  - now destruct s.
  - destruct (ascii_dec c c) as [_|N]; [exact IH | now elim N].
Qed.

Lemma startswith_inv p s :
  startswith p s = true -> exists r, s = p ++ r.
Proof.
  unfold startswith. revert s. induction p as [|c p IH]; intros s H.
  - now exists s.
  - destruct s as [|d s]; simpl in H; [discriminate|].
    destruct (ascii_dec c d) as [->|_]; [|discriminate].
    destruct (IH _ H) as [r ->]. now exists r.
Qed.

Lemma split_nonempty sep s : split sep s <> [].
Proof.
  destruct s as [|c rest]; simpl; [discriminate|].
  destruct (Ascii.eqb c sep); [discriminate|].
  destruct (split sep rest); discriminate.
Qed.

Lemma has_char_app c s t :
  has_char c (s ++ t) = has_char c s || has_char c t.
Proof.
  induction s as [|d s IH]; simpl; [reflexivity|].
  now rewrite IH, orb_assoc.
Qed.

(** After [replace a b] with [a <> b] no [a] is left. *)
Lemma has_char_replace a b s :
  a <> b -> has_char a (replace a b s) = false.
Proof.
  intros Hab. induction s as [|c s IH]; simpl; [reflexivity|].
  rewrite IH, orb_false_r.
  destruct (Ascii.eqb c a) eqn:E.
  - apply Ascii.eqb_neq. congruence.
  - exact E.
Qed.

End PyStr.

(* ================================================================== *)
(** * Configuration ([DEFAULT_CONFIG], class [SyncConfig]) *)
(* ================================================================== *)

Module Config.

(** The dictionary [self.config] as the engine reads it: a key may be
    missing, and a key that is present holds a value of the type that
    [DEFAULT_CONFIG] gives it, as in every file the program has written
    itself. The dictionary with the other values a file may hold, and the
    reading and writing of the file, are in [ConfigStore]. *)
Record ConfigDict := {
  drive_path : option string;
  target_folders : option (list string);
  retention_count : option Z;
  compression_level : option Z;
  ignore_patterns : option (list string);
  scheduled_times : option (list string)
}.

Definition DEFAULT_CONFIG : ConfigDict := {|
  drive_path := Some "";
  target_folders := Some [".gemini"; ".antigravity"];
  retention_count := Some 2%Z;
  compression_level := Some 5%Z;
  ignore_patterns :=
    Some ["__pycache__"; ".git"; "*.tmp"; "*.log"; ".tmp.driveupload";
          "desktop.ini"];
  scheduled_times := Some []
|}.

(** The instance fields of [SyncConfig]. *)
Record SyncConfig := {
  config : ConfigDict;
  current_user : string;
  hostname : string;
  base_user_path : string;
  file_prefix : string
}.

(** [SyncConfig.get]: [self.config.get(key, DEFAULT_CONFIG.get(key))].
    [none] stands for Python's [None], which is returned only for a key
    that [DEFAULT_CONFIG] lacks. *)
Definition get {A : Type} (key : ConfigDict -> option A) (none : A)
    (self : SyncConfig) : A :=
  match key (config self) with
  | Some v => v
  | None => match key DEFAULT_CONFIG with Some d => d | None => none end
  end.

Definition get_drive_path := get drive_path "".
Definition get_target_folders := get target_folders [].
Definition get_retention_count := get retention_count 0%Z.
Definition get_ignore_patterns := get ignore_patterns [].
Definition get_scheduled_times := get scheduled_times [].

End Config.

(* ================================================================== *)
(** * Sorting as done by [list.sort(reverse=True)] *)
(* ================================================================== *)

Module PySort.

Section Generic.
Context {A : Type} (cmp : A -> A -> comparison).

(** Insert [x] in a descending list, before the first element that is
    not greater than [x]. *)
Fixpoint insert_desc (x : A) (l : list A) : list A :=
  match l with
  | [] => [x]
  | y :: l' =>
      match cmp y x with
      | Gt => y :: insert_desc x l'
      | _ => x :: l
      end
  end.

(** Descending sort; elements that compare equal keep their order. *)
Definition sort_desc_by (l : list A) : list A :=
  fold_right insert_desc [] l.

(** [ge_by a b]: [a] is not smaller than [b]. *)
Definition ge_by (a b : A) : Prop := cmp a b <> Lt.

Lemma insert_desc_perm x l : Permutation (x :: l) (insert_desc x l).
Proof.
  induction l as [|y l IH]; simpl; [reflexivity|].
  destruct (cmp y x); try reflexivity.
  rewrite perm_swap. now constructor.
Qed.

Lemma sort_desc_by_perm l : Permutation l (sort_desc_by l).
Proof.
  induction l as [|x l IH]; simpl; [constructor|].
  etransitivity; [|apply insert_desc_perm]. now constructor.
Qed.

Lemma sort_desc_by_length l : length (sort_desc_by l) = length l.
Proof. symmetry. apply Permutation_length, sort_desc_by_perm. Qed.

Lemma sort_desc_by_In x l : In x (sort_desc_by l) <-> In x l.
Proof.
  split; apply Permutation_in;
    [symmetry|]; apply sort_desc_by_perm.
Qed.

Hypothesis cmp_antisym : forall a b, cmp a b = CompOpp (cmp b a).
Hypothesis cmp_ge_trans :
  forall a b c, ge_by a b -> ge_by b c -> ge_by a c.

Lemma insert_desc_sorted x l :
  StronglySorted ge_by l -> StronglySorted ge_by (insert_desc x l).
Proof.
  induction 1 as [|y l Hs IH Hall]; simpl.
  - repeat constructor.
  - destruct (cmp y x) eqn:E.
    + constructor; [now constructor|].
      assert (Hxy : ge_by x y)
        by (unfold ge_by; rewrite cmp_antisym, E; discriminate).
      constructor; [exact Hxy|].
      eapply Forall_impl; [|exact Hall].
      intros z Hz. now apply cmp_ge_trans with y.
    + constructor; [now constructor|].
      assert (Hxy : ge_by x y)
        by (unfold ge_by; rewrite cmp_antisym, E; discriminate).
      constructor; [exact Hxy|].
      eapply Forall_impl; [|exact Hall].
      intros z Hz. now apply cmp_ge_trans with y.
    + constructor; [exact IH|].
      assert (Hin : forall z, In z (insert_desc x l) -> ge_by y z).
      { intros z Hz.
        apply (Permutation_in _ (Permutation_sym (insert_desc_perm x l)))
          in Hz.
        destruct Hz as [<-|Hz].
        - unfold ge_by. rewrite E. discriminate.
        - rewrite Forall_forall in Hall. now apply Hall. }
      now apply Forall_forall.
Qed.

Lemma sort_desc_by_sorted l : StronglySorted ge_by (sort_desc_by l).
Proof.
  induction l as [|x l IH]; simpl; [constructor|].
  now apply insert_desc_sorted.
Qed.

End Generic.

(** Sorting commutes with a map that preserves the comparison on the
    elements of the list. *)
Lemma insert_desc_map {A B : Type} (cmpA : A -> A -> comparison)
    (cmpB : B -> B -> comparison) (f : A -> B) x l :
  (forall y, In y l -> cmpB (f y) (f x) = cmpA y x) ->
  insert_desc cmpB (f x) (map f l) = map f (insert_desc cmpA x l).
Proof.
  induction l as [|y l IH]; intros Hf; simpl; [reflexivity|].
  rewrite (Hf y) by now left.
  destruct (cmpA y x); simpl; try reflexivity.
  rewrite IH; [reflexivity|]. intros z Hz. apply Hf. now right.
Qed.

Lemma sort_desc_by_map {A B : Type} (cmpA : A -> A -> comparison)
    (cmpB : B -> B -> comparison) (f : A -> B) l :
  (forall x y, In x l -> In y l -> cmpB (f x) (f y) = cmpA x y) ->
  sort_desc_by cmpB (map f l) = map f (sort_desc_by cmpA l).
Proof.
  induction l as [|x l IH]; intros Hf; simpl; [reflexivity|].
  rewrite IH by (intros; apply Hf; now right).
  apply insert_desc_map. intros y Hy.
  apply Hf; [right; now apply (sort_desc_by_In cmpA) | now left].
Qed.

(** A list whose image is descending is descending, when the map preserves
    the comparison on its elements. *)
Lemma sorted_map_inv {A B : Type} (cmpA : A -> A -> comparison)
    (cmpB : B -> B -> comparison) (f : A -> B) l :
  (forall x y, In x l -> In y l -> cmpB (f x) (f y) = cmpA x y) ->
  StronglySorted (ge_by cmpB) (map f l) -> StronglySorted (ge_by cmpA) l.
Proof.
  induction l as [|x l IH]; intros Hf Hs; [constructor|].
  simpl in Hs. inversion Hs as [|? ? Hs' Hall]; subst.
  constructor.
  - apply IH; [|exact Hs']. intros; apply Hf; now right.
  - rewrite Forall_forall in *. intros y Hy. unfold ge_by.
    rewrite <- Hf; [|now left|now right].
    apply Hall. now apply in_map.
Qed.

Lemma In_skipn_In {A : Type} (x : A) n l : In x (skipn n l) -> In x l.
Proof.
  intros H. rewrite <- (firstn_skipn n l). apply in_or_app. now right.
Qed.

Lemma In_firstn_In {A : Type} (x : A) n l : In x (firstn n l) -> In x l.
Proof.
  intros H. rewrite <- (firstn_skipn n l). apply in_or_app. now left.
Qed.

(** In a descending list every element of a suffix is below every element
    of the corresponding prefix. *)
Lemma sorted_split_ge {A : Type} (cmp : A -> A -> comparison) n l k d :
  StronglySorted (ge_by cmp) l ->
  In k (firstn n l) -> In d (skipn n l) -> ge_by cmp k d.
Proof.
  intros Hs. revert n. induction Hs as [|y l Hs IH Hall]; intros n Hk Hd.
  - destruct n; simpl in Hk; contradiction.
  - destruct n as [|n]; simpl in Hk, Hd; [contradiction|].
    destruct Hk as [<-|Hk].
    + rewrite Forall_forall in Hall. apply Hall.
      now apply (In_skipn_In d n l).
    + now apply (IH n).
Qed.

(** ** Strings: [files.sort(reverse=True)] *)

Definition sort_desc : list string -> list string :=
  sort_desc_by String.compare.

Lemma ascii_compare_trans_lt a b c :
  Ascii.compare a b = Lt -> Ascii.compare b c = Lt ->
  Ascii.compare a c = Lt.
Proof.
  unfold Ascii.compare. rewrite !N.compare_lt_iff. lia.
Qed.

Lemma string_compare_refl s : String.compare s s = Eq.
Proof.
  induction s as [|c s IH]; simpl; [reflexivity|].
  unfold Ascii.compare. now rewrite N.compare_refl.
Qed.

Lemma string_compare_trans_lt a b c :
  String.compare a b = Lt -> String.compare b c = Lt ->
  String.compare a c = Lt.
Proof.
  revert b c. induction a as [|x a IH]; intros [|y b] [|z c];
    simpl; try congruence.
  destruct (Ascii.compare x y) eqn:Exy; try discriminate;
    destruct (Ascii.compare y z) eqn:Eyz; try discriminate; intros H1 H2.
  - apply Ascii.compare_eq_iff in Exy, Eyz. subst.
    unfold Ascii.compare. rewrite N.compare_refl. now apply IH with b.
  - apply Ascii.compare_eq_iff in Exy. subst. now rewrite Eyz.
  - apply Ascii.compare_eq_iff in Eyz. subst. now rewrite Exy.
  - now rewrite (ascii_compare_trans_lt _ _ _ Exy Eyz).
Qed.

Lemma string_ge_trans a b c :
  ge_by String.compare a b -> ge_by String.compare b c ->
  ge_by String.compare a c.
Proof.
  unfold ge_by. intros Hab Hbc Hac.
  destruct (String.compare b a) eqn:Eba.
  - apply String.compare_eq_iff in Eba. subst. contradiction.
  - apply Hbc. exact (string_compare_trans_lt _ _ _ Eba Hac).
  - apply Hab. rewrite String.compare_antisym, Eba. reflexivity.
Qed.

Lemma sort_desc_sorted l :
  StronglySorted (ge_by String.compare) (sort_desc l).
Proof.
  apply sort_desc_by_sorted.
  - apply String.compare_antisym.
  - apply string_ge_trans.
Qed.

(** A common prefix does not change the order: sorting the full paths
    [dir ++ name] orders them as their names. *)
Lemma compare_common_prefix p a b :
  String.compare (p ++ a) (p ++ b) = String.compare a b.
Proof.
  induction p as [|c p IH]; simpl; [reflexivity|].
  unfold Ascii.compare. now rewrite N.compare_refl.
Qed.

End PySort.

(* ================================================================== *)
(** * Archive names ([run_backup], lines 179-180) *)
(* ================================================================== *)

Module Naming.

(** The fields of [datetime.now()] that the archive name uses. *)
Record Timestamp := {
  year : nat; month : nat; day : nat;
  hour : nat; minute : nat; second : nat
}.

(** The ranges of a [datetime] value with a four-digit year, for which [%Y]
    is four digits wide on every platform ([MAXYEAR = 9999]). *)
Definition valid (t : Timestamp) : bool :=
  ((1000 <=? year t) && (year t <? 100 * 100) &&
   (1 <=? month t) && (month t <=? 12) &&
   (1 <=? day t) && (day t <=? 31) &&
   (hour t <=? 23) && (minute t <=? 59) && (second t <=? 59))%nat.

Definition digit (n : nat) : ascii := ascii_of_nat (48 + n mod 10).

(** The last [w] decimal digits of [n], zero-padded. *)
Fixpoint dec (w n : nat) : string :=
  match w with
  | O => EmptyString
  | S w' => dec w' (n / 10) ++ String (digit n) EmptyString
  end.

(** [strftime("%Y%m%d_%H%M%S")] *)
Definition strftime (t : Timestamp) : string :=
  dec 4 (year t) ++ dec 2 (month t) ++ dec 2 (day t) ++ "_" ++
  dec 2 (hour t) ++ dec 2 (minute t) ++ dec 2 (second t).

(** [f"{file_prefix}_{hostname}_{timestamp}.zip"] *)
Definition archive_name (file_prefix hostname : string) (t : Timestamp)
    : string :=
  file_prefix ++ "_" ++ hostname ++ "_" ++ strftime t ++ ".zip".

(** Chronological order of timestamps (the order of naive [datetime]s). *)
Definition lex (c : comparison) (k : comparison) : comparison :=
  match c with Eq => k | _ => c end.

Definition ts_compare (a b : Timestamp) : comparison :=
  lex (Nat.compare (year a) (year b))
 (lex (Nat.compare (month a) (month b))
 (lex (Nat.compare (day a) (day b))
 (lex (Nat.compare (hour a) (hour b))
 (lex (Nat.compare (minute a) (minute b))
      (Nat.compare (second a) (second b)))))).

(** ** Fixed-width decimal text is ordered like the numbers *)

Lemma string_length_app a b :
  String.length (a ++ b) = (String.length a + String.length b)%nat.
Proof. induction a as [|c a IH]; simpl; [reflexivity | now rewrite IH]. Qed.

Lemma dec_length w n : String.length (dec w n) = w.
Proof.
  revert n. induction w as [|w IH]; intros n; simpl; [reflexivity|].
  rewrite string_length_app, IH. simpl. lia.
Qed.

Lemma compare_app_same_length a1 a2 b1 b2 :
  String.length a1 = String.length a2 ->
  String.compare (a1 ++ b1) (a2 ++ b2) =
  lex (String.compare a1 a2) (String.compare b1 b2).
Proof.
  revert a2. induction a1 as [|c a1 IH]; intros [|d a2] Hlen;
    simpl in Hlen; try discriminate; simpl; [reflexivity|].
  destruct (Ascii.compare c d); try reflexivity.
  apply IH. now injection Hlen.
Qed.

Lemma digit_compare x y :
  (x < 10)%nat -> (y < 10)%nat ->
  Ascii.compare (ascii_of_nat (48 + x)) (ascii_of_nat (48 + y)) =
  Nat.compare x y.
Proof.
  intros Hx Hy.
  do 10 (destruct x as [|x];
         [do 10 (destruct y as [|y]; [reflexivity|]); lia|]).
  lia.
Qed.

Lemma compare_div_mod n m :
  lex (Nat.compare (n / 10) (m / 10)) (Nat.compare (n mod 10) (m mod 10)) =
  Nat.compare n m.
Proof.
  pose proof (Nat.div_mod_eq n 10) as Hn.
  pose proof (Nat.div_mod_eq m 10) as Hm.
  pose proof (Nat.mod_upper_bound n 10 ltac:(lia)) as Bn.
  pose proof (Nat.mod_upper_bound m 10 ltac:(lia)) as Bm.
  destruct (Nat.compare_spec (n / 10) (m / 10)) as [E|L|G]; cbn [lex].
  - destruct (Nat.compare_spec (n mod 10) (m mod 10));
      symmetry; [rewrite Nat.compare_eq_iff | rewrite Nat.compare_lt_iff
                | rewrite Nat.compare_gt_iff]; lia.
  - symmetry. rewrite Nat.compare_lt_iff. lia.
  - symmetry. rewrite Nat.compare_gt_iff. lia.
Qed.

Lemma dec_compare w n m :
  (n < 10 ^ w)%nat -> (m < 10 ^ w)%nat ->
  String.compare (dec w n) (dec w m) = Nat.compare n m.
Proof.
  revert n m. induction w as [|w IH]; intros n m Hn Hm.
  - simpl in *. assert (n = 0%nat) by lia. assert (m = 0%nat) by lia.
    now subst.
  - cbn [dec]. rewrite compare_app_same_length by now rewrite !dec_length.
    rewrite IH.
    + cbn [String.compare]. unfold digit.
      rewrite digit_compare by (apply Nat.mod_upper_bound; lia).
      rewrite <- (compare_div_mod n m).
      now destruct (Nat.compare (n mod 10) (m mod 10)).
    + apply Nat.Div0.div_lt_upper_bound. simpl in Hn. lia.
    + apply Nat.Div0.div_lt_upper_bound. simpl in Hm. lia.
Qed.

Lemma valid_bounds t :
  valid t = true ->
  (year t < 10 ^ 4 /\ month t < 10 ^ 2 /\ day t < 10 ^ 2 /\
   hour t < 10 ^ 2 /\ minute t < 10 ^ 2 /\ second t < 10 ^ 2)%nat.
Proof.
  unfold valid. rewrite !andb_true_iff, !Nat.leb_le, Nat.ltb_lt.
  replace (10 ^ 4)%nat with (100 * 100)%nat by reflexivity.
  replace (10 ^ 2)%nat with 100%nat by reflexivity.
  lia.
Qed.

(** The text of two valid timestamps is ordered like the timestamps. *)
Lemma strftime_compare a b :
  valid a = true -> valid b = true ->
  String.compare (strftime a) (strftime b) = ts_compare a b.
Proof.
  intros Ha Hb.
  destruct (valid_bounds a Ha) as (Ya & Ma & Da & ha & ma & sa).
  destruct (valid_bounds b Hb) as (Yb & Mb & Db & hb & mb & sb).
  unfold strftime, ts_compare.
  rewrite compare_app_same_length by now rewrite !dec_length.
  rewrite compare_app_same_length by now rewrite !dec_length.
  rewrite compare_app_same_length by now rewrite !dec_length.
  rewrite (PySort.compare_common_prefix "_").
  rewrite compare_app_same_length by now rewrite !dec_length.
  rewrite compare_app_same_length by now rewrite !dec_length.
  now rewrite !dec_compare.
Qed.

Lemma strftime_length t : String.length (strftime t) = 15%nat.
Proof.
  unfold strftime. rewrite !string_length_app, !dec_length. reflexivity.
Qed.

(** Names of one host are ordered like their timestamps. *)
Lemma archive_name_compare pre host a b :
  valid a = true -> valid b = true ->
  String.compare (archive_name pre host a) (archive_name pre host b) =
  ts_compare a b.
Proof.
  intros Ha Hb. unfold archive_name.
  rewrite PySort.compare_common_prefix.
  rewrite (PySort.compare_common_prefix "_").
  rewrite PySort.compare_common_prefix.
  rewrite (PySort.compare_common_prefix "_").
  rewrite compare_app_same_length by now rewrite !strftime_length.
  rewrite strftime_compare by assumption.
  now destruct (ts_compare a b).
Qed.

End Naming.

(* ================================================================== *)
(** * The engine: class [SyncLogic] *)
(* ================================================================== *)

Module Engine.

Import Config.

(** ** Observable world *)

(** The tagged tuples put on the reporting queue. The elapsed-time and ETA
    texts of a progress tuple are renderings of wall-clock readings and are
    not represented; its value is the fraction that the float expression of
    the code stands for, the rounding of floats not being represented. *)
Inductive Event :=
| EvLog (text : string)
| EvProgress (val : Q) (msg : string)
| EvFinish (success : bool) (msg : string).

(** The calls that create, change or read files, in the order made. *)
Inductive Action :=
| Makedirs (path : string)             (* os.makedirs(path) *)
| ZipCreate (path : string)            (* zipfile.ZipFile(path, 'w', ...) *)
| ZipWrite (src arc : string)          (* zip_file.write(src, arc) *)
| ZipClose (path : string)             (* zip_file.close() *)
| Remove (path : string)               (* os.remove(path) *)
| ZipRead (path : string)              (* zipfile.ZipFile(path, 'r') *)
| Extract (member dest : string).      (* zf.extract(member, dest) *)

(** What [run_backup] returns: [None] (a bare [return]), [True], [False]. *)
Inductive PyRet := RNone | RBool (b : bool).

(** A directory tree under the user's home directory. *)
#[warnings="-register-all"]
Inductive Node :=
| File
| Dir (entries : list (string * Node)).

(** Result of [zf.extract] on one member. *)
Inductive ExtractResult :=
| Extracted
| PermissionError
| OtherError (e : string).

(** How a loop body leaves the loop: it runs to the end of the list,
    executes [return], or raises; [RaisedByClose] is an exception raised by
    [zip_file.close()] itself, after which the archive object is closed
    (the [close()] of the [with] statement then does nothing). *)
Inductive LoopExit :=
| Completed
| Returned
| Raised (e : string)
| RaisedByClose (e : string).

(** The instance fields of [SyncLogic] other than [cfg]; [queue] holds the
    tuples put so far, [None] being the [None] queue of a background run. *)
Record Logic := {
  queue : option (list Event);
  stop_requested : bool
}.

(** [storage]: the names in the storage root, [None] when the directory
    does not exist; a path inside it is represented by its name, every
    such path being [os.path.join(drive_path, name)]. *)
Record World := {
  storage : option (list string);
  stdout : list string;
  actions : list Action
}.

Record State := {
  self : Logic;
  world : World
}.

(** What the engine reads but does not change during a run. The oracles
    on files ([remove_error], [zip_read], [size_text]) take the path the
    library call receives. *)
Record Env := {
  cfg : SyncConfig;
  pathsep : string;                          (* os.sep *)
  os_path_join : string -> string -> string; (* os.path.join *)
  dir_prefix : string -> string;
    (* what [os.path.join(a, b)] puts before [b] when [b] is a relative
       path without a drive, such as the name of a directory entry: [a]
       itself when it ends with a separator, [a] and the separator
       otherwise *)
  now : Naming.Timestamp;                    (* datetime.now() *)
  makedirs_error : option string;            (* os.makedirs raises *)
  source_tree : string -> option Node;       (* what a source path holds *)
  zip_create_error : option string;          (* ZipFile(.., 'w') raises *)
  zip_write_error : string -> option string; (* zip_file.write raises *)
  zip_close_error : option string;           (* zip_file.close() raises *)
  remove_error : string -> option string;    (* os.remove raises *)
  zip_read : string -> string + list string; (* error, or zf.namelist() *)
  extract_result : string -> ExtractResult;
  extract_lands : string -> option string;
    (* the entry of the storage root that the extraction of a member
       creates, when the member lands inside the storage root *)
  size_text : string -> string;              (* f"{size_mb:.2f}" *)
  basename : string -> string;               (* os.path.basename *)
  glob_self : bool;
    (* for a storage path with glob metacharacters: the pattern it makes
       matches the storage root itself *)
  glob_elsewhere : list Action -> list string;
    (* for a storage path with glob metacharacters: the matching files
       that [glob.glob] finds in other directories, after the I/O calls
       made so far *)
  abort_at : option nat
    (* the number of loop entries already processed when the interface
       thread calls [abort()] on the instance; [None]: it never does *)
}.

(** [__init__] *)
Definition init (msg_queue : option (list Event)) : Logic :=
  {| queue := msg_queue; stop_requested := false |}.

(** ** State transformers *)

Definition M (A : Type) : Type := State -> A * State.

Definition ret {A : Type} (a : A) : M A := fun st => (a, st).

Definition bind {A B : Type} (m : M A) (k : A -> M B) : M B :=
  fun st => let (a, st') := m st in k a st'.

Declare Scope monad_scope.
Delimit Scope monad_scope with monad.
Notation "x <- m ;; k" := (bind m (fun x => k))
  (at level 61, m at next level, right associativity) : monad_scope.
Notation "m ;; k" := (bind m (fun _ => k))
  (at level 61, right associativity) : monad_scope.
Open Scope monad_scope.

Definition when (b : bool) (m : M unit) : M unit :=
  if b then m else ret tt.

Definition set_queue (q : option (list Event)) (st : State) : State :=
  {| self := {| queue := q; stop_requested := stop_requested (self st) |};
     world := world st |}.

Definition set_stop (b : bool) (st : State) : State :=
  {| self := {| queue := queue (self st); stop_requested := b |};
     world := world st |}.

Definition set_storage (s : option (list string)) (st : State) : State :=
  {| self := self st;
     world := {| storage := s; stdout := stdout (world st);
                 actions := actions (world st) |} |}.

(** [print(text)] *)
Definition print (text : string) : M unit := fun st =>
  (tt, {| self := self st;
          world := {| storage := storage (world st);
                      stdout := (stdout (world st) ++ [text])%list;
                      actions := actions (world st) |} |}).

(** Record an I/O call. *)
Definition act (a : Action) : M unit := fun st =>
  (tt, {| self := self st;
          world := {| storage := storage (world st);
                      stdout := stdout (world st);
                      actions := (actions (world st) ++ [a])%list |} |}).

(** [self.queue.put(e)], under the test [if self.queue]. *)
Definition put_if_queue (e : Event) (otherwise : M unit) : M unit :=
  fun st =>
    match queue (self st) with
    | Some q => (tt, set_queue (Some (q ++ [e])%list) st)
    | None => otherwise st
    end.

Definition log (text : string) : M unit :=
  put_if_queue (EvLog text) (print text).

Definition progress (val : Q) (msg : string) : M unit :=
  put_if_queue (EvProgress val msg) (ret tt).

Definition finish (success : bool) (msg : string) : M unit :=
  put_if_queue (EvFinish success msg) (ret tt).

Definition abort : M unit := fun st => (tt, set_stop true st).

(** The interface thread: its [abort()] call lands before the checkpoint of
    entry [idx] when the environment says so. *)
Definition interface_thread (abort_at : option nat) (idx : nat) : M unit :=
  match abort_at with
  | Some k => if Nat.eqb k idx then abort else ret tt
  | None => ret tt
  end.

(** Python's [a / b] on integers. *)
Definition py_truediv (a b : nat) : option Q :=
  if Nat.eqb b 0 then None
  else Some (Qmake (Z.of_nat a) (Pos.of_nat b)).

Definition ZeroDivisionError : string := "division by zero".

Definition nat_text (n : nat) : string := PyStr.of_Z (Z.of_nat n).

(** [glob.has_magic]: the text holds one of [*], [?], [[]. *)
Definition has_magic (s : string) : bool :=
  PyStr.has_char "*" s || PyStr.has_char "?" s || PyStr.has_char "[" s.

(** [glob._ishidden]: the text begins with a dot. *)
Definition ishidden (s : string) : bool := PyStr.startswith "." s.

Section WithEnvironment.

(** [fnmatch.fnmatch(name, pattern)] and [os.path.isabs(path)] of the
    platform the program runs on. *)
Variable fnmatch : string -> string -> bool.
Variable isabs : string -> bool.
Variable env : Env.

(** [os.path.join(a, b)] for a relative [b] without a drive (the name of a
    directory entry, a path made of such names). For a [b] that the
    configuration supplies the join is [os_path_join env a b]. *)
Definition path_join (a b : string) : string := dir_prefix env a ++ b.

(** The loops of [should_ignore] on given patterns. *)
Definition path_ignored (patterns : list string) (path : string) : bool :=
  let parts := PyStr.split "/" (PyStr.replace "\" "/" path) in
  existsb (fun part => existsb (fun p => fnmatch part p) patterns) parts.

Definition should_ignore (path : string) : M bool := fun st =>
  (path_ignored (get_ignore_patterns (cfg env)) path, st).

Definition ensure_drive : M bool :=
  let drive_path := get_drive_path (cfg env) in
  if String.eqb drive_path "" then
    log "ERROR: Drive path is not configured." ;; ret false
  else fun st =>
    match storage (world st) with
    | Some _ => ret true st
    | None =>
        (act (Makedirs drive_path) ;;
         match makedirs_error env with
         | Some e => log ("Could not create directory: " ++ e) ;; ret false
         | None => (fun st' => (true, set_storage (Some []) st'))
         end) st
    end.

(** The path of an entry of the storage root. *)
Definition root_path (name : string) : string :=
  path_join (get_drive_path (cfg env)) name.

(** What [glob] yields from one directory: the names that match the
    pattern, a name that begins with a dot being left out unless the
    pattern begins with one. *)
Definition glob_finds (pattern name : string) : bool :=
  (ishidden pattern || negb (ishidden name)) && fnmatch name pattern.

(** The matching entries of the storage root, as paths. *)
Definition root_matches (names : list string) : list string :=
  let pattern := file_prefix (cfg env) ++ "_*.zip" in
  map root_path (filter (glob_finds pattern) names).

(** [glob.glob(os.path.join(drive_path, f"{file_prefix}_*.zip"))]: the
    paths found. When the storage path has no glob metacharacter they are
    the matching entries of the storage root. Otherwise [glob] takes the
    storage path for a pattern too: it looks into every directory that the
    pattern matches, which may or may not include the storage root, and
    what it finds in the other directories is the environment's. *)
Definition glob_backups : M (list string) := fun st =>
  let names :=
    match storage (world st) with Some names => names | None => [] end in
  (if has_magic (get_drive_path (cfg env)) then
     ((if glob_self env then root_matches names else []) ++
      filter (fun p => negb (PyStr.mem p (map root_path names)))
             (glob_elsewhere env (actions (world st))))%list
   else root_matches names, st).

(** The storage root without the entry at [path], if it has one. *)
Definition without (path : string) (names : list string) : list string :=
  filter (fun n => negb (String.eqb (root_path n) path)) names.

(** [os.remove(path)]: [None] on success. *)
Definition os_remove (path : string) : M (option string) :=
  act (Remove path) ;;
  match remove_error env path with
  | Some e => ret (Some e)
  | None => fun st =>
      (None,
       set_storage (option_map (without path) (storage (world st))) st)
  end.

(** [files[count:]] *)
Definition slice_from {A : Type} (l : list A) (start : Z) : list A :=
  if (start <? 0)%Z
  then skipn (Z.to_nat (Z.max 0 (Z.of_nat (length l) + start))) l
  else skipn (Z.to_nat start) l.

(** The body of [for f in files_to_delete]. *)
Definition delete_backup (f : string) : M unit :=
  r <- os_remove f ;;
  match r with
  | None => log ("Deleted old backup: " ++ basename env f)
  | Some e => log ("Failed to delete " ++ basename env f ++ ": " ++ e)
  end.

Fixpoint delete_backups (files_to_delete : list string) : M unit :=
  match files_to_delete with
  | [] => ret tt
  | f :: rest => delete_backup f ;; delete_backups rest
  end.

Definition cleanup_old_backups : M unit :=
  let count := get_retention_count (cfg env) in
  log ("Cleaning up logic (Keep last " ++ PyStr.of_Z count ++ ")...") ;;
  found <- glob_backups ;;
  let files := PySort.sort_desc found in
  if (Z.of_nat (length files) >? count)%Z
  then delete_backups (slice_from files count)
  else ret tt.

Fixpoint log_sizes (files : list string) : M unit :=
  match files with
  | [] => ret tt
  | f :: rest =>
      log ("📄 " ++ basename env f ++ " (" ++ size_text env f ++ " MB)") ;;
      log_sizes rest
  end.

Definition scan_for_backups : M unit :=
  ok <- ensure_drive ;;
  if negb ok then ret tt
  else
    found <- glob_backups ;;
    let files := PySort.sort_desc found in
    match files with
    | [] => log "=== No remote backups found ==="
    | _ :: _ =>
        log ("=== Found " ++ nat_text (length files) ++
             " remote backups ===") ;;
        log_sizes files ;;
        log "=================================="
    end.

(** *** Backup *)

(** [os.path.join(self.cfg.base_user_path, folder)]: the folder comes from
    the configuration and may be any text. *)
Definition source_path_of (folder : string) : string :=
  os_path_join env (base_user_path (cfg env)) folder.

(** [os.path.relpath(full_file_path, source_path)] for an entry that
    [os.walk(source_path)] reaches through the directories [below]: the
    names from [source_path] down, joined by [os.sep]. *)
Definition relpath (names : list string) : string :=
  String.concat (pathsep env) names.

(** [os.walk(source_path)] with the body of its loop: the entries collected
    from the directory at [root], reached from [source_path] through the
    directories [below]; each is a pair of [full_file_path] and the path
    relative to [source_path]. Directories whose name is ignored are not
    descended into, files whose name is ignored are skipped; the files of
    a directory come before those of its subdirectories. Walking something
    that is not a directory yields nothing. *)
Fixpoint walk (root : string) (below : list string) (n : Node) {struct n}
    : list (string * string) :=
  let ignored := path_ignored (get_ignore_patterns (cfg env)) in
  match n with
  | File => []
  | Dir entries =>
      ((fix files (es : list (string * Node)) : list (string * string) :=
          match es with
          | [] => []
          | (file, File) :: es' =>
              if ignored file then files es'
              else (path_join root file, relpath (below ++ [file]))
                   :: files es'
          | (_, Dir _) :: es' => files es'
          end) entries
       ++
       (fix dirs (es : list (string * Node)) : list (string * string) :=
          match es with
          | [] => []
          | (d, (Dir _) as sub) :: es' =>
              if ignored d then dirs es'
              else walk (path_join root d) (below ++ [d]) sub
                   ++ dirs es'
          | (_, File) :: es' => dirs es'
          end) entries)%list
  end.

(** [arcname = os.path.join(folder, os.path.relpath(...))] *)
Definition with_arcname (folder : string) (entry : string * string)
    : string * string :=
  (fst entry, path_join folder (snd entry)).

(** The body of [for folder in self.cfg.get("target_folders")]: the
    entries it appends to [files_to_zip]. *)
Definition collect_folder (folder : string) : list (string * string) :=
  let folder := PyStr.strip folder in
  if String.eqb folder "" then []
  else
    let source_path := source_path_of folder in
    match source_tree env source_path with
    | Some n => map (with_arcname folder) (walk source_path [] n)
    | None => []
    end.

(** [files_to_zip] after the scan. *)
Definition files_to_zip : list (string * string) :=
  flat_map collect_folder (get_target_folders (cfg env)).

(** The log lines of the scan. *)
Definition scan_log (silent : bool) (folder : string) : M unit :=
  let folder := PyStr.strip folder in
  if String.eqb folder "" then ret tt
  else
    let source_path := source_path_of folder in
    match source_tree env source_path with
    | Some _ => when (negb silent) (log ("Scanning: " ++ source_path))
    | None =>
        when (negb silent) (log ("Warning: Folder " ++ folder ++
                                 " not found."))
    end.

Fixpoint scan_logs (silent : bool) (folders : list string) : M unit :=
  match folders with
  | [] => ret tt
  | folder :: rest => scan_log silent folder ;; scan_logs silent rest
  end.

Definition final_zip_name : string :=
  Naming.archive_name (file_prefix (cfg env)) (hostname (cfg env))
                      (now env).

Definition full_output_path : string :=
  path_join (get_drive_path (cfg env)) final_zip_name.

(** [zipfile.ZipFile(full_output_path, 'w', ...)]: [None] when the
    archive file has been created. *)
Definition zip_create : M (option string) :=
  act (ZipCreate full_output_path) ;;
  match zip_create_error env with
  | Some e => ret (Some e)
  | None => fun st =>
      (None,
       set_storage
         (option_map
            (fun names =>
               if PyStr.mem final_zip_name names then names
               else (names ++ [final_zip_name])%list)
            (storage (world st))) st)
  end.

(** The cancellation branch of the backup loop (lines 222-227), up to its
    [return]: [Some e] when [zip_file.close()] raises [e], which leaves the
    branch before the removal and the [finish]. A failure of [os.remove]
    is swallowed. *)
Definition backup_cancel (silent : bool) : M (option string) :=
  when (negb silent) (log "Backup Cancelled.") ;;
  act (ZipClose full_output_path) ;;
  match zip_close_error env with
  | Some e => ret (Some e)
  | None =>
      _ <- os_remove full_output_path ;;
      when (negb silent) (finish false "Cancelled") ;;
      ret None
  end.

(** The rest of the loop body (lines 229-243): [None] unless the
    division raises. *)
Definition backup_write (silent : bool) (total idx : nat)
    (entry : string * string) : M (option string) :=
  let (src_file, zip_path) := entry in
  act (ZipWrite src_file zip_path) ;;
  match zip_write_error env src_file with
  | Some fe =>
      when (negb silent)
           (log ("Error skipping file " ++ src_file ++ ": " ++ fe))
  | None => ret tt
  end ;;
  match py_truediv (idx + 1) total with
  | None => ret (Some ZeroDivisionError)
  | Some progress_val =>
      when (negb silent) (progress progress_val "") ;; ret None
  end.

(** [for idx, (src_file, zip_path) in enumerate(files_to_zip)] *)
Fixpoint backup_loop (silent : bool) (total idx : nat)
    (entries : list (string * string)) : M LoopExit :=
  match entries with
  | [] => ret Completed
  | entry :: rest =>
      interface_thread (abort_at env) idx ;;
      fun st =>
        if stop_requested (self st) then
          (c <- backup_cancel silent ;;
           match c with
           | Some e => ret (RaisedByClose e)
           | None => ret Returned
           end) st
        else
          (r <- backup_write silent total idx entry ;;
           match r with
           | Some e => ret (Raised e)
           | None => backup_loop silent total (S idx) rest
           end) st
  end.

(** The handler [except Exception as e] of [run_backup]. *)
Definition backup_failed (silent : bool) (e : string) : M PyRet :=
  when (negb silent)
       (log ("[CRITICAL ERROR] Failed to create ZIP: " ++ e) ;;
        finish false e) ;;
  ret (RBool false).

(** Leaving the [with] block of [run_backup] (lines 245-254): after a
    [return] inside the loop, after an exception, after the last entry.
    The [close()] of the [with] statement writes the end of the archive and
    may raise, which lands in the handler like any other exception; on an
    archive that is closed already it does nothing. *)
Definition backup_after_loop (silent : bool) (exit : LoopExit)
    : M PyRet :=
  match exit with
  | Returned => ret RNone
  | RaisedByClose e => backup_failed silent e
  | Raised e =>
      act (ZipClose full_output_path) ;;
      match zip_close_error env with
      | Some e' => backup_failed silent e'
      | None => backup_failed silent e
      end
  | Completed =>
      act (ZipClose full_output_path) ;;
      match zip_close_error env with
      | Some e => backup_failed silent e
      | None =>
          when (negb silent)
               (log ("[SUCCESS] Backup saved to: " ++ full_output_path)) ;;
          cleanup_old_backups ;;
          when (negb silent) (finish true "Backup Complete") ;;
          ret (RBool true)
      end
  end.

Definition run_backup (silent : bool) : M PyRet :=
  when (negb silent)
       (log ("--- Starting BACKUP (" ++ hostname (cfg env) ++ ") ---")) ;;
  ok <- ensure_drive ;;
  if negb ok then
    when (negb silent) (finish false "Drive not available") ;;
    ret RNone
  else
    scan_logs silent (get_target_folders (cfg env)) ;;
    match files_to_zip with
    | [] =>
        when (negb silent)
             (log "No files found to back up." ;;
              finish false "No files found") ;;
        ret RNone
    | _ :: _ =>
        when (negb silent) (log ("Creating archive: " ++ final_zip_name)) ;;
        let total_files := length files_to_zip in
        opened <- zip_create ;;
        match opened with
        | Some e => backup_failed silent e
        | None =>
            exit <- backup_loop silent total_files 0 files_to_zip ;;
            backup_after_loop silent exit
        end
    end.

(** *** Restore *)

(** First pass (lines 288-298). *)
Fixpoint analysis_loop (total i : nat) (file_list : list string)
    : M LoopExit :=
  match file_list with
  | [] => ret Completed
  | _ :: rest =>
      match py_truediv i total with
      | None => ret (Raised ZeroDivisionError)
      | Some q =>
          progress (Qmult q (1 # 10)) "Analyzing..." ;;
          analysis_loop total (S i) rest
      end
  end.

(** The guard of line 306. *)
Definition traversal_guard (file : string) : bool :=
  PyStr.startswith ".." file || isabs file.

(** The storage root after [zf.extract] on [file]: the home directory may
    contain the storage root, and a member extracted into it adds an entry
    there (or overwrites one). *)
Definition landed (file : string) (names : list string) : list string :=
  match extract_lands env file with
  | Some name =>
      if PyStr.mem name names then names else (names ++ [name])%list
  | None => names
  end.

(** The extraction of one member that passed the guards (lines 313-338):
    [None] unless the division raises. *)
Definition extract_member (total idx : nat) (file : string)
    : M (option string) :=
  act (Extract file (base_user_path (cfg env))) ;;
  (fun st =>
     (tt, set_storage (option_map (landed file) (storage (world st))) st)) ;;
  match extract_result env file with
  | PermissionError =>
      log ("⚠️ SKIPPED (Locked): " ++ file) ;; ret None
  | OtherError e =>
      log ("⚠️ Error extracting " ++ file ++ ": " ++ e) ;; ret None
  | Extracted =>
      match py_truediv (idx + 1) total with
      | None => ret (Some ZeroDivisionError)
      | Some q =>
          progress (Qplus (1 # 10) (Qmult q (9 # 10)))
                   ("Copying files... (" ++ nat_text (idx + 1) ++ "/" ++
                    nat_text total ++ ")") ;;
          ret None
      end
  end.

(** [for idx, file in enumerate(file_list)] (lines 301-338). *)
Fixpoint extract_loop (total idx : nat) (file_list : list string)
    : M LoopExit :=
  match file_list with
  | [] => ret Completed
  | file :: rest =>
      interface_thread (abort_at env) idx ;;
      fun st =>
        if stop_requested (self st) then
          (finish false "Cancelled" ;; ret Returned) st
        else if traversal_guard file then
          extract_loop total (S idx) rest st
        else
          (ignored <- should_ignore file ;;
           if ignored then extract_loop total (S idx) rest
           else
             r <- extract_member total idx file ;;
             match r with
             | Some e => ret (Raised e)
             | None => extract_loop total (S idx) rest
             end) st
  end.

(** The handler [except Exception as e] around the archive (340-343). *)
Definition zip_error (e : string) : M PyRet :=
  log ("Zip Error: " ++ e) ;;
  finish false e ;;
  ret RNone.

(** The body of [with zipfile.ZipFile(latest_backup, 'r') as zf] and
    what follows it (lines 282-346). Leaving the block closes an archive
    that was opened for reading: nothing is written. *)
Definition restore_archive (filename : string) (file_list : list string)
    : M PyRet :=
  let total_files := length file_list in
  a <- analysis_loop total_files 0 file_list ;;
  match a with
  | Raised e | RaisedByClose e => zip_error e
  | Returned => ret RNone
  | Completed =>
      x <- extract_loop total_files 0 file_list ;;
      match x with
      | Raised e | RaisedByClose e => zip_error e
      | Returned => ret RNone
      | Completed =>
          log ("[SUCCESS] Restore completed from " ++ filename) ;;
          finish true "Restore Complete" ;;
          ret RNone
      end
  end.

Definition run_restore : M PyRet :=
  log "--- Starting RESTORE ---" ;;
  ok <- ensure_drive ;;
  if negb ok then
    finish false "Drive not available" ;; ret RNone
  else
    found <- glob_backups ;;
    match PySort.sort_desc found with
    | [] =>
        log "No backup files found in Drive." ;;
        finish false "No backups found" ;;
        ret RNone
    | latest_backup :: _ =>
        let filename := basename env latest_backup in
        log ("Found latest backup: " ++ filename) ;;
        log "Analyzing archive..." ;;
        act (ZipRead latest_backup) ;;
        match zip_read env latest_backup with
        | inl e => zip_error e
        | inr file_list => restore_archive filename file_list
        end
    end.

End WithEnvironment.

End Engine.

(* ================================================================== *)
(** * Path filter: what [should_ignore] decides *)
(* ================================================================== *)

Module PathFilter.

Import PyStr.

(** ** Segments of a path, stated without the splitting algorithm *)

Definition is_sep (c : ascii) : bool :=
  Ascii.eqb c "/" || Ascii.eqb c "\".

Definition sep_free (s : string) : Prop :=
  has_char "/" s = false /\ has_char "\" s = false.

Definition ends_with_sep (pre : string) : Prop :=
  exists p c, pre = p ++ String c "" /\ is_sep c = true.

Definition starts_with_sep (post : string) : Prop :=
  exists c p, post = String c p /\ is_sep c = true.

(** [seg] is a segment of [path]: a piece without separator that is
    delimited, on each side, by a separator or by the end of the path. *)
Definition segment_of (path seg : string) : Prop :=
  exists pre post,
    path = pre ++ seg ++ post /\ sep_free seg /\
    (pre = "" \/ ends_with_sep pre) /\
    (post = "" \/ starts_with_sep post).

(** The list computed by [path.replace('\\', '/').split('/')]. *)
Definition parts (path : string) : list string :=
  split "/" (replace "\" "/" path).

(** ** The split computes the segments *)

Lemma append_nil_r s : s ++ "" = s.
Proof. induction s as [|c s IH]; simpl; [reflexivity | now rewrite IH]. Qed.

Lemma append_assoc a b c : (a ++ b) ++ c = a ++ b ++ c.
Proof. induction a as [|x a IH]; simpl; [reflexivity | now rewrite IH]. Qed.

Lemma parts_nonempty path : parts path <> [].
Proof. apply split_nonempty. Qed.

Lemma parts_cons_sep c rest :
  is_sep c = true -> parts (String c rest) = "" :: parts rest.
Proof.
  unfold is_sep, parts. intros H. simpl.
  destruct (Ascii.eqb c "\") eqn:Eb; [reflexivity|].
  rewrite orb_false_r in H. now rewrite H.
Qed.

Lemma parts_cons_other c rest :
  is_sep c = false ->
  parts (String c rest) =
  match parts rest with
  | [] => [String c ""]
  | s :: ss => String c s :: ss
  end.
Proof.
  unfold is_sep, parts. intros H. apply orb_false_iff in H as [H1 H2].
  simpl. now rewrite H2, H1.
Qed.

Lemma sep_free_cons c s :
  sep_free (String c s) <-> is_sep c = false /\ sep_free s.
Proof.
  unfold sep_free, is_sep. simpl. rewrite !orb_false_iff. tauto.
Qed.

Lemma parts_sep_free seg : sep_free seg -> parts seg = [seg].
Proof.
  induction seg as [|c s IH]; intros H; [reflexivity|].
  apply sep_free_cons in H as [Hc Hs].
  rewrite parts_cons_other by assumption. now rewrite IH.
Qed.

Lemma parts_app_sep a c b :
  is_sep c = true -> parts (a ++ String c b) = (parts a ++ parts b)%list.
Proof.
  intros Hc. induction a as [|d a IH]; simpl.
  - now rewrite parts_cons_sep.
  - destruct (is_sep d) eqn:Hd.
    + rewrite !parts_cons_sep by assumption. simpl. now rewrite IH.
    + rewrite !parts_cons_other by assumption. rewrite IH.
      destruct (parts a) as [|s ss] eqn:Ea; [|reflexivity].
      now elim (parts_nonempty a).
Qed.

Lemma segment_in_parts path seg : segment_of path seg -> In seg (parts path).
Proof.
  intros (pre & post & -> & Hfree & Hpre & Hpost).
  assert (Hmid : In seg (parts (seg ++ post))).
  { destruct Hpost as [->|(c & p & -> & Hc)].
    - rewrite append_nil_r, parts_sep_free by assumption. now left.
    - rewrite parts_app_sep, parts_sep_free by assumption. now left. }
  destruct Hpre as [->|(p & c & -> & Hc)]; [exact Hmid|].
  rewrite append_assoc. simpl.
  rewrite parts_app_sep by assumption.
  apply in_or_app. now right.
Qed.

(** The head of the split is a leading segment; every other element is a
    segment that follows a separator. *)
Lemma parts_spec path :
  exists s0 ss,
    parts path = s0 :: ss /\
    (exists post,
       path = s0 ++ post /\ sep_free s0 /\
       (post = "" \/ starts_with_sep post)) /\
    (forall seg, In seg ss ->
       exists pre post,
         path = pre ++ seg ++ post /\ sep_free seg /\
         ends_with_sep pre /\ (post = "" \/ starts_with_sep post)).
Proof.
  induction path as [|c rest IH].
  - exists "", []. split; [reflexivity|]. split.
    + exists "". repeat split; now left.
    + intros seg [].
  - destruct IH as (r0 & rs & Er & (post0 & Hr & Hf0 & Hp0) & Htail).
    destruct (is_sep c) eqn:Hc.
    + exists "", (r0 :: rs). split; [now rewrite parts_cons_sep, Er|].
      split.
      * exists (String c rest). repeat split.
        right. now exists c, rest.
      * intros seg [<-|Hin].
        -- exists (String c ""), post0.
           repeat split; try (now apply Hf0); try assumption.
           ++ simpl. now rewrite <- Hr.
           ++ now exists "", c.
        -- destruct (Htail seg Hin)
             as (pre & post & Hpath & Hfree & (p & d & -> & Hd) & Hpost).
           exists (String c (p ++ String d "")), post.
           repeat split; try (now apply Hfree); try assumption.
           ++ simpl. now rewrite <- Hpath.
           ++ now exists (String c p), d.
    + exists (String c r0), rs.
      split; [now rewrite parts_cons_other, Er|]. split.
      * exists post0. split; [simpl; now rewrite <- Hr|].
        split; [now apply sep_free_cons | assumption].
      * intros seg Hin.
        destruct (Htail seg Hin)
          as (pre & post & Hpath & Hfree & (p & d & -> & Hd) & Hpost).
        exists (String c (p ++ String d "")), post.
        repeat split; try (now apply Hfree); try assumption.
        -- simpl. now rewrite <- Hpath.
        -- now exists (String c p), d.
Qed.

Lemma parts_in_segment path seg : In seg (parts path) -> segment_of path seg.
Proof.
  destruct (parts_spec path) as (s0 & ss & E & (post0 & Hp & Hf & Hpost) & Ht).
  rewrite E. intros [<-|Hin].
  - exists "", post0. repeat split; try (now apply Hf); try assumption.
    now left.
  - destruct (Ht seg Hin) as (pre & post & Hpath & Hfree & Hpre & Hpo).
    exists pre, post. repeat split; try (now apply Hfree); try assumption.
    now right.
Qed.

Lemma parts_segments path seg : In seg (parts path) <-> segment_of path seg.
Proof. split; [apply parts_in_segment | apply segment_in_parts]. Qed.

(** ** The loops of [should_ignore] *)

Lemma path_ignored_iff fnmatch patterns path :
  Engine.path_ignored fnmatch patterns path = true <->
  exists part p,
    In part (parts path) /\ In p patterns /\ fnmatch part p = true.
Proof.
  unfold Engine.path_ignored. fold (parts path).
  rewrite existsb_exists. split.
  - intros (part & Hpart & H). apply existsb_exists in H as (p & Hp & Hm).
    now exists part, p.
  - intros (part & p & Hpart & Hp & Hm). exists part. split; [assumption|].
    apply existsb_exists. now exists p.
Qed.

(** C5. [should_ignore] returns true exactly when some segment of the path
    (the pieces between the separators [\] and [/]) matches some configured
    pattern under [fnmatch], and it leaves the instance and the world as
    they were. *)
Theorem should_ignore_segments fnmatch env path st :
  snd (Engine.should_ignore fnmatch env path st) = st /\
  (fst (Engine.should_ignore fnmatch env path st) = true <->
   exists seg p,
     segment_of path seg /\
     In p (Config.get_ignore_patterns (Engine.cfg env)) /\
     fnmatch seg p = true).
Proof.
  unfold Engine.should_ignore. simpl. split; [reflexivity|].
  rewrite path_ignored_iff. split.
  - intros (part & p & Hpart & Hp & Hm). exists part, p.
    split; [now apply parts_segments | now split].
  - intros (seg & p & Hseg & Hp & Hm). exists seg, p.
    split; [now apply parts_segments | now split].
Qed.

End PathFilter.

(* ================================================================== *)
(** * Reasoning about runs: what a method may add to the world *)
(* ================================================================== *)

Module Frame.

Import Engine.
Open Scope monad_scope.

(** The tuples on the queue, and the names in the storage root. *)
Definition events (st : State) : list Event :=
  match queue (self st) with Some q => q | None => [] end.

Definition listing (st : State) : list string :=
  match storage (world st) with Some names => names | None => [] end.

(** From [st] to [st'] the queue (when there is one) and the sequence of
    I/O calls only grow, by events satisfying [PE] and calls satisfying
    [PA]; a requested stop stays requested. *)
Definition frame (PE : Event -> Prop) (PA : Action -> Prop)
    (st st' : State) : Prop :=
  (exists evs,
      queue (self st') = option_map (fun q => q ++ evs)%list (queue (self st))
      /\ Forall PE evs) /\
  (exists acts,
      actions (world st') = (actions (world st) ++ acts)%list
      /\ Forall PA acts) /\
  (stop_requested (self st) = true -> stop_requested (self st') = true).

(** A computation all of whose runs stay within the frame. *)
Definition respects (PE : Event -> Prop) (PA : Action -> Prop)
    {A : Type} (m : M A) : Prop :=
  forall st, frame PE PA st (snd (m st)).

Section Rules.
Variable PE : Event -> Prop.
Variable PA : Action -> Prop.

Lemma frame_refl st : frame PE PA st st.
Proof.
  repeat split.
  - exists []. split; [|constructor].
    destruct (queue (self st)); simpl; [now rewrite app_nil_r|reflexivity].
  - exists []. split; [now rewrite app_nil_r | constructor].
  - trivial.
Qed.

Lemma frame_trans st1 st2 st3 :
  frame PE PA st1 st2 -> frame PE PA st2 st3 -> frame PE PA st1 st3.
Proof.
  intros ((e1 & Q1 & F1) & (a1 & A1 & G1) & S1)
         ((e2 & Q2 & F2) & (a2 & A2 & G2) & S2).
  repeat split.
  - exists (e1 ++ e2)%list. split; [|now apply Forall_app].
    rewrite Q2, Q1. destruct (queue (self st1)); simpl;
      [now rewrite app_assoc | reflexivity].
  - exists (a1 ++ a2)%list. split; [|now apply Forall_app].
    now rewrite A2, A1, app_assoc.
  - auto.
Qed.

Lemma respects_ret {A : Type} (a : A) : respects PE PA (ret a).
Proof. intros st. apply frame_refl. Qed.

Lemma respects_bind {A B : Type} (m : M A) (k : A -> M B) :
  respects PE PA m -> (forall a, respects PE PA (k a)) ->
  respects PE PA (bind m k).
Proof.
  intros Hm Hk st. unfold bind.
  specialize (Hm st). destruct (m st) as [a st1]. simpl in Hm.
  eapply frame_trans; [exact Hm | apply Hk].
Qed.

Lemma respects_when b (m : M unit) :
  respects PE PA m -> respects PE PA (when b m).
Proof. destruct b; simpl; [trivial | intros _; apply respects_ret]. Qed.

Lemma respects_print text : respects PE PA (print text).
Proof.
  intros st. repeat split; simpl.
  - exists []. split; [|constructor].
    destruct (queue (self st)); simpl; [now rewrite app_nil_r|reflexivity].
  - exists []. split; [now rewrite app_nil_r | constructor].
  - trivial.
Qed.

Lemma respects_put e (otherwise : M unit) :
  PE e -> respects PE PA otherwise ->
  respects PE PA (put_if_queue e otherwise).
Proof.
  intros He Ho st. unfold put_if_queue.
  destruct (queue (self st)) as [q|] eqn:Eq; [|apply Ho].
  repeat split; simpl.
  - exists [e]. rewrite Eq. split; [reflexivity | now constructor].
  - exists []. split; [now rewrite app_nil_r | constructor].
  - trivial.
Qed.

Lemma respects_log text : PE (EvLog text) -> respects PE PA (log text).
Proof. intros H. apply respects_put; [exact H | apply respects_print]. Qed.

Lemma respects_progress v msg :
  PE (EvProgress v msg) -> respects PE PA (progress v msg).
Proof. intros H. apply respects_put; [exact H | apply respects_ret]. Qed.

Lemma respects_finish ok msg :
  PE (EvFinish ok msg) -> respects PE PA (finish ok msg).
Proof. intros H. apply respects_put; [exact H | apply respects_ret]. Qed.

Lemma respects_act a : PA a -> respects PE PA (act a).
Proof.
  intros Ha st. repeat split; simpl.
  - exists []. split; [|constructor].
    destruct (queue (self st)); simpl; [now rewrite app_nil_r|reflexivity].
  - exists [a]. split; [reflexivity | now constructor].
  - trivial.
Qed.

Lemma respects_set_storage {A : Type} (a : A) f :
  respects PE PA (fun st => (a, set_storage (f st) st)).
Proof.
  intros st. repeat split; simpl.
  - exists []. split; [|constructor].
    destruct (queue (self st)); simpl; [now rewrite app_nil_r|reflexivity].
  - exists []. split; [now rewrite app_nil_r | constructor].
  - trivial.
Qed.

Lemma respects_abort : respects PE PA abort.
Proof.
  intros st. repeat split; simpl.
  - exists []. split; [|constructor].
    destruct (queue (self st)); simpl; [now rewrite app_nil_r|reflexivity].
  - exists []. split; [now rewrite app_nil_r | constructor].
Qed.

Lemma respects_interface_thread k idx :
  respects PE PA (interface_thread k idx).
Proof.
  unfold interface_thread. destruct k as [k|]; [|apply respects_ret].
  destruct (Nat.eqb k idx); [apply respects_abort | apply respects_ret].
Qed.

End Rules.

End Frame.

(* ================================================================== *)
(** * Every method stays within the frame *)
(* ================================================================== *)

Module Methods.

Import Engine Frame.
Open Scope monad_scope.

Definition is_extract (a : Action) : bool :=
  match a with Extract _ _ => true | _ => false end.

Ltac frame_auto :=
  repeat first
    [ apply respects_ret
    | apply respects_when
    | apply respects_log
    | apply respects_progress
    | apply respects_finish
    | apply respects_print
    | apply respects_abort
    | apply respects_interface_thread
    | apply respects_act
    | (apply respects_bind; [|intros ?])
    | match goal with
      | |- respects _ _ (match ?x with _ => _ end) => destruct x
      | |- respects _ _ (if ?b then _ else _) => destruct b
      | |- respects _ _ (let (_, _) := ?p in _) => destruct p
      end ].

Section AllMethods.
Variable fnmatch : string -> string -> bool.
Variable isabs : string -> bool.
Variable env : Env.

(** The predicates admit every event, every call other than an
    extraction, and the extraction of a member that passes both the
    traversal guard and the ignore filter. *)
Variable PE : Event -> Prop.
Variable PA : Action -> Prop.
Hypothesis PE_all : forall e, PE e.
Hypothesis PA_other : forall a, is_extract a = false -> PA a.
Hypothesis PA_extract :
  forall file dest,
    traversal_guard isabs file = false ->
    path_ignored fnmatch (Config.get_ignore_patterns (cfg env)) file
      = false ->
    PA (Extract file dest).

Local Hint Resolve PE_all : core.

Ltac side := first [ apply PE_all | (apply PA_other; reflexivity) ].
Ltac go := frame_auto; try side.

Lemma respects_should_ignore path :
  respects PE PA (should_ignore fnmatch env path).
Proof. intros st. apply frame_refl. Qed.

Lemma respects_glob_backups : respects PE PA (glob_backups fnmatch env).
Proof. intros st. apply frame_refl. Qed.

Lemma respects_ensure_drive : respects PE PA (ensure_drive env).
Proof.
  unfold ensure_drive.
  destruct (String.eqb _ _); [go|].
  intros st. destruct (storage (world st)); [apply frame_refl|].
  revert st. go. apply respects_set_storage.
Qed.

Lemma respects_os_remove name : respects PE PA (os_remove env name).
Proof. unfold os_remove. go. apply respects_set_storage. Qed.

Lemma respects_delete_backups files :
  respects PE PA (delete_backups env files).
Proof.
  induction files as [|f rest IH]; simpl; [go|].
  apply respects_bind; [|intros _; exact IH].
  unfold delete_backup. apply respects_bind; [apply respects_os_remove|].
  intros r. go.
Qed.

Lemma respects_cleanup_old_backups :
  respects PE PA (cleanup_old_backups fnmatch env).
Proof.
  unfold cleanup_old_backups. apply respects_bind; [go|]. intros _.
  apply respects_bind; [apply respects_glob_backups|]. intros found.
  destruct (_ >? _)%Z; [apply respects_delete_backups | go].
Qed.

Lemma respects_log_sizes files : respects PE PA (log_sizes env files).
Proof. induction files as [|f rest IH]; simpl; go. exact IH. Qed.

Lemma respects_scan_for_backups :
  respects PE PA (scan_for_backups fnmatch env).
Proof.
  unfold scan_for_backups.
  apply respects_bind; [apply respects_ensure_drive|]. intros ok.
  destruct (negb ok); [go|].
  apply respects_bind; [apply respects_glob_backups|]. intros found.
  destruct (PySort.sort_desc found); go. apply respects_log_sizes.
Qed.

Lemma respects_scan_logs silent folders :
  respects PE PA (scan_logs env silent folders).
Proof.
  induction folders as [|f rest IH]; simpl; [go|].
  apply respects_bind; [|intros _; exact IH].
  unfold scan_log. go.
Qed.

Lemma respects_zip_create : respects PE PA (zip_create env).
Proof. unfold zip_create. go. apply respects_set_storage. Qed.

Lemma respects_backup_cancel silent :
  respects PE PA (backup_cancel env silent).
Proof.
  unfold backup_cancel.
  apply respects_bind; [go|]. intros _.
  apply respects_bind; [go|]. intros _.
  destruct (zip_close_error env); [go|].
  apply respects_bind; [apply respects_os_remove | intros _; go].
Qed.

Lemma respects_backup_write silent total idx entry :
  respects PE PA (backup_write env silent total idx entry).
Proof. unfold backup_write. go. Qed.

Lemma respects_backup_loop silent total entries :
  forall idx, respects PE PA (backup_loop env silent total idx entries).
Proof.
  induction entries as [|entry rest IH]; intros idx; simpl; [go|].
  apply respects_bind; [go|]. intros _ st.
  destruct (stop_requested (self st)).
  - revert st.
    apply respects_bind; [apply respects_backup_cancel | intros c; go].
  - revert st. apply respects_bind; [apply respects_backup_write|].
    intros [e|]; [go | apply IH].
Qed.

Lemma respects_backup_failed silent e :
  respects PE PA (backup_failed silent e).
Proof. unfold backup_failed. go. Qed.

Lemma respects_run_backup silent :
  respects PE PA (run_backup fnmatch env silent).
Proof.
  unfold run_backup. apply respects_bind; [go|]. intros _.
  apply respects_bind; [apply respects_ensure_drive|]. intros ok.
  destruct (negb ok); [go|].
  apply respects_bind; [apply respects_scan_logs|]. intros _.
  destruct (files_to_zip fnmatch env) as [|entry rest]; [go|].
  apply respects_bind; [go|]. intros _.
  apply respects_bind; [apply respects_zip_create|].
  intros [e|]; [apply respects_backup_failed|].
  apply respects_bind; [apply respects_backup_loop|].
  intros [| |e|e]; unfold backup_after_loop.
  - apply respects_bind; [go|]. intros _.
    destruct (zip_close_error env); [apply respects_backup_failed|].
    apply respects_bind; [go|]. intros _.
    apply respects_bind; [apply respects_cleanup_old_backups|].
    intros _. go.
  - go.
  - apply respects_bind; [go|]. intros _.
    destruct (zip_close_error env); apply respects_backup_failed.
  - apply respects_backup_failed.
Qed.

Lemma respects_analysis_loop total file_list :
  forall i, respects PE PA (analysis_loop total i file_list).
Proof.
  induction file_list as [|f rest IH]; intros i; simpl; [go|].
  destruct (py_truediv i total); [|go].
  apply respects_bind; [go | intros _; apply IH].
Qed.

Lemma respects_extract_member total idx file :
  traversal_guard isabs file = false ->
  path_ignored fnmatch (Config.get_ignore_patterns (cfg env)) file
    = false ->
  respects PE PA (extract_member env total idx file).
Proof.
  intros Hg Hi. unfold extract_member.
  apply respects_bind; [apply respects_act; now apply PA_extract|].
  intros _. apply respects_bind; [apply respects_set_storage|].
  intros _. go.
Qed.

Lemma respects_extract_loop total file_list :
  forall idx,
    respects PE PA (extract_loop fnmatch isabs env total idx file_list).
Proof.
  induction file_list as [|file rest IH]; intros idx; simpl; [go|].
  apply respects_bind; [go|]. intros _ st.
  destruct (stop_requested (self st)); [revert st; go|].
  destruct (traversal_guard isabs file) eqn:Hg; [apply IH|].
  unfold bind, should_ignore.
  destruct (path_ignored _ _ file) eqn:Hi; [apply IH|].
  revert st.
  apply respects_bind; [now apply respects_extract_member|].
  intros [e|]; [go | apply IH].
Qed.

Lemma respects_zip_error e : respects PE PA (zip_error e).
Proof. unfold zip_error. go. Qed.

Lemma respects_run_restore :
  respects PE PA (run_restore fnmatch isabs env).
Proof.
  unfold run_restore. apply respects_bind; [go|]. intros _.
  apply respects_bind; [apply respects_ensure_drive|]. intros ok.
  destruct (negb ok); [go|].
  apply respects_bind; [apply respects_glob_backups|]. intros found.
  destruct (PySort.sort_desc found) as [|filename rest]; [go|].
  apply respects_bind; [go|]. intros _.
  apply respects_bind; [go|]. intros _.
  apply respects_bind; [go|]. intros _.
  destruct (zip_read env filename) as [e|file_list];
    [apply respects_zip_error|].
  unfold restore_archive.
  apply respects_bind; [apply respects_analysis_loop|].
  intros [| |e|e]; [|go|apply respects_zip_error|apply respects_zip_error].
  apply respects_bind; [apply respects_extract_loop|].
  intros [| |e|e];
    [go|go|apply respects_zip_error|apply respects_zip_error].
Qed.

End AllMethods.

End Methods.

(* ================================================================== *)
(** * Exact effects: the state after a step, as an expression *)
(* ================================================================== *)

Module Exact.

Import Engine.
Open Scope monad_scope.

(** The log texts among some events: what [print] shows of them when there
    is no queue. *)
Definition texts (evs : list Event) : list string :=
  flat_map (fun e => match e with EvLog t => [t] | _ => [] end) evs.

(** The state after reporting [evs]. *)
Definition emit (evs : list Event) (st : State) : State :=
  {| self := {| queue := option_map (fun q => (q ++ evs)%list)
                                    (queue (self st));
                stop_requested := stop_requested (self st) |};
     world := {| storage := storage (world st);
                 stdout := match queue (self st) with
                           | Some _ => stdout (world st)
                           | None => (stdout (world st) ++ texts evs)%list
                           end;
                 actions := actions (world st) |} |}.

(** The state after the I/O calls [acts]. *)
Definition perform (acts : list Action) (st : State) : State :=
  {| self := self st;
     world := {| storage := storage (world st);
                 stdout := stdout (world st);
                 actions := (actions (world st) ++ acts)%list |} |}.

(** The events of a step that reports only when [b] holds. *)
Definition say (b : bool) (evs : list Event) : list Event :=
  if b then evs else [].

Lemma bind_eq {A B : Type} (m : M A) (k : A -> M B) st a st1 :
  m st = (a, st1) -> bind m k st = k a st1.
Proof. intros H. unfold bind. now rewrite H. Qed.

Lemma emit_nil st : emit [] st = st.
Proof.
  destruct st as [[q b] [s o a]]. unfold emit. simpl.
  destruct q; simpl; now rewrite !app_nil_r.
Qed.

Lemma texts_app e1 e2 : texts (e1 ++ e2) = (texts e1 ++ texts e2)%list.
Proof. apply flat_map_app. Qed.

Lemma emit_app e1 e2 st : emit e2 (emit e1 st) = emit (e1 ++ e2) st.
Proof.
  destruct st as [[q b] [s o a]]. unfold emit. simpl.
  destruct q; simpl.
  - now rewrite app_assoc.
  - now rewrite texts_app, app_assoc.
Qed.

Lemma perform_nil st : perform [] st = st.
Proof.
  destruct st as [[q b] [s o a]]. unfold perform. simpl.
  now rewrite app_nil_r.
Qed.

Lemma perform_app a1 a2 st :
  perform a2 (perform a1 st) = perform (a1 ++ a2) st.
Proof. unfold perform. simpl. now rewrite app_assoc. Qed.

Lemma emit_perform evs acts st :
  emit evs (perform acts st) = perform acts (emit evs st).
Proof. reflexivity. Qed.

Lemma log_eq text st : log text st = (tt, emit [EvLog text] st).
Proof. destruct st as [[[q|] b] [s o a]]; reflexivity. Qed.

Lemma progress_eq v msg st :
  progress v msg st = (tt, emit [EvProgress v msg] st).
Proof.
  destruct st as [[[q|] b] [s o a]]; try reflexivity.
  unfold progress, put_if_queue, emit. simpl. now rewrite app_nil_r.
Qed.

Lemma finish_eq ok msg st :
  finish ok msg st = (tt, emit [EvFinish ok msg] st).
Proof.
  destruct st as [[[q|] b] [s o a]]; try reflexivity.
  unfold finish, put_if_queue, emit. simpl. now rewrite app_nil_r.
Qed.

Lemma act_eq a st : act a st = (tt, perform [a] st).
Proof. reflexivity. Qed.

Lemma when_log b text st :
  when b (log text) st = (tt, emit (say b [EvLog text]) st).
Proof. destruct b; simpl; [apply log_eq | now rewrite emit_nil]. Qed.

Lemma when_progress b v msg st :
  when b (progress v msg) st = (tt, emit (say b [EvProgress v msg]) st).
Proof. destruct b; simpl; [apply progress_eq | now rewrite emit_nil]. Qed.

Lemma when_finish b ok msg st :
  when b (finish ok msg) st = (tt, emit (say b [EvFinish ok msg]) st).
Proof. destruct b; simpl; [apply finish_eq | now rewrite emit_nil]. Qed.

Lemma log_finish_eq text ok msg st :
  (log text ;; finish ok msg) st =
  (tt, emit [EvFinish ok msg] (emit [EvLog text] st)).
Proof. rewrite (bind_eq _ _ _ _ _ (log_eq _ _)). apply finish_eq. Qed.

(** The handler of [run_backup]. *)
Lemma backup_failed_eq silent e st :
  backup_failed silent e st =
  (RBool false,
   emit (say (negb silent)
             [EvLog ("[CRITICAL ERROR] Failed to create ZIP: " ++ e);
              EvFinish false e]) st).
Proof.
  unfold backup_failed. destruct silent; cbn [negb when say].
  - unfold bind, ret. now rewrite emit_nil.
  - rewrite (bind_eq _ _ _ _ _ (log_finish_eq _ _ _ _)).
    now rewrite emit_app.
Qed.

Lemma py_truediv_some a b :
  b <> 0%nat -> py_truediv a b = Some (Qmake (Z.of_nat a) (Pos.of_nat b)).
Proof.
  intros H. unfold py_truediv.
  destruct (Nat.eqb b 0) eqn:E; [|reflexivity].
  apply Nat.eqb_eq in E. contradiction.
Qed.

End Exact.

(* ================================================================== *)
(** * A concrete platform and installation, to run the model *)
(* ================================================================== *)

Module Example.

Import Engine.

(** A matcher for patterns made of literal characters, [*] and [?]. *)
Fixpoint glob_match (s pat : string) {struct pat} : bool :=
  match pat with
  | EmptyString =>
      match s with EmptyString => true | String _ _ => false end
  | String c pat' =>
      if Ascii.eqb c "*" then
        (fix star (s : string) : bool :=
           glob_match s pat' ||
           match s with
           | EmptyString => false
           | String _ s' => star s'
           end) s
      else
        match s with
        | EmptyString => false
        | String d s' =>
            (Ascii.eqb c "?" || Ascii.eqb c d) && glob_match s' pat'
        end
  end.

(** [posixpath.isabs] *)
Definition posix_isabs (s : string) : bool := PyStr.startswith "/" s.

(** [posixpath.basename]: what follows the last [/]. *)
Definition posix_basename (s : string) : string :=
  last (PyStr.split "/" s) "".

Definition config : Config.SyncConfig := {|
  Config.config := {|
    Config.drive_path := Some "/mnt/drive/AntigravitySync";
    Config.target_folders := Some [".gemini"; ".antigravity"];
    Config.retention_count := Some 2%Z;
    Config.compression_level := Some 5%Z;
    Config.ignore_patterns := None;
    Config.scheduled_times := Some ["10:00"]
  |};
  Config.current_user := "ana";
  Config.hostname := "alpha";
  Config.base_user_path := "/home/ana";
  Config.file_prefix := "Antigravity_Backup"
|}.

Definition noon : Naming.Timestamp := {|
  Naming.year := 2025; Naming.month := 3; Naming.day := 9;
  Naming.hour := 12; Naming.minute := 0; Naming.second := 0
|}.

(** The home directory holds [.gemini] with three files, one of them
    ignored, and a [.git] directory. *)
Definition home (path : string) : option Node :=
  if String.eqb path "/home/ana/.gemini" then
    Some (Dir [("settings.json", File);
               ("debug.log", File);
               (".git", Dir [("HEAD", File)]);
               ("chats", Dir [("a.md", File); ("b.md", File)])])
  else None.

(** The newest archive holds a plain member, a member behind [..], an
    absolute member and an ignored member. *)
Definition archive (name : string) : string + list string :=
  inr [".gemini/settings.json"; "../../evil.txt"; "/etc/passwd";
       ".gemini/debug.log"].

(** [os.path.join] of a POSIX platform. *)
Fixpoint ends_with_slash (s : string) : bool :=
  match s with
  | EmptyString => false
  | String c EmptyString => Ascii.eqb c "/"
  | String _ rest => ends_with_slash rest
  end.

Definition posix_prefix (a : string) : string :=
  if String.eqb a "" || ends_with_slash a then a else a ++ "/".

Definition posix_join (a b : string) : string :=
  if PyStr.startswith "/" b then b else posix_prefix a ++ b.

Definition env : Env := {|
  cfg := config;
  pathsep := "/";
  os_path_join := posix_join;
  dir_prefix := posix_prefix;
  now := noon;
  makedirs_error := None;
  source_tree := home;
  zip_create_error := None;
  zip_write_error := fun _ => None;
  zip_close_error := None;
  remove_error := fun _ => None;
  zip_read := archive;
  extract_result := fun _ => Extracted;
  extract_lands := fun _ => None;
  size_text := fun _ => "0.01";
  basename := posix_basename;
  glob_self := false;
  glob_elsewhere := fun _ => [];
  abort_at := None
|}.

Definition with_abort_at (k : option nat) (e : Env) : Env := {|
  cfg := cfg e; pathsep := pathsep e;
  os_path_join := os_path_join e; dir_prefix := dir_prefix e; now := now e;
  makedirs_error := makedirs_error e; source_tree := source_tree e;
  zip_create_error := zip_create_error e;
  zip_write_error := zip_write_error e;
  zip_close_error := zip_close_error e;
  remove_error := remove_error e; zip_read := zip_read e;
  extract_result := extract_result e; extract_lands := extract_lands e;
  size_text := size_text e; basename := basename e;
  glob_self := glob_self e; glob_elsewhere := glob_elsewhere e;
  abort_at := k
|}.

Definition with_remove_error (f : string -> option string) (e : Env)
    : Env := {|
  cfg := cfg e; pathsep := pathsep e;
  os_path_join := os_path_join e; dir_prefix := dir_prefix e; now := now e;
  makedirs_error := makedirs_error e; source_tree := source_tree e;
  zip_create_error := zip_create_error e;
  zip_write_error := zip_write_error e;
  zip_close_error := zip_close_error e;
  remove_error := f; zip_read := zip_read e;
  extract_result := extract_result e; extract_lands := extract_lands e;
  size_text := size_text e; basename := basename e;
  glob_self := glob_self e; glob_elsewhere := glob_elsewhere e;
  abort_at := abort_at e
|}.

Definition with_source (f : string -> option Node) (e : Env) : Env := {|
  cfg := cfg e; pathsep := pathsep e;
  os_path_join := os_path_join e; dir_prefix := dir_prefix e; now := now e;
  makedirs_error := makedirs_error e; source_tree := f;
  zip_create_error := zip_create_error e;
  zip_write_error := zip_write_error e;
  zip_close_error := zip_close_error e;
  remove_error := remove_error e; zip_read := zip_read e;
  extract_result := extract_result e; extract_lands := extract_lands e;
  size_text := size_text e; basename := basename e;
  glob_self := glob_self e; glob_elsewhere := glob_elsewhere e;
  abort_at := abort_at e
|}.

Definition with_archive (f : string -> string + list string) (e : Env)
    : Env := {|
  cfg := cfg e; pathsep := pathsep e;
  os_path_join := os_path_join e; dir_prefix := dir_prefix e; now := now e;
  makedirs_error := makedirs_error e; source_tree := source_tree e;
  zip_create_error := zip_create_error e;
  zip_write_error := zip_write_error e;
  zip_close_error := zip_close_error e;
  remove_error := remove_error e; zip_read := f;
  extract_result := extract_result e; extract_lands := extract_lands e;
  size_text := size_text e; basename := basename e;
  glob_self := glob_self e; glob_elsewhere := glob_elsewhere e;
  abort_at := abort_at e
|}.

Definition with_close_error (e0 : option string) (e : Env) : Env := {|
  cfg := cfg e; pathsep := pathsep e;
  os_path_join := os_path_join e; dir_prefix := dir_prefix e; now := now e;
  makedirs_error := makedirs_error e; source_tree := source_tree e;
  zip_create_error := zip_create_error e;
  zip_write_error := zip_write_error e;
  zip_close_error := e0;
  remove_error := remove_error e; zip_read := zip_read e;
  extract_result := extract_result e; extract_lands := extract_lands e;
  size_text := size_text e; basename := basename e;
  glob_self := glob_self e; glob_elsewhere := glob_elsewhere e;
  abort_at := abort_at e
|}.

Definition with_create_error (e0 : option string) (e : Env) : Env := {|
  cfg := cfg e; pathsep := pathsep e;
  os_path_join := os_path_join e; dir_prefix := dir_prefix e; now := now e;
  makedirs_error := makedirs_error e; source_tree := source_tree e;
  zip_create_error := e0;
  zip_write_error := zip_write_error e;
  zip_close_error := zip_close_error e;
  remove_error := remove_error e; zip_read := zip_read e;
  extract_result := extract_result e; extract_lands := extract_lands e;
  size_text := size_text e; basename := basename e;
  glob_self := glob_self e; glob_elsewhere := glob_elsewhere e;
  abort_at := abort_at e
|}.

(** The installation after the settings were saved with an empty storage
    path. *)
Definition unconfigured (e : Env) : Env := {|
  cfg := {|
    Config.config := {|
      Config.drive_path := Some "";
      Config.target_folders := Config.target_folders (Config.config (cfg e));
      Config.retention_count :=
        Config.retention_count (Config.config (cfg e));
      Config.compression_level :=
        Config.compression_level (Config.config (cfg e));
      Config.ignore_patterns :=
        Config.ignore_patterns (Config.config (cfg e));
      Config.scheduled_times :=
        Config.scheduled_times (Config.config (cfg e))
    |};
    Config.current_user := Config.current_user (cfg e);
    Config.hostname := Config.hostname (cfg e);
    Config.base_user_path := Config.base_user_path (cfg e);
    Config.file_prefix := Config.file_prefix (cfg e)
  |};
  pathsep := pathsep e;
  os_path_join := os_path_join e; dir_prefix := dir_prefix e; now := now e;
  makedirs_error := makedirs_error e; source_tree := source_tree e;
  zip_create_error := zip_create_error e;
  zip_write_error := zip_write_error e;
  zip_close_error := zip_close_error e;
  remove_error := remove_error e; zip_read := zip_read e;
  extract_result := extract_result e; extract_lands := extract_lands e;
  size_text := size_text e; basename := basename e;
  glob_self := glob_self e; glob_elsewhere := glob_elsewhere e;
  abort_at := abort_at e
|}.

(** The installation with other target folders. *)
Definition with_folders (folders : list string) (e : Env) : Env := {|
  cfg := {|
    Config.config := {|
      Config.drive_path := Config.drive_path (Config.config (cfg e));
      Config.target_folders := Some folders;
      Config.retention_count :=
        Config.retention_count (Config.config (cfg e));
      Config.compression_level :=
        Config.compression_level (Config.config (cfg e));
      Config.ignore_patterns :=
        Config.ignore_patterns (Config.config (cfg e));
      Config.scheduled_times :=
        Config.scheduled_times (Config.config (cfg e))
    |};
    Config.current_user := Config.current_user (cfg e);
    Config.hostname := Config.hostname (cfg e);
    Config.base_user_path := Config.base_user_path (cfg e);
    Config.file_prefix := Config.file_prefix (cfg e)
  |};
  pathsep := pathsep e;
  os_path_join := os_path_join e; dir_prefix := dir_prefix e; now := now e;
  makedirs_error := makedirs_error e; source_tree := source_tree e;
  zip_create_error := zip_create_error e;
  zip_write_error := zip_write_error e;
  zip_close_error := zip_close_error e;
  remove_error := remove_error e; zip_read := zip_read e;
  extract_result := extract_result e; extract_lands := extract_lands e;
  size_text := size_text e; basename := basename e;
  glob_self := glob_self e; glob_elsewhere := glob_elsewhere e;
  abort_at := abort_at e
|}.

(** The installation with another storage path and retention count, and
    with what [glob] does with that path when it holds metacharacters. *)
Definition with_drive (path : string) (count : Z) (self_match : bool)
    (elsewhere : list string) (e : Env) : Env := {|
  cfg := {|
    Config.config := {|
      Config.drive_path := Some path;
      Config.target_folders := Config.target_folders (Config.config (cfg e));
      Config.retention_count := Some count;
      Config.compression_level :=
        Config.compression_level (Config.config (cfg e));
      Config.ignore_patterns :=
        Config.ignore_patterns (Config.config (cfg e));
      Config.scheduled_times :=
        Config.scheduled_times (Config.config (cfg e))
    |};
    Config.current_user := Config.current_user (cfg e);
    Config.hostname := Config.hostname (cfg e);
    Config.base_user_path := Config.base_user_path (cfg e);
    Config.file_prefix := Config.file_prefix (cfg e)
  |};
  pathsep := pathsep e;
  os_path_join := os_path_join e; dir_prefix := dir_prefix e; now := now e;
  makedirs_error := makedirs_error e; source_tree := source_tree e;
  zip_create_error := zip_create_error e;
  zip_write_error := zip_write_error e;
  zip_close_error := zip_close_error e;
  remove_error := remove_error e; zip_read := zip_read e;
  extract_result := extract_result e; extract_lands := extract_lands e;
  size_text := size_text e; basename := basename e;
  glob_self := self_match; glob_elsewhere := fun _ => elsewhere;
  abort_at := abort_at e
|}.

(** A fresh instance attached to an empty queue, and a storage root that
    holds three archives of this host and a stray file. *)
Definition start : State := {|
  self := init (Some []);
  world := {|
    storage := Some ["Antigravity_Backup_alpha_20250101_080000.zip";
                     "Antigravity_Backup_alpha_20250301_080000.zip";
                     "notes.txt";
                     "Antigravity_Backup_alpha_20250201_080000.zip"];
    stdout := [];
    actions := []
  |}
|}.

(** The instance of a background run: no queue. *)
Definition background : State := {|
  self := init None;
  world := world start
|}.

Definition backup := run_backup glob_match env.
Definition restore := run_restore glob_match posix_isabs env.

Example glob_match_star :
  glob_match "Antigravity_Backup_alpha_20250101_080000.zip"
             "Antigravity_Backup_*.zip" = true.
Proof. reflexivity. Qed.

Example glob_match_other : glob_match "notes.txt" "Antigravity_Backup_*.zip" = false.
Proof. reflexivity. Qed.

Example files_to_zip_example :
  files_to_zip glob_match env =
  [("/home/ana/.gemini/settings.json", ".gemini/settings.json");
   ("/home/ana/.gemini/chats/a.md", ".gemini/chats/a.md");
   ("/home/ana/.gemini/chats/b.md", ".gemini/chats/b.md")].
Proof. reflexivity. Qed.

Example should_ignore_nested :
  fst (should_ignore glob_match env ".gemini\cache/upload.tmp" start) = true.
Proof. reflexivity. Qed.

Example should_ignore_git_at_depth :
  fst (should_ignore glob_match env "project/.git/config" start) = true.
Proof. reflexivity. Qed.

Example should_ignore_plain :
  fst (should_ignore glob_match env ".gemini/settings.json" start) = false.
Proof. reflexivity. Qed.

Example final_zip_name_example :
  final_zip_name env = "Antigravity_Backup_alpha_20250309_120000.zip".
Proof. reflexivity. Qed.

End Example.

(* ================================================================== *)
(** * Restore *)
(* ================================================================== *)

Module Restore.

Import Engine Frame Exact.
Open Scope monad_scope.

(** The first segment of [member] is [..]. *)
Definition leading_dotdot (member : string) : Prop :=
  exists post,
    member = ".." ++ post /\
    (post = "" \/ PathFilter.starts_with_sep post).

Lemma traversal_guard_true isabs member :
  leading_dotdot member \/ isabs member = true ->
  traversal_guard isabs member = true.
Proof.
  unfold traversal_guard. intros [(post & -> & _)|H].
  - now rewrite PyStr.startswith_app.
  - rewrite H. apply orb_true_r.
Qed.

Lemma ensure_drive_present env st :
  Config.get_drive_path (cfg env) <> "" ->
  storage (world st) <> None ->
  ensure_drive env st = (true, st).
Proof.
  intros Hd Hs. unfold ensure_drive.
  destruct (String.eqb _ "") eqn:E; [apply String.eqb_eq in E; contradiction|].
  destruct (storage (world st)); [reflexivity | contradiction].
Qed.

(** The first pass never raises: the member count it divides by is zero
    only when there is no member to visit. *)
Lemma analysis_loop_eq total file_list :
  (file_list <> [] -> total <> 0%nat) ->
  forall i st,
  exists evs,
    analysis_loop total i file_list st = (Completed, emit evs st) /\
    Forall (fun e => exists v, e = EvProgress v "Analyzing...") evs /\
    length evs = length file_list.
Proof.
  induction file_list as [|f rest IH]; intros Ht i st; simpl.
  - exists []. rewrite emit_nil. repeat split. constructor.
  - assert (Hz : total <> 0%nat) by (apply Ht; discriminate).
    rewrite (py_truediv_some _ _ Hz).
    rewrite (bind_eq _ _ _ _ _ (progress_eq _ _ _)).
    destruct (IH (fun _ => Hz) (S i) (emit [EvProgress
      (Qmult (Qmake (Z.of_nat i) (Pos.of_nat total)) (1 # 10))
      "Analyzing..."] st)) as (evs & E & F & L).
    eexists. rewrite E, emit_app. split; [reflexivity|]. split.
    + constructor; [now eexists | exact F].
    + simpl. now rewrite L.
Qed.

(** C1. A member whose path begins with a [..] segment or is absolute for
    the platform is passed over by the extraction loop with no event and
    no I/O call, and no run of [run_restore] issues an extraction of it. *)
Theorem restore_skips_traversal
    (fnmatch : string -> string -> bool) (isabs : string -> bool)
    (env : Env) (member : string) :
  leading_dotdot member \/ isabs member = true ->
  (forall total idx rest st,
      stop_requested
        (self (snd (interface_thread (abort_at env) idx st))) = false ->
      extract_loop fnmatch isabs env total idx (member :: rest) st =
      extract_loop fnmatch isabs env total (S idx) rest
                   (snd (interface_thread (abort_at env) idx st))) /\
  (forall st, exists acts,
      actions (world (snd (run_restore fnmatch isabs env st))) =
      (actions (world st) ++ acts)%list /\
      forall dest, ~ In (Extract member dest) acts).
Proof.
  intros Hm. pose proof (traversal_guard_true isabs member Hm) as Hg.
  split.
  - intros total idx rest st Hstop. simpl. unfold bind at 1.
    destruct (interface_thread (abort_at env) idx st) as [u st1].
    simpl in *. now rewrite Hstop, Hg.
  - intros st.
    destruct (Methods.respects_run_restore fnmatch isabs env
                (fun _ => True)
                (fun a => forall dest, a <> Extract member dest)) with (st := st)
      as (_ & (acts & Ha & Fa) & _).
    + trivial.
    + intros a Ha dest ->. discriminate.
    + intros file dest Hf _ dest' E. injection E as -> _. congruence.
    + exists acts. split; [exact Ha|].
      intros dest Hin. rewrite Forall_forall in Fa.
      now apply (Fa _ Hin dest).
Qed.

Lemma restore_skips_traversal_witness :
  leading_dotdot "../../evil.txt" /\
  exists acts,
    actions (world (snd (Example.restore Example.start))) =
    (actions (world Example.start) ++ acts)%list /\
    forall dest, ~ In (Extract "../../evil.txt" dest) acts.
Proof.
  assert (H : leading_dotdot "../../evil.txt").
  { exists "/../evil.txt". split; [reflexivity|].
    right. exists "/"%char, "../evil.txt". split; reflexivity. }
  split; [exact H|].
  apply (restore_skips_traversal
           Example.glob_match Example.posix_isabs Example.env
           "../../evil.txt" (or_introl H)).
Defined.

(** The same for the absolute member of the example archive. *)
Example restore_example_actions :
  actions (world (snd (Example.restore Example.start))) =
  [ZipRead
     "/mnt/drive/AntigravitySync/Antigravity_Backup_alpha_20250301_080000.zip";
   Extract ".gemini/settings.json" "/home/ana"].
Proof. reflexivity. Qed.

(** The events of a restore from an archive without members. *)
Definition empty_restore_events (filename : string) : list Event :=
  [EvLog "--- Starting RESTORE ---";
   EvLog ("Found latest backup: " ++ filename);
   EvLog "Analyzing archive...";
   EvLog ("[SUCCESS] Restore completed from " ++ filename);
   EvFinish true "Restore Complete"].

(** A storage path without glob metacharacters is searched in the storage
    root only: a match shows that the root exists. *)
Lemma glob_storage_present fnmatch env st x l :
  (has_magic (Config.get_drive_path (cfg env)) = true ->
   storage (world st) <> None) ->
  PySort.sort_desc (fst (glob_backups fnmatch env st)) = x :: l ->
  storage (world st) <> None.
Proof.
  intros Hm H E. unfold glob_backups in H. cbn [fst] in H.
  destruct (has_magic _); [now apply Hm|].
  rewrite E in H. discriminate.
Qed.

(** C10, as the code behaves. When the selected archive has no member both
    loops of [run_restore] run zero times, no division is evaluated and the
    run reports success; and for any member list the first pass completes
    without raising, the count it divides by being non-zero whenever it is
    evaluated. The archive is selected by its path, [latest_backup]; the
    storage root exists, which a match of the pattern shows by itself
    unless the storage path has glob metacharacters. *)
Theorem restore_empty_archive
    (fnmatch : string -> string -> bool) (isabs : string -> bool)
    (env : Env) (st : State) (latest_backup : string)
    (older : list string) :
  Config.get_drive_path (cfg env) <> "" ->
  (has_magic (Config.get_drive_path (cfg env)) = true ->
   storage (world st) <> None) ->
  PySort.sort_desc (fst (glob_backups fnmatch env st))
    = latest_backup :: older ->
  zip_read env latest_backup = inr [] ->
  run_restore fnmatch isabs env st =
    (RNone,
     emit (empty_restore_events (basename env latest_backup))
          (perform [ZipRead latest_backup] st)) /\
  (forall file_list st0,
      fst (analysis_loop (length file_list) 0 file_list st0) = Completed).
Proof.
  intros Hd Hm Hg Hz.
  pose proof (glob_storage_present _ _ _ _ _ Hm Hg) as Hs. split.
  - unfold run_restore.
    rewrite (bind_eq _ _ _ _ _ (log_eq _ _)).
    rewrite (bind_eq _ _ _ _ _
               (ensure_drive_present env
                  (emit [EvLog "--- Starting RESTORE ---"] st) Hd Hs)).
    cbn [negb].
    erewrite bind_eq by reflexivity.
    change (fst (glob_backups fnmatch env st)) with
      (fst (glob_backups fnmatch env
              (emit [EvLog "--- Starting RESTORE ---"] st))) in Hg.
    unfold glob_backups in Hg at 1. cbn [fst] in Hg. rewrite Hg.
    rewrite (bind_eq _ _ _ _ _ (log_eq _ _)).
    rewrite (bind_eq _ _ _ _ _ (log_eq _ _)).
    rewrite (bind_eq _ _ _ _ _ (act_eq _ _)).
    rewrite Hz. unfold restore_archive.
    cbn [length analysis_loop extract_loop].
    unfold bind at 1. cbn [ret].
    unfold bind at 1. cbn [ret].
    rewrite (bind_eq _ _ _ _ _ (log_eq _ _)).
    rewrite (bind_eq _ _ _ _ _ (finish_eq _ _ _)).
    unfold ret. f_equal.
    rewrite !emit_perform, !emit_app. reflexivity.
  - intros file_list st0.
    destruct (analysis_loop_eq (length file_list) file_list) with
      (i := 0%nat) (st := st0) as (evs & E & _).
    + intros Hne Hl. apply length_zero_iff_nil in Hl. contradiction.
    + now rewrite E.
Qed.

Lemma restore_empty_archive_witness :
  fst (run_restore Example.glob_match Example.posix_isabs
         (Example.with_archive (fun _ => inr []) Example.env)
         Example.start) = RNone.
Proof.
  destruct (restore_empty_archive
              Example.glob_match Example.posix_isabs
              (Example.with_archive (fun _ => inr []) Example.env)
              Example.start
              "/mnt/drive/AntigravitySync/Antigravity_Backup_alpha_20250301_080000.zip"
              ["/mnt/drive/AntigravitySync/Antigravity_Backup_alpha_20250201_080000.zip";
               "/mnt/drive/AntigravitySync/Antigravity_Backup_alpha_20250101_080000.zip"])
    as [E _].
  - discriminate.
  - discriminate.
  - reflexivity.
  - reflexivity.
  - rewrite E. reflexivity.
Defined.

(** C10 as claimed fails: with an archive without members the run puts
    [finish(True, "Restore Complete")] on the queue, and no failure. *)
Lemma restore_empty_archive_counterexample :
  zip_read (Example.with_archive (fun _ => inr []) Example.env)
    "/mnt/drive/AntigravitySync/Antigravity_Backup_alpha_20250301_080000.zip"
    = inr [] /\
  events (snd (run_restore Example.glob_match Example.posix_isabs
                 (Example.with_archive (fun _ => inr []) Example.env)
                 Example.start)) =
  [EvLog "--- Starting RESTORE ---";
   EvLog "Found latest backup: Antigravity_Backup_alpha_20250301_080000.zip";
   EvLog "Analyzing archive...";
   EvLog "[SUCCESS] Restore completed from Antigravity_Backup_alpha_20250301_080000.zip";
   EvFinish true "Restore Complete"].
Proof. split; reflexivity. Qed.

End Restore.

(* ================================================================== *)
(** * Archive catalog: order of the names, retention *)
(* ================================================================== *)

Module Catalog.

Import Engine Frame Exact.
Open Scope monad_scope.

(** ** Order of the archive names *)

Lemma ts_compare_refl t : Naming.ts_compare t t = Eq.
Proof. unfold Naming.ts_compare. now rewrite !Nat.compare_refl. Qed.

(** X28. The archives of one host. For timestamps in the range of
    [datetime] and one host name (and prefix), sorting the archive names in
    descending order lists the archives in descending chronological order,
    so the first name of the sorted list belongs to a newest backup of that
    host. *)
Theorem archive_order_one_host
    (file_prefix hostname : string) (stamps : list Naming.Timestamp) :
  Forall (fun t => Naming.valid t = true) stamps ->
  let name := Naming.archive_name file_prefix hostname in
  exists sorted,
    Permutation sorted stamps /\
    PySort.sort_desc (map name stamps) = map name sorted /\
    StronglySorted (PySort.ge_by Naming.ts_compare) sorted /\
    (forall latest,
        hd_error (PySort.sort_desc (map name stamps)) = Some latest ->
        exists t, In t stamps /\ latest = name t /\
                  forall t', In t' stamps -> Naming.ts_compare t t' <> Lt).
Proof.
  intros Hv name. rewrite Forall_forall in Hv.
  set (sorted := PySort.sort_desc_by Naming.ts_compare stamps).
  assert (Hperm : Permutation sorted stamps)
    by (symmetry; apply PySort.sort_desc_by_perm).
  assert (Hcmp : forall x y, In x stamps -> In y stamps ->
            String.compare (name x) (name y) = Naming.ts_compare x y)
    by (intros; apply Naming.archive_name_compare; auto).
  assert (Heq : PySort.sort_desc (map name stamps) = map name sorted)
    by (apply PySort.sort_desc_by_map; exact Hcmp).
  assert (Hsorted : StronglySorted (PySort.ge_by Naming.ts_compare) sorted).
  { apply (PySort.sorted_map_inv _ String.compare name).
    - intros x y Hx Hy.
      apply Hcmp; eapply Permutation_in; eauto.
    - rewrite <- Heq. apply PySort.sort_desc_sorted. }
  exists sorted. repeat split; try assumption.
  intros latest Hl. rewrite Heq in Hl.
  destruct sorted as [|t rest] eqn:Es; [discriminate|].
  simpl in Hl. injection Hl as <-.
  exists t. split; [eapply Permutation_in; [exact Hperm | now left]|].
  split; [reflexivity|].
  intros t' Ht'.
  apply (Permutation_in _ (Permutation_sym Hperm)) in Ht'.
  destruct Ht' as [<-|Hin].
  - rewrite ts_compare_refl. discriminate.
  - inversion Hsorted as [|? ? _ Hall]; subst.
    rewrite Forall_forall in Hall. now apply Hall.
Qed.

Definition stamp (y mo d h mi s : nat) : Naming.Timestamp :=
  {| Naming.year := y; Naming.month := mo; Naming.day := d;
     Naming.hour := h; Naming.minute := mi; Naming.second := s |}.

Lemma archive_order_one_host_witness :
  PySort.sort_desc
    (map (Naming.archive_name "Antigravity_Backup" "alpha")
         [stamp 2025 1 31 23 59 59; stamp 2025 2 1 0 0 0;
          stamp 2024 12 31 8 30 0]) =
  ["Antigravity_Backup_alpha_20250201_000000.zip";
   "Antigravity_Backup_alpha_20250131_235959.zip";
   "Antigravity_Backup_alpha_20241231_083000.zip"].
Proof.
  destruct (archive_order_one_host "Antigravity_Backup" "alpha"
              [stamp 2025 1 31 23 59 59; stamp 2025 2 1 0 0 0;
               stamp 2024 12 31 8 30 0]) as (sorted & _ & E & _).
  - repeat constructor.
  - reflexivity.
Defined.

(** Names of two hosts: the name of the older archive of host [beta]
    sorts before the newer archive of host [alpha], the host name being
    compared before the timestamp. *)
Example archive_order_two_hosts :
  Naming.valid (stamp 2024 1 1 0 0 0) = true /\
  Naming.valid (stamp 2025 1 1 0 0 0) = true /\
  Naming.ts_compare (stamp 2024 1 1 0 0 0) (stamp 2025 1 1 0 0 0) = Lt /\
  PySort.sort_desc
    [Naming.archive_name "Antigravity_Backup" "alpha" (stamp 2025 1 1 0 0 0);
     Naming.archive_name "Antigravity_Backup" "beta" (stamp 2024 1 1 0 0 0)]
  = ["Antigravity_Backup_beta_20240101_000000.zip";
     "Antigravity_Backup_alpha_20250101_000000.zip"].
Proof. repeat split. Qed.

(** A storage root shared by two machines: it holds an archive written by
    host [beta] in 2024 and one written by host [alpha] in 2025. *)
Definition shared_root : State := {|
  self := init (Some []);
  world := {|
    storage := Some ["Antigravity_Backup_alpha_20250101_000000.zip";
                     "Antigravity_Backup_beta_20240101_000000.zip"];
    stdout := [];
    actions := []
  |}
|}.

(** The same with two archives of host [beta], both of 2024. *)
Definition other_host_root : State := {|
  self := init (Some []);
  world := {|
    storage := Some ["Antigravity_Backup_beta_20240101_000000.zip";
                     "Antigravity_Backup_beta_20240201_000000.zip"];
    stdout := [];
    actions := []
  |}
|}.

(** C3, the code at the failing input. With the archives of two hosts in
    the storage root, [run_restore] on host [alpha] takes [files[0]] of the
    descending list for the latest backup: it announces and opens the 2024
    archive of host [beta], not the 2025 archive. And a backup of host
    [alpha] of March 2025, with a retention count of 2 and two archives of
    host [beta] of 2024 in the storage root, removes in its own pruning the
    archive it has just written, the newest of the three. *)
Theorem two_hosts_latest_is_older :
  firstn 3 (events (snd (Example.restore shared_root))) =
    [EvLog "--- Starting RESTORE ---";
     EvLog "Found latest backup: Antigravity_Backup_beta_20240101_000000.zip";
     EvLog "Analyzing archive..."] /\
  hd_error (actions (world (snd (Example.restore shared_root)))) =
    Some (ZipRead
      "/mnt/drive/AntigravitySync/Antigravity_Backup_beta_20240101_000000.zip")
  /\
  Config.get_retention_count (cfg Example.env) = 2%Z /\
  fst (Example.backup false other_host_root) = RBool true /\
  last (actions (world (snd (Example.backup false other_host_root))))
       (Makedirs "") =
    Remove
      "/mnt/drive/AntigravitySync/Antigravity_Backup_alpha_20250309_120000.zip"
  /\
  listing (snd (Example.backup false other_host_root)) =
    ["Antigravity_Backup_beta_20240101_000000.zip";
     "Antigravity_Backup_beta_20240201_000000.zip"].
Proof.
  split; [reflexivity|]. split; [reflexivity|]. split; [reflexivity|].
  split; [reflexivity|]. split; reflexivity.
Qed.

(** ** Retention *)

Definition removed_ok (env : Env) (f : string) : bool :=
  match remove_error env f with None => true | Some _ => false end.

(** The storage root after the removals of the paths [files]. *)
Fixpoint prune (env : Env) (files names : list string) : list string :=
  match files with
  | [] => names
  | f :: rest =>
      prune env rest
            (if removed_ok env f then without env f names else names)
  end.

Definition delete_event (env : Env) (f : string) : Event :=
  match remove_error env f with
  | None => EvLog ("Deleted old backup: " ++ basename env f)
  | Some e => EvLog ("Failed to delete " ++ basename env f ++ ": " ++ e)
  end.

Lemma delete_backups_eq env files :
  forall st,
    delete_backups env files st =
    (tt,
     emit (map (delete_event env) files)
          (set_storage (option_map (prune env files) (storage (world st)))
                       (perform (map Remove files) st))).
Proof.
  induction files as [|f rest IH]; intros st.
  - destruct st as [[q b] [[s|] o a]]; destruct q; simpl;
      unfold ret, emit, perform, set_storage; simpl;
      now rewrite ?app_nil_r.
  - cbn [delete_backups]. unfold bind at 1, delete_backup, bind at 1.
    unfold os_remove, bind at 1. rewrite act_eq.
    unfold delete_event at 1, removed_ok.
    cbn [prune map]. unfold removed_ok.
    destruct (remove_error env f) as [e|].
    + unfold ret at 1. rewrite log_eq, IH.
      destruct st as [[q b] [[s|] o a]]; destruct q; simpl;
        unfold emit, perform, set_storage; simpl;
        now rewrite <- ?app_assoc.
    + rewrite log_eq, IH.
      destruct st as [[q b] [[s|] o a]]; destruct q; simpl;
        unfold emit, perform, set_storage; simpl;
        now rewrite <- ?app_assoc.
Qed.

(** The paths [cleanup_old_backups] removes. *)
Definition files_to_delete (fnmatch : string -> string -> bool)
    (env : Env) (st : State) : list string :=
  let files := PySort.sort_desc (fst (glob_backups fnmatch env st)) in
  let count := Config.get_retention_count (cfg env) in
  if (Z.of_nat (length files) >? count)%Z then slice_from files count
  else [].

Lemma cleanup_old_backups_eq fnmatch env st :
  let del := files_to_delete fnmatch env st in
  cleanup_old_backups fnmatch env st =
  (tt,
   emit (EvLog ("Cleaning up logic (Keep last " ++
                PyStr.of_Z (Config.get_retention_count (cfg env)) ++
                ")...") :: map (delete_event env) del)
        (set_storage (option_map (prune env del) (storage (world st)))
                     (perform (map Remove del) st))).
Proof.
  intros del. unfold cleanup_old_backups.
  rewrite (bind_eq _ _ _ _ _ (log_eq _ _)).
  erewrite bind_eq by reflexivity.
  subst del. unfold files_to_delete.
  change (fst (glob_backups fnmatch env st)) with
    (fst (glob_backups fnmatch env
            (emit [EvLog ("Cleaning up logic (Keep last " ++
                PyStr.of_Z (Config.get_retention_count (cfg env)) ++
                ")...")] st))).
  destruct (_ >? _)%Z.
  - rewrite delete_backups_eq.
    destruct st as [[q b] [[s|] o a]]; destruct q; simpl;
      unfold emit, perform, set_storage; simpl;
      now rewrite <- ?app_assoc.
  - destruct st as [[q b] [[s|] o a]]; destruct q; simpl;
      unfold ret, emit, perform, set_storage; simpl;
      now rewrite ?app_nil_r.
Qed.

Lemma append_inj_l a x y : a ++ x = a ++ y -> x = y.
Proof.
  induction a as [|c a IH]; cbn; intros E; [exact E|].
  injection E as E. now apply IH.
Qed.

Lemma root_path_inj env n m : root_path env n = root_path env m -> n = m.
Proof.
  unfold root_path, path_join. intros E.
  now apply append_inj_l in E.
Qed.

Lemma without_In env path names n :
  In n (without env path names) <-> In n names /\ root_path env n <> path.
Proof.
  unfold without. now rewrite filter_In, negb_true_iff, String.eqb_neq.
Qed.

Lemma prune_In env files :
  forall names n,
    In n (prune env files names) <->
    In n names /\
    ~ (In (root_path env n) files /\
       remove_error env (root_path env n) = None).
Proof.
  induction files as [|f rest IH]; intros names n; simpl.
  - tauto.
  - rewrite IH. unfold removed_ok.
    destruct (remove_error env f) as [e|] eqn:Ef.
    + split.
      * intros [Hn Hr]. split; [exact Hn|].
        intros [[<-|Hin] Hok]; [congruence | apply Hr; now split].
      * intros [Hn Hr]. split; [exact Hn|].
        intros [Hin Hok]. apply Hr. split; [now right | exact Hok].
    + rewrite without_In. split.
      * intros [[Hn Hne] Hr]. split; [exact Hn|].
        intros [[E|Hin] Hok]; [now apply Hne | apply Hr; now split].
      * intros [Hn Hr]. split; [split; [exact Hn|]|].
        -- intros E. apply Hr. split; [now left | now rewrite E].
        -- intros [Hin Hok]. apply Hr. split; [now right | exact Hok].
Qed.

Lemma prune_NoDup env files :
  forall names, NoDup names -> NoDup (prune env files names).
Proof.
  induction files as [|f rest IH]; intros names Hn; simpl; [exact Hn|].
  apply IH. destruct (removed_ok env f); [now apply NoDup_filter | exact Hn].
Qed.

Lemma NoDup_app_disjoint {A : Type} (l1 l2 : list A) x :
  NoDup (l1 ++ l2) -> In x l1 -> In x l2 -> False.
Proof.
  induction l1 as [|y l1 IH]; simpl; intros Hn H1 H2; [contradiction|].
  inversion Hn as [|? ? Hy Hn']; subst.
  destruct H1 as [->|H1].
  - apply Hy. apply in_or_app. now right.
  - now apply IH.
Qed.

Lemma listing_after_cleanup fnmatch env st :
  listing (snd (cleanup_old_backups fnmatch env st)) =
  prune env (files_to_delete fnmatch env st) (listing st).
Proof.
  rewrite cleanup_old_backups_eq. unfold listing. simpl.
  destruct (storage (world st)); simpl; [reflexivity|].
  induction (files_to_delete fnmatch env st) as [|f rest IH]; simpl;
    [reflexivity|].
  now destruct (removed_ok env f).
Qed.

Lemma files_to_delete_skipn fnmatch env st :
  (0 <= Config.get_retention_count (cfg env))%Z ->
  files_to_delete fnmatch env st =
  skipn (Z.to_nat (Config.get_retention_count (cfg env)))
        (PySort.sort_desc (fst (glob_backups fnmatch env st))).
Proof.
  intros HR. unfold files_to_delete, slice_from.
  set (files := PySort.sort_desc _).
  destruct (Z.of_nat (length files) >? _)%Z eqn:E.
  - destruct (_ <? 0)%Z eqn:E0; [lia | reflexivity].
  - symmetry. apply skipn_all2. lia.
Qed.

(** *** A storage path without glob metacharacters *)

(** The names of the storage root that the glob finds. *)
Definition archives (fnmatch : string -> string -> bool) (env : Env)
    (st : State) : list string :=
  filter (glob_finds fnmatch (Config.file_prefix (cfg env) ++ "_*.zip"))
         (listing st).

Lemma glob_plain fnmatch env st :
  has_magic (Config.get_drive_path (cfg env)) = false ->
  fst (glob_backups fnmatch env st) =
  map (root_path env) (archives fnmatch env st).
Proof.
  intros Hm. unfold glob_backups, archives, root_matches, listing.
  cbn [fst]. rewrite Hm. now destruct (storage (world st)).
Qed.

(** The paths of entries of the storage root are ordered like the
    names. *)
Lemma root_path_compare env n m :
  String.compare (root_path env n) (root_path env m) = String.compare n m.
Proof.
  unfold root_path, path_join. now rewrite PySort.compare_common_prefix.
Qed.

Lemma sort_root_paths env names :
  PySort.sort_desc (map (root_path env) names) =
  map (root_path env) (PySort.sort_desc names).
Proof.
  apply PySort.sort_desc_by_map. intros x y _ _. apply root_path_compare.
Qed.

Lemma In_root_path env n l :
  In (root_path env n) (map (root_path env) l) <-> In n l.
Proof.
  rewrite in_map_iff. split.
  - intros (m & E & Hm). apply root_path_inj in E. now subst.
  - intros H. now exists n.
Qed.

(** C2, as the code behaves, for a storage path without glob
    metacharacters and a retention count [R >= 0]. With [N] archives in
    the storage root (the entries that the glob finds),
    [cleanup_old_backups] calls [os.remove] on exactly the [max(0, N - R)]
    archives that follow the first [R] in descending order of the names,
    and logs the outcome of each call: each of them is smaller than each
    of the first [R], none of the first [R] leaves the storage root, an
    entry leaves it exactly when its removal was called and succeeded (a
    failed removal is logged and the pruning goes on), and when all
    removals succeed the storage root loses exactly [max(0, N - R)]
    entries. *)
Theorem prune_keeps_newest
    (fnmatch : string -> string -> bool) (env : Env) (st : State) :
  has_magic (Config.get_drive_path (cfg env)) = false ->
  NoDup (listing st) ->
  (0 <= Config.get_retention_count (cfg env))%Z ->
  let R := Config.get_retention_count (cfg env) in
  let names := PySort.sort_desc (archives fnmatch env st) in
  let keep := firstn (Z.to_nat R) names in
  let del := skipn (Z.to_nat R) names in
  let st' := snd (cleanup_old_backups fnmatch env st) in
  actions (world st') =
    (actions (world st) ++ map (fun n => Remove (root_path env n)) del)%list
  /\
  queue (self st') =
    option_map
      (fun q =>
         (q ++
          EvLog ("Cleaning up logic (Keep last " ++ PyStr.of_Z R ++ ")...")
          :: map (fun n => delete_event env (root_path env n)) del)%list)
      (queue (self st)) /\
  Z.of_nat (length del) = Z.max 0 (Z.of_nat (length names) - R) /\
  (forall k d, In k keep -> In d del -> String.compare d k = Lt) /\
  (forall k, In k keep -> In k (listing st')) /\
  (forall n, In n (listing st') <->
             In n (listing st) /\
             ~ (In n del /\ remove_error env (root_path env n) = None)) /\
  ((forall d, In d del -> remove_error env (root_path env d) = None) ->
   (length (listing st') + length del)%nat = length (listing st)).
Proof.
  intros Hm Hnd HR R names keep del st'.
  assert (Hfiles : PySort.sort_desc (fst (glob_backups fnmatch env st)) =
                   map (root_path env) names)
    by (rewrite (glob_plain fnmatch env st Hm); apply sort_root_paths).
  assert (Hdel : files_to_delete fnmatch env st = map (root_path env) del).
  { rewrite files_to_delete_skipn by exact HR.
    rewrite Hfiles. apply skipn_map. }
  assert (Hnames_in : forall n, In n names -> In n (listing st)).
  { intros n Hn. apply PySort.sort_desc_by_In in Hn.
    unfold archives in Hn. now apply filter_In in Hn. }
  assert (Hnames_nd : NoDup names).
  { eapply Permutation_NoDup; [apply PySort.sort_desc_by_perm|].
    unfold archives. now apply NoDup_filter. }
  assert (Hsplit : (keep ++ del)%list = names) by apply firstn_skipn.
  assert (Hdisj : forall x, In x keep -> In x del -> False).
  { intros x. apply NoDup_app_disjoint. now rewrite Hsplit. }
  assert (Hlist : listing st' =
                  prune env (map (root_path env) del) (listing st))
    by (subst st'; now rewrite listing_after_cleanup, Hdel).
  assert (Hchar : forall n, In n (listing st') <->
             In n (listing st) /\
             ~ (In n del /\ remove_error env (root_path env n) = None)).
  { intros n. rewrite Hlist, prune_In, In_root_path. reflexivity. }
  split; [|split; [|split; [|split; [|split; [|split]]]]].
  - subst st'. rewrite cleanup_old_backups_eq, Hdel.
    cbn [snd perform set_storage emit world actions]. now rewrite map_map.
  - subst st'. rewrite cleanup_old_backups_eq, Hdel.
    cbn [snd perform set_storage emit self queue]. now rewrite map_map.
  - subst del. rewrite length_skipn. lia.
  - intros k d Hk Hd.
    pose proof (PySort.sorted_split_ge String.compare (Z.to_nat R) names
                  k d (PySort.sort_desc_sorted _) Hk Hd) as Hge.
    unfold PySort.ge_by in Hge.
    rewrite String.compare_antisym.
    destruct (String.compare k d) eqn:E; [|contradiction|reflexivity].
    apply String.compare_eq_iff in E. subst. now elim (Hdisj d).
  - intros k Hk. apply Hchar. split.
    + apply Hnames_in. now apply (PySort.In_firstn_In k (Z.to_nat R)).
    + intros [Hd _]. now apply (Hdisj k).
  - exact Hchar.
  - intros Hok.
    rewrite <- length_app. apply Permutation_length.
    apply NoDup_Permutation.
    + apply NoDup_app.
      * rewrite Hlist. now apply prune_NoDup.
      * rewrite <- Hsplit in Hnames_nd.
        now apply NoDup_app_remove_l in Hnames_nd.
      * intros n Hn Hd. apply Hchar in Hn as [_ Hn]. apply Hn. auto.
    + exact Hnd.
    + intros n. rewrite in_app_iff, Hchar. split.
      * intros [[Hn _]|Hd]; [exact Hn|].
        apply Hnames_in. now apply (PySort.In_skipn_In n (Z.to_nat R)).
      * intros Hn.
        destruct (in_dec string_dec n del) as [Hd|Hd]; [now right|].
        left. split; [exact Hn | tauto].
Qed.

Lemma prune_keeps_newest_witness :
  listing (snd (cleanup_old_backups Example.glob_match Example.env
                  Example.start)) =
  ["Antigravity_Backup_alpha_20250301_080000.zip"; "notes.txt";
   "Antigravity_Backup_alpha_20250201_080000.zip"] /\
  (forall k,
      In k ["Antigravity_Backup_alpha_20250301_080000.zip";
            "Antigravity_Backup_alpha_20250201_080000.zip"] ->
      In k (listing (snd (cleanup_old_backups Example.glob_match
                            Example.env Example.start)))).
Proof.
  split; [reflexivity|].
  destruct (prune_keeps_newest Example.glob_match Example.env
              Example.start) as (_ & _ & _ & _ & H & _).
  - reflexivity.
  - simpl. repeat constructor; simpl; intuition discriminate.
  - vm_compute. discriminate.
  - exact H.
Defined.

(** The example installation on a storage root whose files cannot be
    removed. *)
Definition undeletable : Env :=
  Example.with_remove_error (fun _ => Some "Permission denied") Example.env.

(** C2 as claimed fails when a removal fails: with [N = 3] archives and
    [R = 2] the pruning calls [os.remove] on the oldest archive, the call
    raises, the failure is logged, and no archive is deleted, where the
    claim says [max(0, N - R) = 1]. *)
Lemma prune_keeps_newest_counterexample :
  PySort.sort_desc (archives Example.glob_match undeletable Example.start) =
    ["Antigravity_Backup_alpha_20250301_080000.zip";
     "Antigravity_Backup_alpha_20250201_080000.zip";
     "Antigravity_Backup_alpha_20250101_080000.zip"] /\
  Config.get_retention_count (cfg undeletable) = 2%Z /\
  actions (world (snd (cleanup_old_backups Example.glob_match undeletable
                         Example.start))) =
    [Remove
       "/mnt/drive/AntigravitySync/Antigravity_Backup_alpha_20250101_080000.zip"]
  /\
  events (snd (cleanup_old_backups Example.glob_match undeletable
                 Example.start)) =
    [EvLog "Cleaning up logic (Keep last 2)...";
     EvLog "Failed to delete Antigravity_Backup_alpha_20250101_080000.zip: Permission denied"]
  /\
  listing (snd (cleanup_old_backups Example.glob_match undeletable
                  Example.start)) = listing Example.start.
Proof. repeat split. Qed.

(** A storage path with a glob metacharacter, which the theorem leaves
    out: [glob.glob] takes [/mnt/drive/Sync[1]] for a pattern, which the
    directory of that name does not match, and finds none of its three
    archives; the pruning removes nothing. *)
Definition bracketed : Env :=
  Example.with_drive "/mnt/drive/Sync[1]" 2 false [] Example.env.

Example prune_bracketed_path :
  has_magic (Config.get_drive_path (cfg bracketed)) = true /\
  length (archives Example.glob_match bracketed Example.start) = 3%nat /\
  actions (world (snd (cleanup_old_backups Example.glob_match bracketed
                         Example.start))) = [] /\
  listing (snd (cleanup_old_backups Example.glob_match bracketed
                  Example.start)) = listing Example.start.
Proof. repeat split. Qed.

(** With a negative count (reachable only through a configuration file
    edited by hand, [save_config] clamping to 1..7) Python's slice counts
    from the end: [files[-1:]] is the last name alone. *)
Example slice_from_negative :
  slice_from ["c"; "b"; "a"] (-1) = ["a"].
Proof. reflexivity. Qed.

End Catalog.

(* ================================================================== *)
(** * Backup *)
(* ================================================================== *)

Module Backup.

Import Engine Frame Exact.
Open Scope monad_scope.

Ltac obs :=
  cbn [emit perform set_storage set_stop set_queue self world queue
       stop_requested storage actions stdout option_map fst snd].

Definition is_finish (e : Event) : Prop :=
  exists ok msg, e = EvFinish ok msg.

Lemma say_app b l1 l2 : (say b l1 ++ say b l2)%list = say b (l1 ++ l2)%list.
Proof. now destruct b. Qed.

(** ** The storage root *)

(** [ensure_drive] will succeed: the path is configured, and the directory
    exists or can be created. *)
Definition ensure_ok (env : Env) (st : State) : Prop :=
  Config.get_drive_path (cfg env) <> "" /\
  (storage (world st) <> None \/ makedirs_error env = None).

(** The state after a successful [ensure_drive]. *)
Definition drive_ready (env : Env) (st : State) : State :=
  match storage (world st) with
  | Some _ => st
  | None =>
      set_storage (Some [])
        (perform [Makedirs (Config.get_drive_path (cfg env))] st)
  end.

Lemma ensure_drive_ok env st :
  ensure_ok env st -> ensure_drive env st = (true, drive_ready env st).
Proof.
  intros [Hd Hs]. unfold ensure_drive, drive_ready.
  destruct (String.eqb _ "") eqn:E; [apply String.eqb_eq in E; contradiction|].
  destruct (storage (world st)) as [names|]; [reflexivity|].
  destruct Hs as [Hs|Hs]; [contradiction|].
  unfold bind. rewrite act_eq, Hs. reflexivity.
Qed.

Lemma ensure_drive_unset env st :
  Config.get_drive_path (cfg env) = "" ->
  ensure_drive env st =
  (false, emit [EvLog "ERROR: Drive path is not configured."] st).
Proof.
  intros Hd. unfold ensure_drive. rewrite Hd. cbn [String.eqb].
  now rewrite (bind_eq _ _ _ _ _ (log_eq _ _)).
Qed.

Lemma ensure_drive_failed env st e :
  Config.get_drive_path (cfg env) <> "" ->
  storage (world st) = None -> makedirs_error env = Some e ->
  ensure_drive env st =
  (false,
   emit [EvLog ("Could not create directory: " ++ e)]
        (perform [Makedirs (Config.get_drive_path (cfg env))] st)).
Proof.
  intros Hd Hs He. unfold ensure_drive.
  destruct (String.eqb _ "") eqn:E; [apply String.eqb_eq in E; contradiction|].
  rewrite Hs. unfold bind at 1. rewrite act_eq, He.
  now rewrite (bind_eq _ _ _ _ _ (log_eq _ _)).
Qed.

Lemma drive_ready_emit env evs st :
  drive_ready env (emit evs st) = emit evs (drive_ready env st).
Proof.
  unfold drive_ready. obs. now destruct (storage (world st)).
Qed.

Lemma listing_drive_ready env st : listing (drive_ready env st) = listing st.
Proof.
  unfold drive_ready, listing.
  destruct (storage (world st)) eqn:E; [now rewrite E | reflexivity].
Qed.

Lemma stop_drive_ready env st :
  stop_requested (self (drive_ready env st)) = stop_requested (self st).
Proof. unfold drive_ready. now destruct (storage (world st)). Qed.

Lemma queue_drive_ready env st :
  queue (self (drive_ready env st)) = queue (self st).
Proof. unfold drive_ready. now destruct (storage (world st)). Qed.

(** ** The scan *)

Definition scan_event (env : Env) (folder : string) : list Event :=
  let folder := PyStr.strip folder in
  if String.eqb folder "" then []
  else
    let source_path := source_path_of env folder in
    match source_tree env source_path with
    | Some _ => [EvLog ("Scanning: " ++ source_path)]
    | None => [EvLog ("Warning: Folder " ++ folder ++ " not found.")]
    end.

Definition scan_events (env : Env) (folders : list string) : list Event :=
  flat_map (scan_event env) folders.

Lemma scan_logs_eq env silent folders :
  forall st,
    scan_logs env silent folders st =
    (tt, emit (say (negb silent) (scan_events env folders)) st).
Proof.
  induction folders as [|f rest IH]; intros st.
  - cbn [scan_logs scan_events flat_map]. unfold ret.
    destruct silent; cbn [negb say]; now rewrite emit_nil.
  - cbn [scan_logs]. unfold bind at 1.
    assert (E : scan_log env silent f st =
                (tt, emit (say (negb silent) (scan_event env f)) st)).
    { unfold scan_log, scan_event.
      destruct (String.eqb (PyStr.strip f) "").
      - unfold ret. destruct silent; cbn [negb say]; now rewrite emit_nil.
      - destruct (source_tree env _); apply when_log. }
    rewrite E, IH, emit_app, say_app. reflexivity.
Qed.

Lemma scan_events_logs env folders :
  Forall (fun e => exists t, e = EvLog t) (scan_events env folders).
Proof.
  unfold scan_events. induction folders as [|f rest IH]; simpl;
    [constructor|].
  apply Forall_app. split; [|exact IH].
  unfold scan_event. destruct (String.eqb _ ""); [constructor|].
  destruct (source_tree env _); repeat constructor; now eexists.
Qed.

(** A folder that is absent, empty, or whose entries are all ignored
    contributes nothing. *)
Lemma collect_folder_absent fnmatch env folder :
  source_tree env (source_path_of env (PyStr.strip folder)) = None ->
  collect_folder fnmatch env folder = [].
Proof.
  intros H. unfold collect_folder.
  destruct (String.eqb _ ""); [reflexivity | now rewrite H].
Qed.

Lemma collect_folder_empty fnmatch env folder :
  source_tree env (source_path_of env (PyStr.strip folder))
    = Some (Dir []) ->
  collect_folder fnmatch env folder = [].
Proof.
  intros H. unfold collect_folder.
  destruct (String.eqb _ ""); [reflexivity | now rewrite H].
Qed.

Lemma files_to_zip_nothing fnmatch env :
  (forall folder,
      In folder (Config.get_target_folders (cfg env)) ->
      let p := source_path_of env (PyStr.strip folder) in
      source_tree env p = None \/ source_tree env p = Some (Dir [])) ->
  files_to_zip fnmatch env = [].
Proof.
  unfold files_to_zip.
  induction (Config.get_target_folders (cfg env)) as [|f rest IH];
    intros H; simpl; [reflexivity|].
  rewrite IH by (intros; apply H; now right).
  destruct (H f (or_introl eq_refl)) as [E|E].
  - now rewrite collect_folder_absent.
  - now rewrite collect_folder_empty.
Qed.

(** ** Runs that stop before the archive is opened *)

Definition start_event (env : Env) : Event :=
  EvLog ("--- Starting BACKUP (" ++ Config.hostname (cfg env) ++ ") ---").

Definition no_files_events : list Event :=
  [EvLog "No files found to back up."; EvFinish false "No files found"].

Lemma run_backup_drive_unset fnmatch env silent st :
  Config.get_drive_path (cfg env) = "" ->
  fst (run_backup fnmatch env silent st) = RNone.
Proof.
  intros Hd. unfold run_backup.
  rewrite (bind_eq _ _ _ _ _ (when_log _ _ _)).
  rewrite (bind_eq _ _ _ _ _ (ensure_drive_unset env _ Hd)).
  cbn [negb].
  rewrite (bind_eq _ _ _ _ _ (when_finish _ _ _ _)).
  reflexivity.
Qed.

Lemma run_backup_no_files_eq fnmatch env silent st :
  ensure_ok env st ->
  files_to_zip fnmatch env = [] ->
  run_backup fnmatch env silent st =
  (RNone,
   emit (say (negb silent)
             (start_event env ::
              scan_events env (Config.get_target_folders (cfg env)) ++
              no_files_events)%list)
        (drive_ready env st)).
Proof.
  intros Hok Hnone. unfold run_backup.
  rewrite (bind_eq _ _ _ _ _ (when_log _ _ _)).
  rewrite (bind_eq _ _ _ _ _
             (ensure_drive_ok env (emit (say (negb silent) [_]) st) Hok)).
  cbn [negb].
  rewrite (bind_eq _ _ _ _ _ (scan_logs_eq _ _ _ _)).
  rewrite Hnone.
  assert (E : forall st0,
    when (negb silent)
         (log "No files found to back up." ;;
          finish false "No files found") st0 =
    (tt, emit (say (negb silent) no_files_events) st0)).
  { intros st0. destruct silent; cbn [negb say when].
    - unfold ret. now rewrite emit_nil.
    - rewrite (bind_eq _ _ _ _ _ (log_eq _ _)).
      now rewrite finish_eq, emit_app. }
  rewrite (bind_eq _ _ _ _ _ (E _)). unfold ret.
  rewrite drive_ready_emit, !emit_app, !say_app. reflexivity.
Qed.

(** C6, as the code behaves. When the storage root is available and the
    scan collects no entry, [run_backup] returns without opening any
    archive: it makes no I/O call besides the possible creation of the
    storage directory and the names in the storage root are unchanged.
    A run that is not silent, on an instance with a queue, ends its report
    with [finish(False, "No files found")]; a silent run reports nothing. *)
Theorem backup_no_files
    (fnmatch : string -> string -> bool) (env : Env) (silent : bool)
    (st : State) :
  ensure_ok env st ->
  files_to_zip fnmatch env = [] ->
  let run := run_backup fnmatch env silent st in
  fst run = RNone /\
  (exists calls,
      actions (world (snd run)) = (actions (world st) ++ calls)%list /\
      (calls = [] \/
       calls = [Makedirs (Config.get_drive_path (cfg env))])) /\
  listing (snd run) = listing st /\
  (silent = false ->
   forall q, queue (self st) = Some q ->
   exists logs,
     queue (self (snd run)) = Some (q ++ logs ++ no_files_events)%list /\
     Forall (fun e => exists t, e = EvLog t) logs) /\
  (silent = true -> queue (self (snd run)) = queue (self st)).
Proof.
  intros Hok Hnone run. subst run.
  rewrite (run_backup_no_files_eq fnmatch env silent st Hok Hnone).
  cbn [fst snd]. split; [reflexivity|].
  split.
  { obs. unfold drive_ready. destruct (storage (world st)); obs.
    - exists []. split; [now rewrite app_nil_r | now left].
    - eexists. split; [reflexivity | now right]. }
  split; [unfold listing; obs; apply listing_drive_ready|].
  split.
  - intros -> q Hq. obs. rewrite queue_drive_ready, Hq. obs.
    exists (start_event env ::
            scan_events env (Config.get_target_folders (cfg env))).
    split; [now rewrite <- app_comm_cons|].
    constructor; [now eexists | apply scan_events_logs].
  - intros ->. obs. rewrite queue_drive_ready.
    destruct (queue (self st)); obs; [now rewrite app_nil_r | reflexivity].
Qed.

Lemma backup_no_files_witness :
  fst (run_backup Example.glob_match
         (Example.with_source (fun _ => None) Example.env) false
         Example.start) = RNone.
Proof.
  destruct (backup_no_files Example.glob_match
              (Example.with_source (fun _ => None) Example.env) false
              Example.start) as [H _].
  - split; [discriminate | left; discriminate].
  - reflexivity.
  - exact H.
Defined.

(** C6 as claimed fails for a silent run: nothing is put on the queue of
    the instance, and the instance of a background run has no queue. *)
Lemma backup_no_files_counterexample :
  files_to_zip Example.glob_match
    (Example.with_source (fun _ => None) Example.env) = [] /\
  events (snd (run_backup Example.glob_match
                 (Example.with_source (fun _ => None) Example.env)
                 true Example.start)) = [] /\
  queue (self (snd (run_backup Example.glob_match
                      (Example.with_source (fun _ => None) Example.env)
                      true Example.background))) = None.
Proof. repeat split. Qed.

(** ** The loop over the entries *)

Definition write_call (entry : string * string) : Action :=
  ZipWrite (fst entry) (snd entry).

Definition write_events (env : Env) (silent : bool) (total idx : nat)
    (src_file : string) : list Event :=
  say (negb silent)
      ((match zip_write_error env src_file with
        | Some fe =>
            [EvLog ("Error skipping file " ++ src_file ++ ": " ++ fe)]
        | None => []
        end ++
        [EvProgress (Qmake (Z.of_nat (idx + 1)) (Pos.of_nat total)) ""])
       %list).

Lemma backup_write_eq env silent total idx entry st :
  total <> 0%nat ->
  backup_write env silent total idx entry st =
  (None,
   emit (write_events env silent total idx (fst entry))
        (perform [write_call entry] st)).
Proof.
  intros Ht. destruct entry as [src arc]. unfold backup_write, write_events.
  rewrite (bind_eq _ _ _ _ _ (act_eq _ _)).
  rewrite (py_truediv_some _ _ Ht). cbn [fst].
  destruct (zip_write_error env src) as [fe|].
  - rewrite (bind_eq _ _ _ _ _ (when_log _ _ _)).
    rewrite (bind_eq _ _ _ _ _ (when_progress _ _ _ _)).
    unfold ret. now rewrite emit_app, say_app.
  - unfold bind at 1, ret at 1.
    rewrite (bind_eq _ _ _ _ _ (when_progress _ _ _ _)).
    reflexivity.
Qed.

(** The events of writing [entries], the first of which has index [idx]. *)
Fixpoint writes_events (env : Env) (silent : bool) (total idx : nat)
    (entries : list (string * string)) : list Event :=
  match entries with
  | [] => []
  | entry :: rest =>
      (write_events env silent total idx (fst entry) ++
       writes_events env silent total (S idx) rest)%list
  end.

(** The state after writing [entries]. *)
Definition after_writes (env : Env) (silent : bool) (total idx : nat)
    (entries : list (string * string)) (st : State) : State :=
  emit (writes_events env silent total idx entries)
       (perform (map write_call entries) st).

Lemma after_writes_cons env silent total idx entry rest st :
  after_writes env silent total (S idx) rest
    (emit (write_events env silent total idx (fst entry))
          (perform [write_call entry] st)) =
  after_writes env silent total idx (entry :: rest) st.
Proof.
  unfold after_writes. cbn [writes_events map].
  now rewrite <- emit_perform, perform_app, emit_app.
Qed.

Lemma writes_events_no_finish env silent total entries :
  forall idx,
    Forall (fun e => ~ is_finish e)
           (writes_events env silent total idx entries).
Proof.
  induction entries as [|entry rest IH]; intros idx; simpl;
    [constructor|].
  apply Forall_app. split; [|apply IH].
  unfold write_events. destruct silent; simpl; [constructor|].
  destruct (zip_write_error env (fst entry)); simpl;
    repeat constructor; intros (ok & msg & E); discriminate.
Qed.

(** The state after the cancellation branch, when the archive could be
    closed. *)
Definition cancelled (env : Env) (silent : bool) (st : State) : State :=
  emit (say (negb silent)
            [EvLog "Backup Cancelled."; EvFinish false "Cancelled"])
       (set_storage
          (option_map (Catalog.prune env [full_output_path env])
                      (storage (world st)))
          (perform [ZipClose (full_output_path env);
                    Remove (full_output_path env)] st)).

(** The state in which the cancellation branch is left when
    [zip_file.close()] raises. *)
Definition close_failed (env : Env) (silent : bool) (st : State) : State :=
  perform [ZipClose (full_output_path env)]
          (emit (say (negb silent) [EvLog "Backup Cancelled."]) st).

(** How the cancellation branch leaves the loop, and in which state. *)
Definition cancel_exit (env : Env) : LoopExit :=
  match zip_close_error env with
  | Some e => RaisedByClose e
  | None => Returned
  end.

Definition cancel_state (env : Env) (silent : bool) (st : State) : State :=
  match zip_close_error env with
  | Some _ => close_failed env silent st
  | None => cancelled env silent st
  end.

Lemma os_remove_eq env path st :
  os_remove env path st =
  (remove_error env path,
   set_storage (option_map (Catalog.prune env [path]) (storage (world st)))
               (perform [Remove path] st)).
Proof.
  unfold os_remove. rewrite (bind_eq _ _ _ _ _ (act_eq _ _)).
  cbn [Catalog.prune]. unfold Catalog.removed_ok.
  destruct (remove_error env path) as [e|]; unfold ret;
    destruct st as [[q b] [[s|] o a]]; reflexivity.
Qed.

Lemma backup_cancel_gen env silent st :
  backup_cancel env silent st =
  (zip_close_error env, cancel_state env silent st).
Proof.
  unfold backup_cancel, cancel_state, cancelled, close_failed.
  rewrite (bind_eq _ _ _ _ _ (when_log _ _ _)).
  rewrite (bind_eq _ _ _ _ _ (act_eq _ _)).
  destruct (zip_close_error env) as [e|]; [reflexivity|].
  rewrite (bind_eq _ _ _ _ _ (os_remove_eq _ _ _)).
  rewrite (bind_eq _ _ _ _ _ (when_finish _ _ _ _)).
  unfold ret. f_equal.
  destruct st as [[q b] [[s|] o a]]; destruct q, silent;
    unfold emit, perform, set_storage; obs;
    now rewrite <- ?app_assoc, ?app_nil_r.
Qed.

Lemma backup_cancel_eq env silent st :
  zip_close_error env = None ->
  backup_cancel env silent st = (None, cancelled env silent st).
Proof.
  intros Hc. rewrite backup_cancel_gen. unfold cancel_state.
  now rewrite Hc.
Qed.

Lemma set_stop_same st :
  stop_requested (self st) = true -> set_stop true st = st.
Proof. destruct st as [[q b] w]. simpl. now intros ->. Qed.

(** The loop when the stop is requested before its first checkpoint. *)
Lemma backup_loop_stopped_gen env silent total idx entry rest st :
  stop_requested (self st) = true ->
  backup_loop env silent total idx (entry :: rest) st =
  (cancel_exit env, cancel_state env silent st).
Proof.
  intros Hs. cbn [backup_loop].
  assert (E : interface_thread (abort_at env) idx st = (tt, st)).
  { unfold interface_thread. destruct (abort_at env) as [k|]; [|reflexivity].
    destruct (Nat.eqb k idx); [|reflexivity].
    unfold abort. now rewrite set_stop_same. }
  rewrite (bind_eq _ _ _ _ _ E), Hs.
  rewrite (bind_eq _ _ _ _ _ (backup_cancel_gen _ _ _)).
  unfold cancel_exit. now destruct (zip_close_error env).
Qed.

Lemma backup_loop_stopped env silent total idx entry rest st :
  zip_close_error env = None ->
  stop_requested (self st) = true ->
  backup_loop env silent total idx (entry :: rest) st =
  (Returned, cancelled env silent st).
Proof.
  intros Hc Hs. rewrite backup_loop_stopped_gen by exact Hs.
  unfold cancel_exit, cancel_state. now rewrite Hc.
Qed.

(** The loop when [abort()] lands after [K] entries. *)
Lemma backup_loop_abort_gen env silent total K :
  abort_at env = Some K -> total <> 0%nat ->
  forall entries idx st,
    (idx <= K)%nat -> (K < idx + length entries)%nat ->
    stop_requested (self st) = false ->
    backup_loop env silent total idx entries st =
    (cancel_exit env,
     cancel_state env silent
       (set_stop true
          (after_writes env silent total idx
                        (firstn (K - idx) entries) st))).
Proof.
  intros Ha Ht. induction entries as [|entry rest IH];
    intros idx st Hle Hlt Hs; simpl in Hlt; [lia|].
  cbn [backup_loop]. unfold interface_thread. rewrite Ha.
  destruct (Nat.eqb K idx) eqn:E.
  - apply Nat.eqb_eq in E. subst idx.
    rewrite Nat.sub_diag. cbn [firstn].
    unfold bind at 1, abort. cbn [snd].
    cbn [set_stop self stop_requested].
    rewrite (bind_eq _ _ _ _ _ (backup_cancel_gen _ _ _)).
    unfold after_writes. cbn [writes_events map].
    rewrite perform_nil, emit_nil.
    unfold cancel_exit. now destruct (zip_close_error env).
  - apply Nat.eqb_neq in E.
    unfold bind at 1, ret at 1. rewrite Hs.
    rewrite (bind_eq _ _ _ _ _ (backup_write_eq _ _ _ _ _ _ Ht)).
    rewrite IH by (try lia; exact Hs).
    replace (K - idx)%nat with (S (K - S idx)) by lia.
    cbn [firstn]. now rewrite after_writes_cons.
Qed.

Lemma backup_loop_abort env silent total K :
  zip_close_error env = None ->
  abort_at env = Some K -> total <> 0%nat ->
  forall entries idx st,
    (idx <= K)%nat -> (K < idx + length entries)%nat ->
    stop_requested (self st) = false ->
    backup_loop env silent total idx entries st =
    (Returned,
     cancelled env silent
       (set_stop true
          (after_writes env silent total idx
                        (firstn (K - idx) entries) st))).
Proof.
  intros Hc Ha Ht entries idx st Hle Hlt Hs.
  rewrite (backup_loop_abort_gen env silent total K Ha Ht) by assumption.
  unfold cancel_exit, cancel_state. now rewrite Hc.
Qed.

(** The loop when no [abort()] lands during it. *)
Lemma backup_loop_completes env silent total :
  total <> 0%nat ->
  forall entries idx st,
    (forall K, abort_at env = Some K ->
               (K < idx \/ idx + length entries <= K)%nat) ->
    stop_requested (self st) = false ->
    backup_loop env silent total idx entries st =
    (Completed, after_writes env silent total idx entries st).
Proof.
  intros Ht. induction entries as [|entry rest IH];
    intros idx st Ha Hs.
  - unfold after_writes. cbn [backup_loop writes_events map].
    unfold ret. now rewrite perform_nil, emit_nil.
  - cbn [backup_loop].
    assert (E : interface_thread (abort_at env) idx st = (tt, st)).
    { unfold interface_thread.
      destruct (abort_at env) as [k|] eqn:Ek; [|reflexivity].
      destruct (Nat.eqb k idx) eqn:Eq; [|reflexivity].
      apply Nat.eqb_eq in Eq. subst k.
      specialize (Ha idx eq_refl). simpl in Ha. lia. }
    rewrite (bind_eq _ _ _ _ _ E), Hs.
    rewrite (bind_eq _ _ _ _ _ (backup_write_eq _ _ _ _ _ _ Ht)).
    rewrite IH; [now rewrite after_writes_cons| |exact Hs].
    intros K HK. specialize (Ha K HK). simpl in Ha. lia.
Qed.

(** ** Runs that open the archive *)

(** The state after the archive file has been created. *)
Definition created (env : Env) (st : State) : State :=
  set_storage
    (option_map
       (fun names =>
          if PyStr.mem (final_zip_name env) names then names
          else (names ++ [final_zip_name env])%list)
       (storage (world st)))
    (perform [ZipCreate (full_output_path env)] st).

Lemma zip_create_eq env st :
  zip_create_error env = None ->
  zip_create env st = (None, created env st).
Proof.
  intros H. unfold zip_create.
  rewrite (bind_eq _ _ _ _ _ (act_eq _ _)). now rewrite H.
Qed.

Lemma zip_create_failed env st e :
  zip_create_error env = Some e ->
  zip_create env st =
  (Some e, perform [ZipCreate (full_output_path env)] st).
Proof.
  intros H. unfold zip_create.
  rewrite (bind_eq _ _ _ _ _ (act_eq _ _)). now rewrite H.
Qed.

Definition creating_event (env : Env) : Event :=
  EvLog ("Creating archive: " ++ final_zip_name env).

(** The state in which the loop over the entries starts. *)
Definition loop_entry (env : Env) (silent : bool) (st : State) : State :=
  created env
    (emit (say (negb silent)
               (start_event env ::
                scan_events env (Config.get_target_folders (cfg env)) ++
                [creating_event env])%list)
          (drive_ready env st)).

Lemma run_backup_before_create fnmatch env silent st :
  ensure_ok env st ->
  files_to_zip fnmatch env <> [] ->
  run_backup fnmatch env silent st =
  (opened <- zip_create env ;;
   match opened with
   | Some e => backup_failed silent e
   | None =>
       exit <- backup_loop env silent (length (files_to_zip fnmatch env)) 0
                           (files_to_zip fnmatch env) ;;
       backup_after_loop fnmatch env silent exit
   end)
    (emit (say (negb silent)
               (start_event env ::
                scan_events env (Config.get_target_folders (cfg env)) ++
                [creating_event env])%list)
          (drive_ready env st)).
Proof.
  intros Hok Hne. unfold run_backup.
  rewrite (bind_eq _ _ _ _ _ (when_log _ _ _)).
  rewrite (bind_eq _ _ _ _ _
             (ensure_drive_ok env (emit (say (negb silent) [_]) st) Hok)).
  cbn [negb].
  rewrite (bind_eq _ _ _ _ _ (scan_logs_eq _ _ _ _)).
  destruct (files_to_zip fnmatch env) as [|entry rest] eqn:Ef;
    [now elim Hne|].
  rewrite (bind_eq _ _ _ _ _ (when_log _ _ _)).
  rewrite drive_ready_emit, !emit_app, !say_app. reflexivity.
Qed.

Lemma run_backup_enters_loop fnmatch env silent st :
  ensure_ok env st ->
  files_to_zip fnmatch env <> [] ->
  zip_create_error env = None ->
  run_backup fnmatch env silent st =
  (exit <- backup_loop env silent (length (files_to_zip fnmatch env)) 0
                      (files_to_zip fnmatch env) ;;
   backup_after_loop fnmatch env silent exit)
    (loop_entry env silent st).
Proof.
  intros Hok Hne Hc.
  rewrite (run_backup_before_create fnmatch env silent st Hok Hne).
  now rewrite (bind_eq _ _ _ _ _ (zip_create_eq env _ Hc)).
Qed.

Lemma length_nonzero {A : Type} (l : list A) : l <> [] -> length l <> 0%nat.
Proof. destruct l; [congruence | discriminate]. Qed.

(** C4, as the code behaves. In a run that is not silent, on an instance
    with a queue, whose [abort()] lands after [K < N] of the [N] entries
    have been written and in which closing the archive does not raise:
    exactly the first [K] entries are written, the archive is closed and
    its removal is called, the run returns and the queue ends with
    [finish(False, "Cancelled")], the only [finish] of the run; and when
    that removal succeeds no entry of the storage root has the path of the
    archive. *)
Theorem backup_cancelled
    (fnmatch : string -> string -> bool) (env : Env) (st : State)
    (q : list Event) (K : nat) :
  queue (self st) = Some q ->
  stop_requested (self st) = false ->
  ensure_ok env st ->
  zip_create_error env = None ->
  zip_close_error env = None ->
  abort_at env = Some K ->
  (K < length (files_to_zip fnmatch env))%nat ->
  let run := run_backup fnmatch env false st in
  fst run = RNone /\
  (exists evs,
      queue (self (snd run)) =
        Some (q ++ evs ++
              [EvLog "Backup Cancelled."; EvFinish false "Cancelled"])%list
      /\ Forall (fun e => ~ is_finish e) evs) /\
  actions (world (snd run)) =
    (actions (world (drive_ready env st)) ++
     ZipCreate (full_output_path env) ::
     map write_call (firstn K (files_to_zip fnmatch env)) ++
     [ZipClose (full_output_path env); Remove (full_output_path env)])%list
  /\
  (remove_error env (full_output_path env) = None ->
   forall name, In name (listing (snd run)) ->
                root_path env name <> full_output_path env).
Proof.
  intros Hq Hs Hok Hc Hcl Ha HK run. subst run.
  assert (Hne : files_to_zip fnmatch env <> [])
    by (destruct (files_to_zip fnmatch env); [simpl in HK; lia | discriminate]).
  rewrite (run_backup_enters_loop fnmatch env false st Hok Hne Hc).
  rewrite (bind_eq _ _ _ _ _
             (backup_loop_abort env false _ K Hcl Ha (length_nonzero _ Hne)
                _ 0%nat (loop_entry env false st) (Nat.le_0_l K) HK
                ltac:(unfold loop_entry, created; obs;
                      rewrite stop_drive_ready; exact Hs))).
  rewrite Nat.sub_0_r. cbn [backup_after_loop]. unfold ret.
  unfold cancelled, after_writes, loop_entry, created.
  cbn [fst snd negb say]. split; [reflexivity|]. split; [|split].
  - obs. rewrite queue_drive_ready, Hq. obs.
    exists ((start_event env ::
             scan_events env (Config.get_target_folders (cfg env)) ++
             [creating_event env]) ++
            writes_events env false (length (files_to_zip fnmatch env)) 0
              (firstn K (files_to_zip fnmatch env)))%list.
    split.
    + now rewrite <- !app_assoc.
    + apply Forall_app. split.
      * constructor; [intros (ok & msg & E); discriminate|].
        apply Forall_app. split.
        -- eapply Forall_impl; [|apply scan_events_logs].
           intros e (t & ->) (ok & msg & E). discriminate.
        -- repeat constructor. intros (ok & msg & E). discriminate.
      * apply writes_events_no_finish.
  - obs. rewrite <- !app_assoc. reflexivity.
  - intros Hr name. unfold listing. obs.
    destruct (storage (world (drive_ready env st))) as [names|]; obs;
      [|tauto].
    cbn [Catalog.prune]. unfold Catalog.removed_ok. rewrite Hr.
    unfold without. rewrite filter_In. intros [_ H] E.
    rewrite E, String.eqb_refl in H. discriminate.
Qed.

Lemma backup_cancelled_witness :
  fst (run_backup Example.glob_match
         (Example.with_abort_at (Some 1%nat) Example.env) false
         Example.start) = RNone /\
  ~ In "Antigravity_Backup_alpha_20250309_120000.zip"
       (listing (snd (run_backup Example.glob_match
                        (Example.with_abort_at (Some 1%nat) Example.env)
                        false Example.start))).
Proof.
  destruct (backup_cancelled Example.glob_match
              (Example.with_abort_at (Some 1%nat) Example.env)
              Example.start [] 1%nat) as (R & _ & _ & L).
  - reflexivity.
  - reflexivity.
  - split; [discriminate | left; discriminate].
  - reflexivity.
  - reflexivity.
  - reflexivity.
  - simpl. lia.
  - split; [exact R|]. intros H.
    exact (L eq_refl _ H eq_refl).
Defined.

(** Four environments: [abort()] lands after the first of the three entries
    and the removal of the partial archive fails; it lands after the first
    entry; it lands after the last entry; it lands after the first entry
    and closing the archive raises. *)
Definition locked : Env :=
  Example.with_remove_error (fun _ => Some "Permission denied")
    (Example.with_abort_at (Some 1%nat) Example.env).

Definition early : Env := Example.with_abort_at (Some 1%nat) Example.env.

Definition late : Env := Example.with_abort_at (Some 3%nat) Example.env.

Definition unclosed : Env :=
  Example.with_close_error (Some "No space left on device")
    (Example.with_abort_at (Some 1%nat) Example.env).

(** C4 as claimed fails in four ways. When the removal of the partial
    archive fails the archive stays in the storage root; a silent run puts
    no [finish] on the queue; an [abort()] that lands after the last
    entry is not observed, the backup completing; and when closing the
    partial archive raises, the removal is not called, the archive stays
    and the run ends with [finish(False, <the error>)]. *)
Lemma backup_cancelled_counterexample :
  In "Antigravity_Backup_alpha_20250309_120000.zip"
     (listing (snd (run_backup Example.glob_match locked false
                      Example.start))) /\
  events (snd (run_backup Example.glob_match early true Example.start))
    = [] /\
  fst (run_backup Example.glob_match late false Example.start)
    = RBool true /\
  In "Antigravity_Backup_alpha_20250309_120000.zip"
     (listing (snd (run_backup Example.glob_match late false
                      Example.start))) /\
  last (events (snd (run_backup Example.glob_match unclosed false
                       Example.start))) (EvLog "")
    = EvFinish false "No space left on device" /\
  ~ In (Remove (full_output_path unclosed))
       (actions (world (snd (run_backup Example.glob_match unclosed false
                               Example.start)))) /\
  In "Antigravity_Backup_alpha_20250309_120000.zip"
     (listing (snd (run_backup Example.glob_match unclosed false
                      Example.start))).
Proof.
  split; [vm_compute; tauto|].
  split; [vm_compute; reflexivity|].
  split; [vm_compute; reflexivity|].
  split; [vm_compute; tauto|].
  split; [vm_compute; reflexivity|].
  split; [vm_compute; intuition discriminate|].
  vm_compute. tauto.
Qed.

(** ** What [run_backup] returns *)

Lemma run_backup_create_failed fnmatch env silent st e :
  ensure_ok env st ->
  files_to_zip fnmatch env <> [] ->
  zip_create_error env = Some e ->
  fst (run_backup fnmatch env silent st) = RBool false.
Proof.
  intros Hok Hne Hc.
  rewrite (run_backup_before_create fnmatch env silent st Hok Hne).
  rewrite (bind_eq _ _ _ _ _ (zip_create_failed env _ e Hc)).
  unfold backup_failed, bind.
  destruct (when (negb silent) _ _). reflexivity.
Qed.

Lemma run_backup_completes fnmatch env silent st :
  ensure_ok env st ->
  files_to_zip fnmatch env <> [] ->
  zip_create_error env = None ->
  zip_close_error env = None ->
  (forall K, abort_at env = Some K ->
             (length (files_to_zip fnmatch env) <= K)%nat) ->
  stop_requested (self st) = false ->
  fst (run_backup fnmatch env silent st) = RBool true.
Proof.
  intros Hok Hne Hc Hcl Ha Hs.
  rewrite (run_backup_enters_loop fnmatch env silent st Hok Hne Hc).
  rewrite (bind_eq _ _ _ _ _
             (backup_loop_completes env silent _ (length_nonzero _ Hne)
                _ 0%nat (loop_entry env silent st)
                (fun K HK => or_intror (Ha K HK))
                ltac:(unfold loop_entry, created; obs;
                      rewrite stop_drive_ready; exact Hs))).
  cbn [backup_after_loop].
  rewrite (bind_eq _ _ _ _ _ (act_eq _ _)), Hcl.
  rewrite (bind_eq _ _ _ _ _ (when_log _ _ _)).
  rewrite (bind_eq _ _ _ _ _ (Catalog.cleanup_old_backups_eq _ _ _)).
  rewrite (bind_eq _ _ _ _ _ (when_finish _ _ _ _)).
  reflexivity.
Qed.

(** C8, the code at the failing inputs. [run_backup] returns [True] after a
    completed backup and [False] when creating the archive raises, but a
    bare [None] (no boolean) when the drive is not available, when no file
    is found and when the run is cancelled. *)
Theorem run_backup_returns_none :
  fst (run_backup Example.glob_match (Example.unconfigured Example.env)
         false Example.start) = RNone /\
  fst (run_backup Example.glob_match
         (Example.with_source (fun _ => None) Example.env)
         false Example.start) = RNone /\
  fst (run_backup Example.glob_match
         (Example.with_abort_at (Some 1%nat) Example.env)
         false Example.start) = RNone /\
  fst (run_backup Example.glob_match
         (Example.with_create_error (Some "No space left on device")
            Example.env)
         false Example.start) = RBool false /\
  fst (run_backup Example.glob_match Example.env false Example.start)
    = RBool true.
Proof. repeat split. Qed.

End Backup.

(* ================================================================== *)
(** * Cancellation: the stop flag *)
(* ================================================================== *)

Module Cancellation.

Import Engine Frame Exact.
Open Scope monad_scope.

(** A computation that never clears a requested stop. *)
Definition keeps_stop {A : Type} (m : M A) : Prop :=
  forall st,
    stop_requested (self st) = true ->
    stop_requested (self (snd (m st))) = true.

Lemma respects_keeps_stop {A : Type} (m : M A) :
  respects (fun _ => True) (fun _ => True) m -> keeps_stop m.
Proof. intros H st. apply (H st). Qed.

Lemma interface_thread_stopped k idx st :
  stop_requested (self st) = true ->
  interface_thread k idx st = (tt, st).
Proof.
  intros Hs. unfold interface_thread.
  destruct k as [k|]; [|reflexivity].
  destruct (Nat.eqb k idx); [|reflexivity].
  unfold abort. now rewrite Backup.set_stop_same.
Qed.

(** The extraction loop when the stop is requested before its first
    checkpoint. *)
Lemma extract_loop_stopped fnmatch isabs env total idx member rest st :
  stop_requested (self st) = true ->
  extract_loop fnmatch isabs env total idx (member :: rest) st =
  (Returned, emit [EvFinish false "Cancelled"] st).
Proof.
  intros Hs. cbn [extract_loop].
  rewrite (bind_eq _ _ _ _ _ (interface_thread_stopped _ _ _ Hs)), Hs.
  now rewrite (bind_eq _ _ _ _ _ (finish_eq _ _ _)).
Qed.

(** The last events of a backup that is cancelled: the outcome is
    ["Cancelled"] unless closing the partial archive raises, which the
    handler of [run_backup] reports as the outcome. *)
Definition cancel_outcome (env : Env) : list Event :=
  match zip_close_error env with
  | None => [EvFinish false "Cancelled"]
  | Some e =>
      [EvLog ("[CRITICAL ERROR] Failed to create ZIP: " ++ e);
       EvFinish false e]
  end.

(** The events of a backup that is cancelled at its first checkpoint. *)
Definition stopped_backup_events (env : Env) : list Event :=
  (Backup.start_event env ::
   Backup.scan_events env (Config.get_target_folders (cfg env)) ++
   [Backup.creating_event env; EvLog "Backup Cancelled."] ++
   cancel_outcome env)%list.

(** What such a backup returns, and what it calls after creating the
    archive. *)
Definition stopped_backup_result (env : Env) : PyRet :=
  match zip_close_error env with
  | None => RNone
  | Some _ => RBool false
  end.

Definition stopped_backup_calls (env : Env) : list Action :=
  match zip_close_error env with
  | None => [ZipClose (full_output_path env); Remove (full_output_path env)]
  | Some _ => [ZipClose (full_output_path env)]
  end.

Lemma run_backup_stopped_eq fnmatch env silent st :
  stop_requested (self st) = true ->
  Backup.ensure_ok env st ->
  files_to_zip fnmatch env <> [] ->
  zip_create_error env = None ->
  run_backup fnmatch env silent st =
  (stopped_backup_result env,
   emit (say (negb silent)
             (match zip_close_error env with
              | None => []
              | Some _ => cancel_outcome env
              end))
        (Backup.cancel_state env silent (Backup.loop_entry env silent st))).
Proof.
  intros Hs Hok Hne Hc.
  rewrite (Backup.run_backup_enters_loop fnmatch env silent st Hok Hne Hc).
  destruct (files_to_zip fnmatch env) as [|entry rest]; [now elim Hne|].
  rewrite (bind_eq _ _ _ _ _
             (Backup.backup_loop_stopped_gen env silent _ 0%nat entry rest
                (Backup.loop_entry env silent st)
                ltac:(unfold Backup.loop_entry, Backup.created; Backup.obs;
                      rewrite Backup.stop_drive_ready; exact Hs))).
  unfold Backup.cancel_exit, Backup.cancel_state, stopped_backup_result,
    cancel_outcome.
  destruct (zip_close_error env) as [e|]; cbn [backup_after_loop].
  - apply backup_failed_eq.
  - unfold ret. cbn [say]. destruct silent; now rewrite emit_nil.
Qed.

Lemma run_restore_stopped_eq fnmatch isabs env st latest_backup older
    member members :
  stop_requested (self st) = true ->
  Config.get_drive_path (cfg env) <> "" ->
  storage (world st) <> None ->
  PySort.sort_desc (fst (glob_backups fnmatch env st))
    = latest_backup :: older ->
  zip_read env latest_backup = inr (member :: members) ->
  exists analysis,
    run_restore fnmatch isabs env st =
    (RNone,
     emit ([EvLog "--- Starting RESTORE ---";
            EvLog ("Found latest backup: " ++ basename env latest_backup);
            EvLog "Analyzing archive..."] ++ analysis ++
           [EvFinish false "Cancelled"])%list
          (perform [ZipRead latest_backup] st)) /\
    Forall (fun e => exists v, e = EvProgress v "Analyzing...") analysis.
Proof.
  intros Hs Hd Hst Hg Hz.
  set (st3 := perform
                [ZipRead latest_backup]
                (emit [EvLog "--- Starting RESTORE ---";
                       EvLog ("Found latest backup: " ++
                              basename env latest_backup);
                       EvLog "Analyzing archive..."] st)).
  destruct (Restore.analysis_loop_eq (length (member :: members))
              (member :: members) ltac:(discriminate) 0%nat st3)
    as (analysis & Ea & Fa & _).
  exists analysis. split; [|exact Fa].
  unfold run_restore.
  rewrite (bind_eq _ _ _ _ _ (log_eq _ _)).
  rewrite (bind_eq _ _ _ _ _
             (Restore.ensure_drive_present env
                (emit [EvLog "--- Starting RESTORE ---"] st) Hd Hst)).
  cbn [negb].
  erewrite bind_eq by reflexivity.
  change (fst (glob_backups fnmatch env st)) with
    (fst (glob_backups fnmatch env
            (emit [EvLog "--- Starting RESTORE ---"] st))) in Hg.
  unfold glob_backups in Hg at 1. cbn [fst] in Hg. rewrite Hg.
  rewrite (bind_eq _ _ _ _ _ (log_eq _ _)).
  rewrite (bind_eq _ _ _ _ _ (log_eq _ _)).
  rewrite (bind_eq _ _ _ _ _ (act_eq _ _)).
  rewrite Hz. unfold restore_archive.
  rewrite !emit_app. cbn [app]. fold st3.
  rewrite (bind_eq _ _ _ _ _ Ea).
  rewrite (bind_eq _ _ _ _ _
             (extract_loop_stopped fnmatch isabs env _ 0%nat member members
                (emit analysis st3) Hs)).
  unfold ret, st3. f_equal.
  now rewrite <- !emit_perform, !emit_app.
Qed.

(** C9, as the code behaves. [abort()] sets the stop flag and no method of
    the instance clears it. With the flag set, a [run_backup] that reaches
    its first checkpoint (storage root available, at least one entry
    collected, archive created) writes no entry and closes the archive;
    when the close does not raise it calls the removal of the archive and
    returns, its report (when it reports) ending with
    [finish(False, "Cancelled")]; when the close raises [e] the removal is
    not called and the run returns [False], its report ending with
    [finish(False, e)]. A [run_restore] that reaches its first checkpoint
    (an archive selected and opened, with at least one member) extracts
    nothing and ends with [finish(False, "Cancelled")]. *)
Theorem stop_is_permanent
    (fnmatch : string -> string -> bool) (isabs : string -> bool)
    (env : Env) (st : State) :
  stop_requested (self st) = true ->
  (forall st0, stop_requested (self (snd (abort st0))) = true) /\
  (* no method clears the flag *)
  ((forall text, stop_requested (self (snd (log text st))) = true) /\
   (forall v msg, stop_requested (self (snd (progress v msg st))) = true) /\
   (forall ok msg, stop_requested (self (snd (finish ok msg st))) = true) /\
   stop_requested (self (snd (ensure_drive env st))) = true /\
   (forall path,
       stop_requested (self (snd (should_ignore fnmatch env path st)))
       = true) /\
   stop_requested (self (snd (cleanup_old_backups fnmatch env st))) = true /\
   stop_requested (self (snd (scan_for_backups fnmatch env st))) = true /\
   (forall silent,
       stop_requested (self (snd (run_backup fnmatch env silent st)))
       = true) /\
   stop_requested (self (snd (run_restore fnmatch isabs env st))) = true) /\
  (* a later backup *)
  (forall silent,
      Backup.ensure_ok env st ->
      files_to_zip fnmatch env <> [] ->
      zip_create_error env = None ->
      let run := run_backup fnmatch env silent st in
      fst run = stopped_backup_result env /\
      actions (world (snd run)) =
        (actions (world (Backup.drive_ready env st)) ++
         ZipCreate (full_output_path env) ::
         stopped_backup_calls env)%list /\
      queue (self (snd run)) =
        option_map
          (fun q => (q ++ say (negb silent) (stopped_backup_events env))
                    %list)
          (queue (self st))) /\
  (* a later restore *)
  (forall latest_backup older member members,
      Config.get_drive_path (cfg env) <> "" ->
      (has_magic (Config.get_drive_path (cfg env)) = true ->
       storage (world st) <> None) ->
      PySort.sort_desc (fst (glob_backups fnmatch env st))
        = latest_backup :: older ->
      zip_read env latest_backup = inr (member :: members) ->
      let run := run_restore fnmatch isabs env st in
      fst run = RNone /\
      actions (world (snd run)) =
        (actions (world st) ++ [ZipRead latest_backup])%list /\
      exists evs,
        queue (self (snd run)) =
          option_map
            (fun q => (q ++ evs ++ [EvFinish false "Cancelled"])%list)
            (queue (self st)) /\
        Forall (fun e => ~ Backup.is_finish e) evs).
Proof.
  intros Hs.
  assert (K : forall (A : Type) (m : M A),
             respects (fun _ => True) (fun _ => True) m ->
             stop_requested (self (snd (m st))) = true)
    by (intros A m H; now apply (respects_keeps_stop m H)).
  split; [reflexivity|]. split; [|split].
  - repeat split; intros; apply K.
    + now apply respects_log.
    + now apply respects_progress.
    + now apply respects_finish.
    + now apply Methods.respects_ensure_drive.
    + now apply Methods.respects_should_ignore.
    + now apply Methods.respects_cleanup_old_backups.
    + now apply Methods.respects_scan_for_backups.
    + now apply Methods.respects_run_backup.
    + now apply (Methods.respects_run_restore fnmatch isabs).
  - intros silent Hok Hne Hc run. subst run.
    rewrite (run_backup_stopped_eq fnmatch env silent st Hs Hok Hne Hc).
    unfold Backup.cancel_state, Backup.cancelled, Backup.close_failed,
      Backup.loop_entry, Backup.created, stopped_backup_calls,
      stopped_backup_events, cancel_outcome.
    cbn [fst snd]. split; [reflexivity|].
    destruct (zip_close_error env) as [e|]; split.
    + Backup.obs. now rewrite <- !app_assoc.
    + Backup.obs. rewrite Backup.queue_drive_ready.
      destruct (queue (self st)) as [q|]; Backup.obs; [|reflexivity].
      rewrite <- !app_assoc, !Backup.say_app.
      now rewrite <- app_comm_cons, <- !app_assoc.
    + Backup.obs. now rewrite <- !app_assoc.
    + Backup.obs. rewrite Backup.queue_drive_ready.
      destruct (queue (self st)) as [q|]; Backup.obs; [|reflexivity].
      rewrite ?app_nil_r, <- !app_assoc, !Backup.say_app.
      now rewrite <- ?app_comm_cons, <- ?app_assoc.
  - intros latest_backup older member members Hd Hm Hg Hz run. subst run.
    pose proof (Restore.glob_storage_present _ _ _ _ _ Hm Hg) as Hst.
    destruct (run_restore_stopped_eq fnmatch isabs env st latest_backup
                older member members Hs Hd Hst Hg Hz)
      as (analysis & E & Fa).
    rewrite E. cbn [fst snd]. split; [reflexivity|]. split.
    + reflexivity.
    + exists ([EvLog "--- Starting RESTORE ---";
               EvLog ("Found latest backup: " ++
                      basename env latest_backup);
               EvLog "Analyzing archive..."] ++ analysis)%list.
      split.
      * Backup.obs. destruct (queue (self st)); Backup.obs;
          [now rewrite <- !app_assoc | reflexivity].
      * apply Forall_app. split.
        -- repeat constructor; intros (ok & msg & H); discriminate.
        -- eapply Forall_impl; [|exact Fa].
           intros e (v & ->) (ok & msg & H). discriminate.
Qed.

(** The instance of the example after [abort()]. *)
Definition aborted : State := snd (abort Example.start).

Lemma stop_is_permanent_witness :
  stop_requested (self (snd (Example.backup false aborted))) = true /\
  fst (Example.backup false aborted) = RNone /\
  fst (Example.restore aborted) = RNone.
Proof.
  destruct (stop_is_permanent Example.glob_match Example.posix_isabs
              Example.env aborted eq_refl) as (_ & N & B & R).
  split; [apply N|]. split.
  - apply (B false).
    + split; [discriminate | left; discriminate].
    + discriminate.
    + reflexivity.
  - apply (R "/mnt/drive/AntigravitySync/Antigravity_Backup_alpha_20250301_080000.zip"
             ["/mnt/drive/AntigravitySync/Antigravity_Backup_alpha_20250201_080000.zip";
              "/mnt/drive/AntigravitySync/Antigravity_Backup_alpha_20250101_080000.zip"]
             ".gemini/settings.json"
             ["../../evil.txt"; "/etc/passwd"; ".gemini/debug.log"]).
    + discriminate.
    + discriminate.
    + reflexivity.
    + reflexivity.
Defined.

(** C9 as claimed fails when closing the partial archive raises: with the
    stop flag set, the backup reaches its first checkpoint, and ends with
    the error of the close as its outcome, not with ["Cancelled"]; it
    returns [False] and leaves the partial archive in the storage root. *)
Lemma stop_is_permanent_counterexample :
  stop_requested (self aborted) = true /\
  fst (run_backup Example.glob_match
         (Example.with_close_error (Some "No space left on device")
            Example.env) false aborted) = RBool false /\
  events (snd (run_backup Example.glob_match
                 (Example.with_close_error (Some "No space left on device")
                    Example.env) false aborted)) =
  [EvLog "--- Starting BACKUP (alpha) ---";
   EvLog "Scanning: /home/ana/.gemini";
   EvLog "Warning: Folder .antigravity not found.";
   EvLog "Creating archive: Antigravity_Backup_alpha_20250309_120000.zip";
   EvLog "Backup Cancelled.";
   EvLog "[CRITICAL ERROR] Failed to create ZIP: No space left on device";
   EvFinish false "No space left on device"] /\
  In "Antigravity_Backup_alpha_20250309_120000.zip"
     (listing (snd (run_backup Example.glob_match
                      (Example.with_close_error
                         (Some "No space left on device") Example.env)
                      false aborted))).
Proof.
  split; [reflexivity|]. split; [reflexivity|].
  split; [reflexivity|]. vm_compute. tauto.
Qed.

Example stopped_backup_example :
  actions (world (snd (Example.backup false aborted))) =
  [ZipCreate
     "/mnt/drive/AntigravitySync/Antigravity_Backup_alpha_20250309_120000.zip";
   ZipClose
     "/mnt/drive/AntigravitySync/Antigravity_Backup_alpha_20250309_120000.zip";
   Remove
     "/mnt/drive/AntigravitySync/Antigravity_Backup_alpha_20250309_120000.zip"].
Proof. reflexivity. Qed.

End Cancellation.

(* ================================================================== *)
(** * Scheduler: [SyncApp.scheduler_loop] *)
(* ================================================================== *)

Module Scheduler.

(** What an iteration does besides sleeping. *)
Inductive Effect :=
| QueueLog (text : string)   (* self.queue.put(("log", text)) *)
| StartBackup.               (* Thread(target=logic.run_backup,
                                       args=(True,)).start() *)

(** What an iteration reads: the clock, the configured times and the
    number of live threads. *)
Record Poll := {
  now : Naming.Timestamp;
  scheduled : list string;
  active_count : nat
}.

(** [now.strftime("%H:%M")] *)
Definition strftime_hm (t : Naming.Timestamp) : string :=
  Naming.dec 2 (Naming.hour t) ++ ":" ++ Naming.dec 2 (Naming.minute t).

(** The body of [while True]: the new [last_run_minute] and the effects. *)
Definition iteration (last_run_minute : string) (p : Poll)
    : string * list Effect :=
  let current_hm := strftime_hm (now p) in
  if PyStr.mem current_hm (scheduled p) &&
     negb (String.eqb current_hm last_run_minute)
  then
    (current_hm,
     QueueLog ("⏰ Auto-Backup triggered at " ++ current_hm) ::
     (if (active_count p <? 5)%nat then [StartBackup] else []))
  else (last_run_minute, []).

(** The loop over the first polls, with the effects of each. *)
Fixpoint iterations (last_run_minute : string) (polls : list Poll)
    : string * list (list Effect) :=
  match polls with
  | [] => (last_run_minute, [])
  | p :: rest =>
      let (last1, effects) := iteration last_run_minute p in
      let (last2, others) := iterations last1 rest in
      (last2, effects :: others)
  end.

Definition scheduler_loop (polls : list Poll)
    : string * list (list Effect) :=
  iterations "" polls.

Definition fired (effects : list Effect) : bool :=
  match effects with [] => false | _ :: _ => true end.

(** An iteration that fires records its minute. *)
Lemma iteration_fired last p :
  fired (snd (iteration last p)) = true ->
  fst (iteration last p) = strftime_hm (now p) /\
  PyStr.mem (strftime_hm (now p)) (scheduled p) = true /\
  strftime_hm (now p) <> last.
Proof.
  unfold iteration.
  destruct (PyStr.mem _ _) eqn:Em; cbn [andb fst snd fired];
    [|discriminate].
  destruct (String.eqb _ last) eqn:Ee; cbn [negb fst snd fired];
    [discriminate|].
  intros _. apply String.eqb_neq in Ee. auto.
Qed.

(** An iteration in the minute recorded last does nothing. *)
Lemma iteration_same_minute last p :
  strftime_hm (now p) = last -> iteration last p = (last, []).
Proof.
  intros <-. unfold iteration.
  now rewrite String.eqb_refl, andb_false_r.
Qed.

(** Within one minute the loop fires at most once: after an iteration that
    fired, the iterations that read the same minute do nothing. *)
Lemma fires_once_per_minute last p polls :
  fired (snd (iteration last p)) = true ->
  Forall (fun p' => strftime_hm (now p') = strftime_hm (now p)) polls ->
  snd (iterations (fst (iteration last p)) polls) =
  map (fun _ => []) polls.
Proof.
  intros Hf Hall. apply iteration_fired in Hf as (-> & _ & _).
  induction Hall as [|p' rest Hp' _ IH]; [reflexivity|].
  cbn [iterations]. rewrite (iteration_same_minute _ p' Hp').
  destruct (iterations _ rest) as [l others] eqn:E.
  cbn [snd map] in *. now rewrite IH.
Qed.

(** The minute recorded last is cleared by nothing but the firing of
    another scheduled minute: as long as every poll whose minute is
    scheduled reads the recorded minute, nothing fires again. *)
Lemma never_rearms last polls :
  Forall (fun p => PyStr.mem (strftime_hm (now p)) (scheduled p) = true ->
                   strftime_hm (now p) = last) polls ->
  iterations last polls = (last, map (fun _ => []) polls).
Proof.
  induction 1 as [|p rest Hp _ IH]; [reflexivity|].
  cbn [iterations].
  assert (E : iteration last p = (last, [])).
  { unfold iteration. destruct (PyStr.mem _ _) eqn:Em; [|reflexivity].
    rewrite (Hp eq_refl), String.eqb_refl. reflexivity. }
  rewrite E, IH. reflexivity.
Qed.

Definition at_time (d h m s : nat) : Poll := {|
  now := {| Naming.year := 2025; Naming.month := 3; Naming.day := d;
            Naming.hour := h; Naming.minute := m; Naming.second := s |};
  scheduled := ["10:00"];
  active_count := 2
|}.

(** C7, the code at the failing input. With the single scheduled time
    [10:00], the loop fires at 10:00:00 and not again at 10:00:10; the
    clock then moves away (10:01) and, a day later, returns to 10:00, and
    the loop does not fire: [last_run_minute] still holds [10:00]. *)
Theorem scheduler_does_not_rearm :
  scheduler_loop [at_time 9 10 0 0; at_time 9 10 0 10; at_time 9 10 1 0;
                  at_time 10 9 59 50; at_time 10 10 0 0;
                  at_time 10 10 0 10] =
  ("10:00",
   [[QueueLog "⏰ Auto-Backup triggered at 10:00"; StartBackup];
    []; []; []; []; []]).
Proof. reflexivity. Qed.

(** With two scheduled times the firing of one re-arms the other. *)
Example scheduler_rearms_through_other_time :
  let poll d h m := {| now := {| Naming.year := 2025; Naming.month := 3;
                                 Naming.day := d; Naming.hour := h;
                                 Naming.minute := m; Naming.second := 0 |};
                       scheduled := ["10:00"; "18:30"];
                       active_count := 2 |} in
  map fired (snd (scheduler_loop [poll 9 10 0; poll 9 18 30; poll 10 10 0]))
  = [true; true; true].
Proof. reflexivity. Qed.

End Scheduler.

(* ================================================================== *)
(** * The configuration file: [load_config], [save_config], [set],
      [SyncConfig.__init__] *)
(* ================================================================== *)

Module ConfigStore.

(** ** The values of the dictionary *)

(** A Python [float]: a finite one is a rational number, and [json.load]
    also yields the three special values, for the texts [Infinity],
    [-Infinity] and [NaN]. *)
Inductive PyFloat :=
| Finite (q : Q)
| PosInf
| NegInf
| NaN.

(** What [json.load] can put under a key, and what the program assigns:
    [None], a [bool], an [int], a [float], a [str], a list of [str], or any
    other list or object ([empty] tells whether it has no element). *)
Inductive Value :=
| VNull
| VBool (b : bool)
| VInt (z : Z)
| VFloat (f : PyFloat)
| VStr (s : string)
| VStrings (l : list string)
| VOther (empty : bool).

(** The dictionary [self.config], by the keys the program uses: a key may
    be missing. Other keys that a file may hold are carried along and
    written back as they are; they are left out. *)
Record Dict := {
  drive_path : option Value;
  target_folders : option Value;
  retention_count : option Value;
  compression_level : option Value;
  ignore_patterns : option Value;
  scheduled_times : option Value
}.

Definition DEFAULT_CONFIG : Dict := {|
  drive_path := Some (VStr "");
  target_folders := Some (VStrings [".gemini"; ".antigravity"]);
  retention_count := Some (VInt 2);
  compression_level := Some (VInt 5);
  ignore_patterns :=
    Some (VStrings ["__pycache__"; ".git"; "*.tmp"; "*.log";
                    ".tmp.driveupload"; "desktop.ini"]);
  scheduled_times := Some (VStrings [])
|}.

(** [not value] is [negb (truthy value)]. *)
Definition truthy (v : Value) : bool :=
  match v with
  | VNull => false
  | VBool b => b
  | VInt z => negb (z =? 0)%Z
  | VFloat (Finite q) => negb (Qeq_bool q 0)
  | VFloat _ => true
  | VStr s => negb (String.eqb s "")
  | VStrings l => match l with [] => false | _ :: _ => true end
  | VOther empty => negb empty
  end.

(** [f > n] and [f < n] for a float and an integer: a comparison with
    [NaN] is false. *)
Definition float_gt (f : PyFloat) (n : Z) : bool :=
  match f with
  | Finite q => negb (Qle_bool q (inject_Z n))
  | PosInf => true
  | NegInf | NaN => false
  end.

Definition float_lt (f : PyFloat) (n : Z) : bool :=
  match f with
  | Finite q => negb (Qle_bool (inject_Z n) q)
  | NegInf => true
  | PosInf | NaN => false
  end.

(** [value > n] and [value < n] for an integer [n]: [None] is the
    [TypeError] of a value that is not a number ([True] and [False] count
    as 1 and 0). *)
Definition gt (v : Value) (n : Z) : option bool :=
  match v with
  | VInt z => Some (z >? n)%Z
  | VBool b => Some (Z.b2z b >? n)%Z
  | VFloat f => Some (float_gt f n)
  | VNull | VStr _ | VStrings _ | VOther _ => None
  end.

Definition lt (v : Value) (n : Z) : option bool :=
  match v with
  | VInt z => Some (z <? n)%Z
  | VBool b => Some (Z.b2z b <? n)%Z
  | VFloat f => Some (float_lt f n)
  | VNull | VStr _ | VStrings _ | VOther _ => None
  end.

(** The two [if] statements of [save_config] on the value of
    [retention_count]: the value the key has afterwards, [None] when a
    comparison raises. *)
Definition validate (c : Value) : option Value :=
  match gt c 7 with
  | None => None
  | Some above =>
      let c1 := if above then VInt 7 else c in
      match lt c1 1 with
      | None => None
      | Some below => Some (if below then VInt 1 else c1)
      end
  end.

(** The same on an integer. *)
Definition clamp_retention (r : Z) : Z :=
  let r1 := if (r >? 7)%Z then 7%Z else r in
  if (r1 <? 1)%Z then 1%Z else r1.

(** ** The file *)

(** What [sync_config.json] holds: nothing (no file), something that
    cannot be opened or that [json.load] rejects, a JSON object, or JSON
    text for another value (a list, a number, a string, [true], [false],
    [null]). *)
Inductive FileContent :=
| Absent
| Unparsable
| Json (d : Dict)
| JsonOther.

(** What [load_config] returns: a dictionary or a value of another type. *)
Inductive Loaded :=
| Object (d : Dict)
| NotObject.

(** [load_config] *)
Definition load_config (file : FileContent) : Loaded :=
  match file with
  | Json d => Object d
  | JsonOther => NotObject
  | Unparsable => Object DEFAULT_CONFIG
  | Absent => Object DEFAULT_CONFIG
  end.

(** One execution of [with open(CONFIG_FILE, 'w') as f: json.dump(...)]:
    it completes, or [open] raises (the file is left as it was), or the
    dump raises after the file has been truncated, leaving [remains]. *)
Inductive WriteOutcome :=
| Written
| OpenFails
| DumpFails (remains : FileContent).

(** The dictionary in memory, the file, and what the next attempts to
    write the file will meet (an exhausted list stands for writes that
    complete). *)
Record Store := {
  memory : Dict;
  file : FileContent;
  disk : list WriteOutcome
}.

Definition next_write (st : Store) : WriteOutcome := hd Written (disk st).

(** The assignment [self.config[key] = value] of [set], per key. *)
Inductive Setting :=
| SetDrivePath (v : string)
| SetTargetFolders (v : list string)
| SetIgnorePatterns (v : list string)
| SetScheduledTimes (v : list string)
| SetRetentionCount (v : Z).

Definition with_drive_path (v : Value) (c : Dict) : Dict :=
  {| drive_path := Some v; target_folders := target_folders c;
     retention_count := retention_count c;
     compression_level := compression_level c;
     ignore_patterns := ignore_patterns c;
     scheduled_times := scheduled_times c |}.

Definition with_retention (v : Value) (c : Dict) : Dict :=
  {| drive_path := drive_path c; target_folders := target_folders c;
     retention_count := Some v;
     compression_level := compression_level c;
     ignore_patterns := ignore_patterns c;
     scheduled_times := scheduled_times c |}.

Definition assign (s : Setting) (c : Dict) : Dict :=
  match s with
  | SetDrivePath v => with_drive_path (VStr v) c
  | SetTargetFolders v =>
      {| drive_path := drive_path c; target_folders := Some (VStrings v);
         retention_count := retention_count c;
         compression_level := compression_level c;
         ignore_patterns := ignore_patterns c;
         scheduled_times := scheduled_times c |}
  | SetIgnorePatterns v =>
      {| drive_path := drive_path c; target_folders := target_folders c;
         retention_count := retention_count c;
         compression_level := compression_level c;
         ignore_patterns := Some (VStrings v);
         scheduled_times := scheduled_times c |}
  | SetScheduledTimes v =>
      {| drive_path := drive_path c; target_folders := target_folders c;
         retention_count := retention_count c;
         compression_level := compression_level c;
         ignore_patterns := ignore_patterns c;
         scheduled_times := Some (VStrings v) |}
  | SetRetentionCount v => with_retention (VInt v) c
  end.

(** The write of [save_config], of the dictionary [m]. [false] stands for
    the exception. *)
Definition write_file (m : Dict) (st : Store) : bool * Store :=
  match next_write st with
  | Written =>
      (true, {| memory := m; file := Json m; disk := tl (disk st) |})
  | OpenFails =>
      (false, {| memory := m; file := file st; disk := tl (disk st) |})
  | DumpFails remains =>
      (false, {| memory := m; file := remains; disk := tl (disk st) |})
  end.

(** [save_config]: [self.config["retention_count"]] raises [KeyError] when
    the key is missing and the comparison raises [TypeError] when the value
    is not a number, in both cases before the file is opened; otherwise the
    dictionary is validated in place and written. [false] stands for the
    exception. *)
Definition save_config (st : Store) : bool * Store :=
  match retention_count (memory st) with
  | None => (false, st)
  | Some c =>
      match validate c with
      | None => (false, st)
      | Some c' => write_file (with_retention c' (memory st)) st
      end
  end.

(** [set]: the assignment, then [save_config]. *)
Definition set (s : Setting) (st : Store) : bool * Store :=
  save_config {| memory := assign s (memory st); file := file st;
                 disk := disk st |}.

(** A sequence of [set] calls outside any [try]: it stops at the first
    exception. *)
Fixpoint set_all (l : list Setting) (st : Store) : bool * Store :=
  match l with
  | [] => (true, st)
  | s :: rest =>
      let (ok, st') := set s st in
      if ok then set_all rest st' else (false, st')
  end.

(** ** Construction *)

(** [detect_drive_path]: the value given to [drive_path]. [sep] is [os.sep],
    [path_exists] is [os.path.exists]. *)
Definition possible_paths : list string := ["G:\Mój dysk"; "G:\My Drive"].

Fixpoint first_existing (path_exists : string -> bool) (sep : string)
    (paths : list string) : option string :=
  match paths with
  | [] => None
  | path :: rest =>
      if path_exists path then Some (path ++ sep ++ "AntigravitySync")
      else first_existing path_exists sep rest
  end.

Definition detect_drive_path (path_exists : string -> bool) (sep : string)
    : string :=
  match first_existing path_exists sep possible_paths with
  | Some p => p
  | None => "G:\Mój dysk\AntigravitySync"
  end.

(** The exceptions of [self.config["drive_path"]]. *)
Inductive Exn := KeyError | TypeError.

Inductive Outcome (A : Type) :=
| Ok (a : A)
| Raises (e : Exn).

Arguments Ok {A} a.
Arguments Raises {A} e.

(** The instance fields of [SyncConfig]. *)
Record Instance := {
  config : Dict;
  current_user : string;
  hostname : string;
  base_user_path : string;
  file_prefix : string
}.

(** [SyncConfig.__init__], [user] and [host] being what
    [getpass.getuser()] and [socket.gethostname()] have returned: the
    subscript raises [TypeError] on a value that is not a dictionary and
    [KeyError] on a dictionary without the key. The detected path is
    assigned in memory and not saved. *)
Definition startup (content : FileContent) (path_exists : string -> bool)
    (sep user host : string) : Outcome Instance :=
  match load_config content with
  | NotObject => Raises TypeError
  | Object loaded =>
      match drive_path loaded with
      | None => Raises KeyError
      | Some p =>
          Ok {| config :=
                  if truthy p then loaded
                  else with_drive_path
                         (VStr (detect_drive_path path_exists sep)) loaded;
                current_user := user;
                hostname := host;
                base_user_path := "C:\Users\" ++ user;
                file_prefix := "Antigravity_Backup" |}
      end
  end.

(** ** Facts *)

Lemma clamp_retention_range r : (1 <= clamp_retention r <= 7)%Z.
Proof.
  unfold clamp_retention.
  destruct (r >? 7)%Z eqn:E1.
  - simpl. lia.
  - destruct (r <? 1)%Z eqn:E2; lia.
Qed.

Lemma clamp_retention_id r : (1 <= r <= 7)%Z -> clamp_retention r = r.
Proof.
  intros H. unfold clamp_retention.
  destruct (r >? 7)%Z eqn:E1; [lia|]. destruct (r <? 1)%Z eqn:E2; lia.
Qed.

Lemma validate_int r : validate (VInt r) = Some (VInt (clamp_retention r)).
Proof.
  unfold validate, clamp_retention. cbn [gt].
  destruct (r >? 7)%Z; cbn [lt]; [reflexivity|].
  now destruct (r <? 1)%Z.
Qed.

(** A value that passes both comparisons of [save_config]: it is neither
    above 7 nor below 1. *)
Definition validated (c : Value) : Prop :=
  gt c 7 = Some false /\ lt c 1 = Some false.

Lemma validate_validated c c' : validate c = Some c' -> validated c'.
Proof.
  unfold validate, validated.
  destruct (gt c 7) as [[|]|] eqn:Eg; [| |discriminate].
  - cbn. intros H. injection H as <-. now split.
  - destruct (lt c 1) as [[|]|] eqn:El; [| |discriminate].
    + intros H. injection H as <-. now split.
    + intros H. injection H as <-. now split.
Qed.

Lemma validated_validate c : validated c -> validate c = Some c.
Proof. intros [Hg Hl]. unfold validate. now rewrite Hg, Hl. Qed.

Lemma validate_idem c c' : validate c = Some c' -> validate c' = Some c'.
Proof. intros H. now apply validated_validate, validate_validated with c. Qed.

(** The validated values: an integer or a float within 1..7, [True], and
    [NaN], which fails both comparisons. *)
Lemma validated_cases c :
  validated c <->
  (exists z, c = VInt z /\ (1 <= z <= 7)%Z) \/
  c = VBool true \/
  (exists q, c = VFloat (Finite q) /\ Qle 1 q /\ Qle q 7) \/
  c = VFloat NaN.
Proof.
  unfold validated. split.
  - intros [Hg Hl]. destruct c as [|b|z|f|s|l|e]; try discriminate.
    + right. left. destruct b; [reflexivity | discriminate].
    + left. exists z. split; [reflexivity|]. cbn in Hg, Hl.
      injection Hg as Hg. injection Hl as Hl. lia.
    + destruct f as [q| | |]; try discriminate.
      * right. right. left. exists q. split; [reflexivity|].
        cbn in Hg, Hl. injection Hg as Hg. injection Hl as Hl.
        apply negb_false_iff in Hg, Hl.
        apply Qle_bool_iff in Hg, Hl. now split.
      * now right; right; right.
  - intros [(z & -> & Hz)|[->|[(q & -> & H1 & H7)| ->]]]; cbn.
    + split; f_equal; lia.
    + now split.
    + split; f_equal; apply negb_false_iff, Qle_bool_iff; assumption.
    + now split.
Qed.

Definition retention_written (d : Dict) : Prop :=
  exists c, retention_count d = Some c /\ validated c.

Lemma with_retention_same c m :
  retention_count m = Some c -> with_retention c m = m.
Proof. destruct m. cbn. now intros ->. Qed.

Lemma with_retention_twice c c' m :
  with_retention c' (with_retention c m) = with_retention c' m.
Proof. reflexivity. Qed.

(** A setting of another key than [retention_count]. *)
Definition other_key (s : Setting) : Prop :=
  forall v, s <> SetRetentionCount v.

Lemma assign_retention s m :
  other_key s -> retention_count (assign s m) = retention_count m.
Proof. intros H. destruct s; try reflexivity. now elim (H v). Qed.

Lemma assign_with_retention s c m :
  other_key s ->
  assign s (with_retention c m) = with_retention c (assign s m).
Proof. intros H. destruct s; try reflexivity. now elim (H v). Qed.

(** [set] when the validation passes. *)
Lemma set_validated s st c c' :
  retention_count (assign s (memory st)) = Some c ->
  validate c = Some c' ->
  set s st = write_file (with_retention c' (assign s (memory st))) st.
Proof.
  intros Hr Hv. unfold set, save_config. cbn [memory].
  rewrite Hr, Hv. reflexivity.
Qed.

(** [set] when the key is missing or its value is not a number. *)
Lemma set_raises s st :
  (retention_count (assign s (memory st)) = None \/
   exists c, retention_count (assign s (memory st)) = Some c /\
             validate c = None) ->
  set s st = (false, {| memory := assign s (memory st); file := file st;
                        disk := disk st |}).
Proof.
  unfold set, save_config. cbn [memory].
  intros [->|(c & -> & ->)]; reflexivity.
Qed.

(** Every write leaves the file untouched, or with a validated dictionary,
    or as a failed dump left it. *)
Definition file_after (st st' : Store) : Prop :=
  file st' = file st \/
  (exists d, file st' = Json d /\ retention_written d) \/
  (exists remains, In (DumpFails remains) (disk st) /\ file st' = remains).

Lemma set_file_after s st :
  file_after st (snd (set s st)) /\
  (forall w, In w (disk (snd (set s st))) -> In w (disk st)).
Proof.
  unfold set, save_config, file_after. cbn [memory].
  destruct (retention_count (assign s (memory st))) as [c|];
    [|split; [now left | trivial]].
  destruct (validate c) as [c'|] eqn:Ev; [|split; [now left | trivial]].
  unfold write_file, next_write. cbn [disk file].
  destruct (disk st) as [|w rest]; cbn [hd tl snd file disk].
  - split; [|trivial]. right. left. eexists. split; [reflexivity|].
    exists c'. split; [reflexivity | now apply validate_validated with c].
  - destruct w as [| |remains]; cbn [snd file disk];
      (split; [|intros w' H; now right]).
    + right. left. eexists. split; [reflexivity|].
      exists c'. split; [reflexivity | now apply validate_validated with c].
    + now left.
    + right. right. exists remains. split; [now left | reflexivity].
Qed.

Lemma file_after_trans st st1 st2 :
  (forall w, In w (disk st1) -> In w (disk st)) ->
  file_after st st1 -> file_after st1 st2 -> file_after st st2.
Proof.
  intros Hd H1 [H2|[H2|(remains & Hin & H2)]].
  - unfold file_after in *. rewrite H2. exact H1.
  - right. now left.
  - right. right. exists remains. split; [now apply Hd | exact H2].
Qed.

Lemma set_all_file_after l :
  forall st,
    file_after st (snd (set_all l st)) /\
    (forall w, In w (disk (snd (set_all l st))) -> In w (disk st)).
Proof.
  induction l as [|s rest IH]; intros st; [split; [now left | trivial]|].
  cbn [set_all]. pose proof (set_file_after s st) as [H1 D1].
  destruct (set s st) as [ok st1]. cbn [snd] in H1, D1.
  destruct ok; [|now split].
  destruct (IH st1) as [H2 D2]. split.
  - now apply file_after_trans with st1.
  - intros w Hw. now apply D1, D2.
Qed.

(** X1. Setting the retention count keeps in memory the count clamped to
    1..7 (1 for a count below 1, 7 for a count above 7, the count itself
    otherwise) and keeps the other keys, whatever happens to the file. When
    the file can be written the call returns and the file holds the
    dictionary in memory; when [open] raises, the file is left as it was
    and the exception escapes [set]; when the dump raises, the file is left
    damaged and the exception escapes [set]. *)
Theorem set_retention_count_clamps (r : Z) (st : Store) :
  let st' := snd (set (SetRetentionCount r) st) in
  retention_count (memory st') = Some (VInt (clamp_retention r)) /\
  (1 <= clamp_retention r <= 7)%Z /\
  ((r < 1)%Z -> clamp_retention r = 1%Z) /\
  ((7 < r)%Z -> clamp_retention r = 7%Z) /\
  ((1 <= r <= 7)%Z -> clamp_retention r = r) /\
  drive_path (memory st') = drive_path (memory st) /\
  target_folders (memory st') = target_folders (memory st) /\
  ignore_patterns (memory st') = ignore_patterns (memory st) /\
  scheduled_times (memory st') = scheduled_times (memory st) /\
  match next_write st with
  | Written =>
      fst (set (SetRetentionCount r) st) = true /\
      file st' = Json (memory st') /\
      load_config (file st') = Object (memory st')
  | OpenFails =>
      fst (set (SetRetentionCount r) st) = false /\ file st' = file st
  | DumpFails remains =>
      fst (set (SetRetentionCount r) st) = false /\ file st' = remains
  end.
Proof.
  cbv zeta.
  rewrite (set_validated (SetRetentionCount r) st (VInt r)
             (VInt (clamp_retention r)) eq_refl (validate_int r)).
  unfold write_file.
  assert (Hlow : (r < 1)%Z -> clamp_retention r = 1%Z).
  { unfold clamp_retention. intros H.
    destruct (r >? 7)%Z eqn:E1; [lia|]. destruct (r <? 1)%Z eqn:E2; lia. }
  assert (Hhigh : (7 < r)%Z -> clamp_retention r = 7%Z).
  { unfold clamp_retention. intros H.
    destruct (r >? 7)%Z eqn:E1; [reflexivity | lia]. }
  destruct (next_write st) as [| |remains]; cbn [fst snd memory file];
    (split; [reflexivity|]);
    (split; [apply clamp_retention_range|]);
    (split; [exact Hlow|]); (split; [exact Hhigh|]);
    (split; [apply clamp_retention_id|]);
    repeat split.
Qed.

(** X2. Whatever settings are applied, in whatever order and whether or not
    one of them raises, the file is left untouched, or it holds the
    dictionary of a write that completed, whose retention count passed the
    validation, or it is what a dump that raised has left of it. A count
    that passed the validation is neither above 7 nor below 1: an integer
    or a float within 1..7, [True], or [NaN], which fails both comparisons
    and is written back as it is. *)
Theorem written_file_in_range (l : list Setting) (st : Store) :
  (file (snd (set_all l st)) = file st \/
   (exists d, file (snd (set_all l st)) = Json d /\
              exists c, retention_count d = Some c /\ validated c) \/
   (exists remains, In (DumpFails remains) (disk st) /\
                 file (snd (set_all l st)) = remains)) /\
  (forall c,
      validated c <->
      (exists z, c = VInt z /\ (1 <= z <= 7)%Z) \/
      c = VBool true \/
      (exists q, c = VFloat (Finite q) /\ Qle 1 q /\ Qle q 7) \/
      c = VFloat NaN).
Proof.
  split; [apply set_all_file_after | apply validated_cases].
Qed.

(** A count read from a file that holds [NaN] is written back. *)
Example nan_is_written_back :
  let d := with_retention (VFloat NaN) DEFAULT_CONFIG in
  set (SetDrivePath "D:\Backups")
      {| memory := d; file := Json d; disk := [] |} =
  (true,
   {| memory := with_drive_path (VStr "D:\Backups") d;
      file := Json (with_drive_path (VStr "D:\Backups") d);
      disk := [] |}).
Proof. reflexivity. Qed.

(** X3. On a dictionary without the key [retention_count] (a file written by
    hand), setting any other key raises [KeyError] after the assignment and
    before the file is opened: the file keeps its content while the
    dictionary in memory has changed. *)
Theorem set_without_retention_key (s : Setting) (st : Store) :
  retention_count (memory st) = None ->
  (forall v, s <> SetRetentionCount v) ->
  fst (set s st) = false /\
  file (snd (set s st)) = file st /\
  memory (snd (set s st)) = assign s (memory st).
Proof.
  intros Hr Hs. rewrite set_raises; [repeat split|].
  left. now rewrite assign_retention.
Qed.

Definition hand_written : Dict := {|
  drive_path := Some (VStr "D:\Backups");
  target_folders := None;
  retention_count := None;
  compression_level := None;
  ignore_patterns := None;
  scheduled_times := None
|}.

Lemma set_without_retention_key_witness :
  fst (set (SetDrivePath "E:\Sync")
           {| memory := hand_written; file := Json hand_written;
              disk := [] |}) = false /\
  file (snd (set (SetDrivePath "E:\Sync")
                 {| memory := hand_written; file := Json hand_written;
                    disk := [] |}))
  = Json hand_written.
Proof.
  destruct (set_without_retention_key (SetDrivePath "E:\Sync")
              {| memory := hand_written; file := Json hand_written;
                 disk := [] |})
    as (A & B & _).
  - reflexivity.
  - intros v H. discriminate.
  - split; [exact A | exact B].
Defined.

Lemma detect_drive_path_nonempty path_exists sep :
  detect_drive_path path_exists sep <> "".
Proof.
  unfold detect_drive_path, possible_paths. cbn [first_existing].
  destruct (path_exists _); [discriminate|].
  destruct (path_exists _); discriminate.
Qed.

(** X4. Construction of the configuration (the user and host names having
    been read) raises exactly in two cases: the file holds JSON text for a
    value that is not an object ([TypeError]), or it holds an object
    without the key [drive_path] ([KeyError]); an absent or unreadable
    file gives the defaults. After a successful
    construction the value of [drive_path] is never empty (nor otherwise
    false): a value of the file that is not false is kept as it is, with
    the rest of the dictionary, and a false one (the empty text of the
    defaults, [null], 0, an empty list) is replaced in memory by the
    detected path, which is not empty. *)
Theorem startup_drive_path
    (content : FileContent) (path_exists : string -> bool)
    (sep user host : string) :
  (forall e,
      startup content path_exists sep user host = Raises e <->
      (e = TypeError /\ content = JsonOther) \/
      (e = KeyError /\ exists d, content = Json d /\ drive_path d = None))
  /\
  (forall c,
      startup content path_exists sep user host = Ok c ->
      exists loaded p v,
        load_config content = Object loaded /\
        drive_path loaded = Some p /\
        drive_path (config c) = Some v /\
        truthy v = true /\ v <> VStr "" /\
        (truthy p = true -> v = p /\ config c = loaded) /\
        (truthy p = false ->
         v = VStr (detect_drive_path path_exists sep) /\
         config c =
           with_drive_path (VStr (detect_drive_path path_exists sep))
                           loaded)).
Proof.
  unfold startup. split.
  - intros e. split.
    + destruct content as [| |d|]; cbn [load_config].
      * cbn. discriminate.
      * cbn. discriminate.
      * destruct (drive_path d) eqn:E; [discriminate|].
        intros H. injection H as <-. right. split; [reflexivity|].
        now exists d.
      * intros H. injection H as <-. now left.
    + intros [[-> ->]|(-> & d & -> & E)]; cbn [load_config];
        [reflexivity | now rewrite E].
  - intros c. destruct (load_config content) as [loaded|]; [|discriminate].
    destruct (drive_path loaded) as [p|] eqn:E; [|discriminate].
    intros H. injection H as <-. cbn [config].
    assert (Hd : truthy (VStr (detect_drive_path path_exists sep)) = true).
    { cbn. apply negb_true_iff, String.eqb_neq.
      apply detect_drive_path_nonempty. }
    destruct (truthy p) eqn:Ep.
    + exists loaded, p, p. repeat split; try assumption;
        try discriminate; try congruence.
      intros ->. discriminate.
    + exists loaded, p, (VStr (detect_drive_path path_exists sep)).
      repeat split; try assumption; try discriminate; try congruence.
      intros H. injection H as H.
      now apply (detect_drive_path_nonempty path_exists sep).
Qed.

Example startup_non_object :
  startup JsonOther (fun _ => false) "\" "ana" "alpha" = Raises TypeError.
Proof. reflexivity. Qed.

End ConfigStore.

(* ================================================================== *)
(** * The settings form: [SettingsDialog.save_settings] *)
(* ================================================================== *)

Module Settings.

Import ConfigStore.

(** The form is modelled for ASCII input: on other text [\d] also matches
    the decimal digits of other scripts and [strip] removes the blanks of
    Unicode, which the byte strings of the embedding do not show. *)
Fixpoint is_ascii (s : string) : bool :=
  match s with
  | EmptyString => true
  | String c rest => (nat_of_ascii c <? 128)%nat && is_ascii rest
  end.

(** [\d] on the ASCII range. *)
Definition is_digit (c : ascii) : bool :=
  ((48 <=? nat_of_ascii c) && (nat_of_ascii c <=? 57))%nat.

(** [re.match(r"^\d{2}:\d{2}$", t)]: two digits, a colon, two digits, then
    the end of the text or a last newline ([$] matches before it). *)
Definition hhmm_match (t : string) : bool :=
  match t with
  | String d1 (String d2 (String c (String d3 (String d4 rest)))) =>
      is_digit d1 && is_digit d2 && Ascii.eqb c ":" &&
      is_digit d3 && is_digit d4 &&
      match rest with
      | EmptyString => true
      | String n EmptyString => Ascii.eqb n "010"
      | String _ (String _ _) => false
      end
  | _ => false
  end.

(** [[x.strip() for x in text.split(",") if x.strip()]] *)
Definition parse_list (text : string) : list string :=
  filter (fun x => negb (String.eqb x ""))
         (map PyStr.strip (PyStr.split "," text)).

(** The loop that builds [valid_times]. *)
Definition valid_times (raw : string) : list string :=
  filter hhmm_match (map PyStr.strip (PyStr.split "," raw)).

(** The texts of the form; [spin_retention] is the result of [int(...)] on
    the retention field, [None] when it raises. *)
Record Form := {
  entry_path : string;
  textbox_folders : string;
  textbox_ignore : string;
  entry_schedule : string;
  spin_retention : option Z
}.

Definition ascii_form (f : Form) : Prop :=
  is_ascii (entry_path f) = true /\
  is_ascii (textbox_folders f) = true /\
  is_ascii (textbox_ignore f) = true /\
  is_ascii (entry_schedule f) = true.

(** The four [set] calls of lines 408-421, which are outside any [try]. *)
Definition form_settings (f : Form) : list Setting :=
  [SetDrivePath (PyStr.strip (entry_path f));
   SetTargetFolders (parse_list (textbox_folders f));
   SetIgnorePatterns (parse_list (textbox_ignore f));
   SetScheduledTimes (valid_times (entry_schedule f))].

(** [save_settings]: the four [set] calls, then the retention count under
    [try ... except: pass], which swallows also what its [set] raises.
    [false] stands for an exception that escapes. *)
Definition save_settings (f : Form) (st : Store) : bool * Store :=
  let (ok, st1) := set_all (form_settings f) st in
  if ok then
    match spin_retention f with
    | Some r => (true, snd (set (SetRetentionCount r) st1))
    | None => (true, st1)
    end
  else (false, st1).

(** The number that two digit characters write. *)
Definition two_digits (d1 d2 : ascii) : nat :=
  (10 * (nat_of_ascii d1 - 48) + (nat_of_ascii d2 - 48))%nat.

(** ** Facts *)

Fixpoint last_char (s : string) : option ascii :=
  match s with
  | EmptyString => None
  | String c EmptyString => Some c
  | String _ rest => last_char rest
  end.

Lemma rstrip_last s c :
  last_char (PyStr.rstrip s) = Some c -> PyStr.isspace c = false.
Proof.
  induction s as [|a rest IH]; [discriminate|].
  cbn [PyStr.rstrip].
  destruct (PyStr.rstrip rest) as [|b r] eqn:E.
  - destruct (PyStr.isspace a) eqn:Ea; [discriminate|].
    cbn. intros H. now injection H as <-.
  - intros H. apply IH. exact H.
Qed.

Lemma strip_last s c :
  last_char (PyStr.strip s) = Some c -> PyStr.isspace c = false.
Proof. apply rstrip_last. Qed.

Lemma dec_two n :
  Naming.dec 2 n =
  String (Naming.digit (n / 10)) (String (Naming.digit n) EmptyString).
Proof. reflexivity. Qed.

Lemma is_digit_digit n : is_digit (Naming.digit n) = true.
Proof.
  unfold is_digit, Naming.digit.
  pose proof (Nat.mod_upper_bound n 10 ltac:(lia)) as H.
  rewrite nat_ascii_embedding by lia.
  apply andb_true_iff. split; apply Nat.leb_le; lia.
Qed.

Lemma digit_of_char d :
  is_digit d = true -> Naming.digit (nat_of_ascii d - 48) = d.
Proof.
  unfold is_digit, Naming.digit. intros H.
  apply andb_true_iff in H as [H1 H2]. apply Nat.leb_le in H1, H2.
  rewrite Nat.mod_small by lia.
  replace (48 + (nat_of_ascii d - 48))%nat with (nat_of_ascii d) by lia.
  apply ascii_nat_embedding.
Qed.

Lemma dec_two_digits d1 d2 :
  is_digit d1 = true -> is_digit d2 = true ->
  Naming.dec 2 (two_digits d1 d2) = String d1 (String d2 EmptyString) /\
  (two_digits d1 d2 < 100)%nat.
Proof.
  intros H1 H2. unfold two_digits.
  assert (B1 : (nat_of_ascii d1 - 48 < 10)%nat).
  { unfold is_digit in H1. apply andb_true_iff in H1 as [_ H].
    apply Nat.leb_le in H. lia. }
  assert (B2 : (nat_of_ascii d2 - 48 < 10)%nat).
  { unfold is_digit in H2. apply andb_true_iff in H2 as [_ H].
    apply Nat.leb_le in H. lia. }
  set (a := (nat_of_ascii d1 - 48)%nat) in *.
  set (b := (nat_of_ascii d2 - 48)%nat) in *.
  split; [|lia].
  rewrite dec_two.
  assert (Ediv : ((10 * a + b) / 10 = a)%nat)
    by (symmetry; apply (Nat.div_unique _ 10 a b); lia).
  assert (Emod : ((10 * a + b) mod 10 = b)%nat)
    by (symmetry; apply (Nat.mod_unique _ 10 a b); lia).
  rewrite Ediv. unfold Naming.digit at 2. rewrite Emod.
  subst a b. rewrite (digit_of_char d1 H1).
  pose proof (digit_of_char d2 H2) as E2. unfold Naming.digit in E2.
  rewrite Nat.mod_small in E2 by exact B2. now rewrite E2.
Qed.

Lemma dec_injective w n m :
  (n < 10 ^ w)%nat -> (m < 10 ^ w)%nat ->
  Naming.dec w n = Naming.dec w m -> n = m.
Proof.
  intros Hn Hm E. apply Nat.compare_eq_iff.
  rewrite <- (Naming.dec_compare w n m Hn Hm), E.
  apply PySort.string_compare_refl.
Qed.

(** A text kept by the validation is five characters, [DD:DD]. *)
Lemma valid_times_five raw t :
  In t (valid_times raw) ->
  exists d1 d2 d3 d4,
    t = String d1 (String d2 (String ":" (String d3 (String d4 "")))) /\
    is_digit d1 = true /\ is_digit d2 = true /\
    is_digit d3 = true /\ is_digit d4 = true.
Proof.
  unfold valid_times. rewrite filter_In, in_map_iff.
  intros [(x & <- & _) Hm].
  destruct (PyStr.strip x) as [|d1 [|d2 [|c [|d3 [|d4 rest]]]]] eqn:E;
    try discriminate.
  cbn [hhmm_match] in Hm.
  apply andb_true_iff in Hm as [Hm Hrest].
  apply andb_true_iff in Hm as [Hm H4].
  apply andb_true_iff in Hm as [Hm H3].
  apply andb_true_iff in Hm as [Hm Hc].
  apply andb_true_iff in Hm as [H1 H2].
  apply Ascii.eqb_eq in Hc. subst c.
  destruct rest as [|n [|? ?]]; try discriminate.
  - now exists d1, d2, d3, d4.
  - exfalso. apply Ascii.eqb_eq in Hrest. subst n.
    assert (L : last_char (PyStr.strip x) = Some "010"%char)
      by now rewrite E.
    apply strip_last in L. discriminate.
Qed.

Lemma strftime_hm_digits now :
  Scheduler.strftime_hm now =
  String (Naming.digit (Naming.hour now / 10))
    (String (Naming.digit (Naming.hour now))
      (String ":"
        (String (Naming.digit (Naming.minute now / 10))
          (String (Naming.digit (Naming.minute now)) "")))).
Proof. reflexivity. Qed.

Lemma hhmm_match_digits a b c d :
  hhmm_match
    (String (Naming.digit a)
      (String (Naming.digit b)
        (String ":" (String (Naming.digit c) (String (Naming.digit d) "")))))
  = true.
Proof. unfold hhmm_match. now rewrite !is_digit_digit. Qed.

(** X5. The text the scheduler reads from the clock always has the shape the
    form accepts; and a text the form keeps (of an ASCII entry) is the clock
    text of some minute of the day exactly when its hour is below 24 and its
    minute below 60, so an entry such as [24:00] or [99:99] is saved but
    never fires. *)
Theorem valid_times_and_clock :
  (forall now, hhmm_match (Scheduler.strftime_hm now) = true) /\
  (forall raw t,
      is_ascii raw = true ->
      In t (valid_times raw) ->
      exists h m,
        t = Naming.dec 2 h ++ ":" ++ Naming.dec 2 m /\
        String.length t = 5%nat /\
        ((exists now,
             Scheduler.strftime_hm now = t /\
             (Naming.hour now < 24)%nat /\ (Naming.minute now < 60)%nat) <->
         (h < 24 /\ m < 60)%nat)).
Proof.
  split.
  - intros now. rewrite strftime_hm_digits. apply hhmm_match_digits.
  - intros raw t _ Ht.
    destruct (valid_times_five raw t Ht)
      as (d1 & d2 & d3 & d4 & -> & H1 & H2 & H3 & H4).
    destruct (dec_two_digits d1 d2 H1 H2) as [Eh Bh].
    destruct (dec_two_digits d3 d4 H3 H4) as [Em Bm].
    exists (two_digits d1 d2), (two_digits d3 d4).
    split; [now rewrite Eh, Em|]. split; [reflexivity|].
    split.
    + intros (now & E & Hh & Hm).
      rewrite strftime_hm_digits in E.
      assert (A1 : Naming.digit (Naming.hour now / 10) = d1) by congruence.
      assert (A2 : Naming.digit (Naming.hour now) = d2) by congruence.
      assert (A3 : Naming.digit (Naming.minute now / 10) = d3)
        by congruence.
      assert (A4 : Naming.digit (Naming.minute now) = d4) by congruence.
      assert (E1 : Naming.dec 2 (Naming.hour now) =
                   Naming.dec 2 (two_digits d1 d2))
        by (rewrite Eh, dec_two, A1, A2; reflexivity).
      assert (E2 : Naming.dec 2 (Naming.minute now) =
                   Naming.dec 2 (two_digits d3 d4))
        by (rewrite Em, dec_two, A3, A4; reflexivity).
      apply dec_injective in E1;
        [|replace (10 ^ 2)%nat with 100%nat by reflexivity; lia
         |replace (10 ^ 2)%nat with 100%nat by reflexivity; lia].
      apply dec_injective in E2;
        [|replace (10 ^ 2)%nat with 100%nat by reflexivity; lia
         |replace (10 ^ 2)%nat with 100%nat by reflexivity; lia].
      lia.
    + intros [Hh Hm].
      exists {| Naming.year := 2025; Naming.month := 1; Naming.day := 1;
                Naming.hour := two_digits d1 d2;
                Naming.minute := two_digits d3 d4; Naming.second := 0 |}.
      unfold Scheduler.strftime_hm. cbn [Naming.hour Naming.minute].
      rewrite Eh, Em. repeat split; assumption.
Qed.

Example valid_times_example :
  valid_times " 10:00, 9:30 ,24:00,18:30x, 07:05 " =
  ["10:00"; "24:00"; "07:05"].
Proof. reflexivity. Qed.

(** The next [n] attempts to write the file complete. *)
Definition writes_succeed (n : nat) (st : Store) : Prop :=
  forall k, (k < n)%nat -> nth k (disk st) Written = Written.

Lemma nth_tl {A : Type} k (l : list A) d : nth k (tl l) d = nth (S k) l d.
Proof. destruct l; [now destruct k | reflexivity]. Qed.

Lemma skipn_tl {A : Type} n (l : list A) : skipn n (tl l) = skipn (S n) l.
Proof. destruct l; [now destruct n | reflexivity]. Qed.

Lemma next_write_nth st : next_write st = nth 0 (disk st) Written.
Proof. unfold next_write. now destruct (disk st). Qed.

Lemma write_file_written m st :
  next_write st = Written ->
  write_file m st =
  (true, {| memory := m; file := Json m; disk := tl (disk st) |}).
Proof. unfold write_file. now intros ->. Qed.

Lemma write_file_fails m st :
  next_write st <> Written -> fst (write_file m st) = false.
Proof.
  unfold write_file. destruct (next_write st); [now intros H | reflexivity..].
Qed.

Definition assign_all (l : list Setting) (m : Dict) : Dict :=
  fold_left (fun m s => assign s m) l m.

Lemma assign_all_with_retention l :
  forall c m,
    Forall other_key l ->
    assign_all l (with_retention c m) = with_retention c (assign_all l m).
Proof.
  induction l as [|s rest IH]; intros c m Hl; [reflexivity|].
  inversion Hl as [|? ? Hs Hrest]; subst. cbn [assign_all fold_left].
  rewrite assign_with_retention by exact Hs. now apply IH.
Qed.

(** A run of [set] calls on other keys whose writes all complete. *)
Lemma set_all_written l :
  forall st c c',
    Forall other_key l -> l <> [] ->
    retention_count (memory st) = Some c ->
    validate c = Some c' ->
    writes_succeed (length l) st ->
    set_all l st =
    (true,
     {| memory := with_retention c' (assign_all l (memory st));
        file := Json (with_retention c' (assign_all l (memory st)));
        disk := skipn (length l) (disk st) |}).
Proof.
  induction l as [|s rest IH]; intros st c c' Hl Hne Hr Hv Hw;
    [now elim Hne|].
  inversion Hl as [|? ? Hs Hrest]; subst. cbn [set_all].
  rewrite (set_validated s st c c')
    by first [assumption | now rewrite assign_retention].
  rewrite write_file_written
    by (rewrite next_write_nth; apply Hw; cbn; lia).
  destruct rest as [|s2 rest2].
  - cbn [set_all assign_all fold_left length].
    now destruct (disk st).
  - rewrite (IH _ c' c');
      [ | exact Hrest | discriminate | reflexivity
        | exact (validate_idem _ _ Hv) | ].
    + cbn [memory disk]. f_equal.
      rewrite assign_all_with_retention by exact Hrest.
      rewrite with_retention_twice, skipn_tl. reflexivity.
    + intros k Hk. cbn [disk]. rewrite nth_tl.
      apply Hw. cbn [length] in *. lia.
Qed.

(** The same when one of the writes fails: the exception escapes. *)
Lemma set_all_fails l :
  forall st c c',
    Forall other_key l ->
    retention_count (memory st) = Some c ->
    validate c = Some c' ->
    (exists k, (k < length l)%nat /\ nth k (disk st) Written <> Written) ->
    fst (set_all l st) = false.
Proof.
  induction l as [|s rest IH]; intros st c c' Hl Hr Hv (k & Hk & Hf);
    [cbn in Hk; lia|].
  inversion Hl as [|? ? Hs Hrest]; subst. cbn [set_all].
  rewrite (set_validated s st c c')
    by first [assumption | now rewrite assign_retention].
  destruct (next_write st) eqn:En.
  - rewrite write_file_written by exact En.
    apply (IH _ c' c'); [exact Hrest | reflexivity
                        | exact (validate_idem _ _ Hv) |].
    destruct k as [|k]; [rewrite next_write_nth in En; now elim Hf|].
    exists k. split; [cbn [length] in Hk; lia|].
    cbn [disk]. now rewrite nth_tl.
  - pose proof (write_file_fails (with_retention c' (assign s (memory st)))
                  st ltac:(rewrite En; discriminate)) as Hw.
    destruct (write_file _ st) as [ok st1]. cbn [fst] in Hw. now subst ok.
  - pose proof (write_file_fails (with_retention c' (assign s (memory st)))
                  st ltac:(rewrite En; discriminate)) as Hw.
    destruct (write_file _ st) as [ok st1]. cbn [fst] in Hw. now subst ok.
Qed.

Lemma form_settings_other f : Forall other_key (form_settings f).
Proof. repeat constructor; intros v H; discriminate. Qed.

(** The dictionary after the four assignments. *)
Definition form_dict (f : Form) (m : Dict) : Dict := {|
  drive_path := Some (VStr (PyStr.strip (entry_path f)));
  target_folders := Some (VStrings (parse_list (textbox_folders f)));
  retention_count := retention_count m;
  compression_level := compression_level m;
  ignore_patterns := Some (VStrings (parse_list (textbox_ignore f)));
  scheduled_times := Some (VStrings (valid_times (entry_schedule f)))
|}.

Lemma assign_all_form f m : assign_all (form_settings f) m = form_dict f m.
Proof. reflexivity. Qed.

(** The file after the [set] of the retention count, whose exception is
    swallowed. *)
Definition file_after_count (w : WriteOutcome) (before after : Dict)
    : FileContent :=
  match w with
  | Written => Json after
  | OpenFails => Json before
  | DumpFails remains => remains
  end.

(** X6. Saving the form (ASCII input), by cases.
    When the retention count in memory is a number and the writes of the
    four [set] calls outside the [try] complete, nothing escapes: memory
    holds the trimmed path, the parsed lists, the times that pass the
    validation and, as retention count, the clamped number of the retention
    field, or the validated previous count when the field is not a number;
    the file holds the dictionary in memory, unless the write of the
    retention count failed, which the [try] swallows: then the file holds
    the dictionary with the previous count (when [open] raised) or what the
    failed dump left.
    When one of those four writes fails, the exception escapes
    [save_settings].
    When the key [retention_count] is missing or its value is not a number,
    the first [set] raises before the file is opened: the exception
    escapes, the file keeps its content and only the path has changed in
    memory. *)
Theorem save_settings_outcome (f : Form) (st : Store) :
  ascii_form f ->
  let run := save_settings f st in
  let st' := snd run in
  (forall c c',
      retention_count (memory st) = Some c ->
      validate c = Some c' ->
      (writes_succeed 4 st ->
       fst run = true /\
       memory st' =
         with_retention
           (match spin_retention f with
            | Some r => VInt (clamp_retention r)
            | None => c'
            end)
           (form_dict f (memory st)) /\
       file st' =
         match spin_retention f with
         | Some r =>
             file_after_count (nth 4 (disk st) Written)
               (with_retention c' (form_dict f (memory st)))
               (memory st')
         | None => Json (memory st')
         end) /\
      ((exists k, (k < 4)%nat /\ nth k (disk st) Written <> Written) ->
       fst run = false)) /\
  ((retention_count (memory st) = None \/
    exists c, retention_count (memory st) = Some c /\ validate c = None) ->
   fst run = false /\
   file st' = file st /\
   memory st' =
     with_drive_path (VStr (PyStr.strip (entry_path f))) (memory st)).
Proof.
  intros _ run st'. subst st' run. split.
  - intros c c' Hr Hv. split.
    + intros Hw. unfold save_settings.
      rewrite (set_all_written (form_settings f) st c c'
                 (form_settings_other f) ltac:(discriminate) Hr Hv Hw).
      rewrite assign_all_form.
      destruct (spin_retention f) as [r|]; cbn [fst snd];
        [|repeat split].
      rewrite (set_validated (SetRetentionCount r) _ (VInt r)
                 (VInt (clamp_retention r)) eq_refl (validate_int r)).
      cbn [memory assign]. rewrite !with_retention_twice.
      unfold write_file, next_write. cbn [disk file form_settings length].
      replace (hd Written (skipn 4 (disk st)))
        with (nth 4 (disk st) Written)
        by (destruct (disk st) as [|w1 [|w2 [|w3 [|w4 [|w5 ws]]]]];
            reflexivity).
      destruct (nth 4 (disk st) Written); cbn [fst snd memory file];
        repeat split.
    + intros Hk. unfold save_settings.
      pose proof (set_all_fails (form_settings f) st c c'
                    (form_settings_other f) Hr Hv Hk) as Hf.
      destruct (set_all (form_settings f) st) as [ok st1].
      cbn [fst] in Hf. now subst ok.
  - intros Hbad. unfold save_settings, form_settings. cbn [set_all].
    rewrite set_raises; [repeat split|].
    cbn [assign with_drive_path retention_count]. exact Hbad.
Qed.

(** A form with a retention count above the range and a time that is not a
    time of the day. *)
Definition filled_form : Form := {|
  entry_path := " D:\Backups ";
  textbox_folders := ".gemini, .antigravity";
  textbox_ignore := "*.tmp, .git";
  entry_schedule := "10:00, 9:30, 24:00";
  spin_retention := Some 12%Z
|}.

Definition fresh_store : Store :=
  {| memory := DEFAULT_CONFIG; file := Absent; disk := [] |}.

Lemma save_settings_outcome_witness :
  ascii_form filled_form /\
  fst (save_settings filled_form fresh_store) = true /\
  file (snd (save_settings filled_form fresh_store)) =
    Json (memory (snd (save_settings filled_form fresh_store))).
Proof.
  assert (H : ascii_form filled_form) by (repeat split).
  split; [exact H|].
  destruct (save_settings_outcome filled_form fresh_store H) as [A _].
  destruct (A (VInt 2) (VInt 2) eq_refl eq_refl) as [A1 _].
  destruct A1 as (B1 & _ & B3).
  - intros k _. now destruct k as [|[|[|[|k]]]].
  - split; [exact B1 | exact B3].
Defined.

Example save_settings_example :
  memory (snd (save_settings filled_form fresh_store)) =
  {| drive_path := Some (VStr "D:\Backups");
     target_folders := Some (VStrings [".gemini"; ".antigravity"]);
     retention_count := Some (VInt 7);
     compression_level := Some (VInt 5);
     ignore_patterns := Some (VStrings ["*.tmp"; ".git"]);
     scheduled_times := Some (VStrings ["10:00"; "24:00"]) |}.
Proof. reflexivity. Qed.

(** A configuration file that cannot be written: the first [set] raises
    and the exception escapes [save_settings]. *)
Example save_settings_unwritable :
  fst (save_settings filled_form
         {| memory := DEFAULT_CONFIG; file := Absent;
            disk := [OpenFails] |}) = false.
Proof. reflexivity. Qed.

End Settings.

(* ================================================================== *)
(** * Storage root and retention: further facts *)
(* ================================================================== *)

Module Storage.

Import Engine Frame Exact.
Open Scope monad_scope.

Definition archive_pattern (env : Env) : string :=
  Config.file_prefix (cfg env) ++ "_*.zip".

Lemma slice_from_In {A : Type} (x : A) l start :
  In x (slice_from l start) -> In x l.
Proof.
  unfold slice_from. destruct (start <? 0)%Z; apply PySort.In_skipn_In.
Qed.

Lemma files_to_delete_found fnmatch env st path :
  In path (Catalog.files_to_delete fnmatch env st) ->
  In path (fst (glob_backups fnmatch env st)).
Proof.
  unfold Catalog.files_to_delete.
  destruct (_ >? _)%Z; [|contradiction].
  intros H. apply slice_from_In in H.
  now apply PySort.sort_desc_by_In in H.
Qed.

(** Whatever the storage path, an entry of the storage root is found by
    the glob only if its name matches the pattern. *)
Lemma glob_root_entry fnmatch env st n :
  In n (listing st) ->
  In (root_path env n) (fst (glob_backups fnmatch env st)) ->
  glob_finds fnmatch (archive_pattern env) n = true.
Proof.
  unfold glob_backups, listing, archive_pattern. cbn [fst].
  intros Hn H.
  assert (Hroot : In (root_path env n)
                     (root_matches fnmatch env
                        match storage (world st) with
                        | Some names => names
                        | None => []
                        end) ->
                  glob_finds fnmatch (Config.file_prefix (cfg env) ++ "_*.zip")
                             n = true).
  { unfold root_matches. rewrite Catalog.In_root_path, filter_In. tauto. }
  destruct (has_magic _); [|now apply Hroot].
  apply in_app_or in H as [H|H].
  - destruct (glob_self env); [now apply Hroot | contradiction].
  - apply filter_In in H as [_ H]. apply negb_true_iff in H.
    assert (Hin : PyStr.mem (root_path env n)
                    (map (root_path env)
                       match storage (world st) with
                       | Some names => names
                       | None => []
                       end) = true)
      by (apply PyStr.mem_In, Catalog.In_root_path; exact Hn).
    congruence.
Qed.

(** X8. [ensure_drive] returns [True] exactly when a path is configured and the
    directory exists or could be created; on [True] the directory exists
    afterwards and a second call changes nothing; the names in the storage
    root are never changed, and an existing directory means no I/O call. *)
Theorem ensure_drive_result (env : Env) (st : State) :
  (fst (ensure_drive env st) = true <-> Backup.ensure_ok env st) /\
  listing (snd (ensure_drive env st)) = listing st /\
  (fst (ensure_drive env st) = true ->
   storage (world (snd (ensure_drive env st))) <> None /\
   ensure_drive env (snd (ensure_drive env st)) =
   (true, snd (ensure_drive env st))) /\
  (storage (world st) <> None ->
   actions (world (snd (ensure_drive env st))) = actions (world st)).
Proof.
  destruct (String.eqb (Config.get_drive_path (cfg env)) "") eqn:Ed.
  - apply String.eqb_eq in Ed.
    rewrite (Backup.ensure_drive_unset env st Ed). cbn [fst snd].
    split; [|split; [|split]].
    + split; [discriminate|]. intros [H _]. contradiction.
    + reflexivity.
    + discriminate.
    + reflexivity.
  - apply String.eqb_neq in Ed.
    destruct (storage (world st)) as [names|] eqn:Es.
    + assert (Hok : Backup.ensure_ok env st)
        by (split; [exact Ed | left; rewrite Es; discriminate]).
      rewrite (Backup.ensure_drive_ok env st Hok).
      unfold Backup.drive_ready. rewrite Es. cbn [fst snd].
      split; [tauto|]. split; [reflexivity|]. split; [|reflexivity].
      intros _. split; [rewrite Es; discriminate|].
      rewrite (Backup.ensure_drive_ok env st Hok).
      unfold Backup.drive_ready. now rewrite Es.
    + destruct (makedirs_error env) as [e|] eqn:Em.
      * rewrite (Backup.ensure_drive_failed env st e Ed Es Em).
        cbn [fst snd]. split; [|split; [|split]].
        -- split; [discriminate|]. intros [_ [H|H]]; congruence.
        -- unfold listing. cbn. now rewrite Es.
        -- discriminate.
        -- intros H. now elim H.
      * assert (Hok : Backup.ensure_ok env st)
          by (split; [exact Ed | now right]).
        rewrite (Backup.ensure_drive_ok env st Hok).
        unfold Backup.drive_ready. rewrite Es. cbn [fst snd].
        split; [tauto|]. split; [unfold listing; cbn; now rewrite Es|].
        split; [|intros H; now elim H].
        intros _. split; [discriminate|].
        apply Restore.ensure_drive_present; [exact Ed | discriminate].
Qed.

(** X9. [cleanup_old_backups] never removes an entry of the storage root
    whose name does not match the archive pattern, whatever the retention
    count and the storage path: other files of the storage root stay, and
    [os.remove] is not called on their path. *)
Theorem cleanup_spares_other_files
    (fnmatch : string -> string -> bool) (env : Env) (st : State)
    (n : string) :
  In n (listing st) ->
  fnmatch n (archive_pattern env) = false ->
  In n (listing (snd (cleanup_old_backups fnmatch env st))) /\
  ~ In (Remove (root_path env n))
       (map Remove (Catalog.files_to_delete fnmatch env st)).
Proof.
  intros Hn Hm.
  assert (Hnot : ~ In (root_path env n)
                      (Catalog.files_to_delete fnmatch env st)).
  { intros H. apply files_to_delete_found in H.
    apply (glob_root_entry fnmatch env st n Hn) in H.
    unfold glob_finds in H. apply andb_true_iff in H as [_ H].
    congruence. }
  split.
  - rewrite Catalog.listing_after_cleanup. apply Catalog.prune_In.
    split; [exact Hn | tauto].
  - rewrite in_map_iff. intros (d & E & Hd).
    injection E as ->. contradiction.
Qed.

Lemma cleanup_spares_other_files_witness :
  In "notes.txt"
     (listing (snd (cleanup_old_backups Example.glob_match Example.env
                      Example.start))).
Proof.
  apply (cleanup_spares_other_files Example.glob_match Example.env
           Example.start "notes.txt").
  - cbn. tauto.
  - reflexivity.
Defined.

(** ** Pruning twice *)

Lemma archives_NoDup fnmatch env st :
  NoDup (listing st) -> NoDup (Catalog.archives fnmatch env st).
Proof. apply NoDup_filter. Qed.

(** X10. With a storage path without glob metacharacters: after a pruning
    with a count [R >= 0] whose removals all succeeded, at most [R] entries
    of the storage root match the archive pattern, so pruning again removes
    nothing: it makes no I/O call and leaves the storage root as it is. *)
Theorem cleanup_twice
    (fnmatch : string -> string -> bool) (env : Env) (st : State) :
  has_magic (Config.get_drive_path (cfg env)) = false ->
  NoDup (listing st) ->
  (0 <= Config.get_retention_count (cfg env))%Z ->
  (forall d, In d (Catalog.files_to_delete fnmatch env st) ->
             remove_error env d = None) ->
  let st1 := snd (cleanup_old_backups fnmatch env st) in
  let st2 := snd (cleanup_old_backups fnmatch env st1) in
  (Z.of_nat (length (Catalog.archives fnmatch env st1))
   <= Config.get_retention_count (cfg env))%Z /\
  Catalog.files_to_delete fnmatch env st1 = [] /\
  actions (world st2) = actions (world st1) /\
  listing st2 = listing st1.
Proof.
  intros Hm Hnd HR Hok st1 st2.
  set (R := Config.get_retention_count (cfg env)) in *.
  set (names := PySort.sort_desc (Catalog.archives fnmatch env st)).
  assert (Hfiles : PySort.sort_desc (fst (glob_backups fnmatch env st)) =
                   map (root_path env) names).
  { rewrite (Catalog.glob_plain fnmatch env st Hm).
    apply Catalog.sort_root_paths. }
  set (del := skipn (Z.to_nat R) names).
  assert (Hdel : Catalog.files_to_delete fnmatch env st =
                 map (root_path env) del).
  { rewrite Catalog.files_to_delete_skipn by exact HR. fold R.
    rewrite Hfiles. apply skipn_map. }
  set (keep := firstn (Z.to_nat R) names).
  assert (Hsplit : (keep ++ del)%list = names) by apply firstn_skipn.
  assert (Hnames_nd : NoDup names).
  { eapply Permutation_NoDup; [apply PySort.sort_desc_by_perm|].
    now apply archives_NoDup. }
  assert (Hlist : listing st1 =
                  Catalog.prune env (map (root_path env) del) (listing st))
    by (subst st1; now rewrite Catalog.listing_after_cleanup, Hdel).
  assert (Hperm : Permutation (Catalog.archives fnmatch env st1) keep).
  { apply NoDup_Permutation.
    - apply archives_NoDup. rewrite Hlist. now apply Catalog.prune_NoDup.
    - rewrite <- Hsplit in Hnames_nd.
      now apply NoDup_app_remove_r in Hnames_nd.
    - intros n. unfold Catalog.archives at 1.
      rewrite filter_In, Hlist, Catalog.prune_In, Catalog.In_root_path.
      split.
      + intros [[Hn Hnot] Hf].
        assert (Hin : In n names).
        { apply PySort.sort_desc_by_In. unfold Catalog.archives.
          apply filter_In. now split. }
        rewrite <- Hsplit in Hin. apply in_app_or in Hin as [Hk|Hd];
          [exact Hk|].
        exfalso. apply Hnot. split; [exact Hd|].
        apply Hok. rewrite Hdel. now apply Catalog.In_root_path.
      + intros Hk.
        assert (Hin : In n names)
          by (rewrite <- Hsplit; apply in_or_app; now left).
        apply PySort.sort_desc_by_In in Hin.
        unfold Catalog.archives in Hin.
        apply filter_In in Hin as [Hn Hf].
        split; [split; [exact Hn|] | exact Hf].
        intros [Hd _]. rewrite <- Hsplit in Hnames_nd.
        now apply (Catalog.NoDup_app_disjoint keep del n Hnames_nd). }
  assert (Hlen : (Z.of_nat (length (Catalog.archives fnmatch env st1))
                  <= R)%Z).
  { rewrite (Permutation_length Hperm). subst keep.
    pose proof (firstn_le_length (Z.to_nat R) names).
    rewrite length_firstn. lia. }
  assert (Hnone : Catalog.files_to_delete fnmatch env st1 = []).
  { unfold Catalog.files_to_delete, PySort.sort_desc.
    rewrite PySort.sort_desc_by_length.
    rewrite (Catalog.glob_plain fnmatch env st1 Hm), length_map. fold R.
    destruct (_ >? R)%Z eqn:E; [lia | reflexivity]. }
  split; [exact Hlen|]. split; [exact Hnone|]. split.
  - subst st2. rewrite Catalog.cleanup_old_backups_eq, Hnone. cbn.
    now rewrite app_nil_r.
  - subst st2. now rewrite Catalog.listing_after_cleanup, Hnone.
Qed.

Lemma cleanup_twice_witness :
  Catalog.files_to_delete Example.glob_match Example.env
    (snd (cleanup_old_backups Example.glob_match Example.env Example.start))
  = [].
Proof.
  apply (cleanup_twice Example.glob_match Example.env Example.start).
  - reflexivity.
  - cbn. repeat constructor; cbn; intuition discriminate.
  - vm_compute. discriminate.
  - reflexivity.
Defined.

(** ** A negative count *)

(** X11. [load_config] does not validate: with a count [R < 0] read from the
    file the test [len(files) > count] always holds and [files[count:]] is the
    last [-R] paths, so every pruning calls [os.remove] on the [min(-R, N)]
    oldest archives, on all of them when [N <= -R]. *)
Theorem cleanup_negative_count
    (fnmatch : string -> string -> bool) (env : Env) (st : State) :
  (Config.get_retention_count (cfg env) < 0)%Z ->
  let k := Z.to_nat (- Config.get_retention_count (cfg env)) in
  let files := PySort.sort_desc (fst (glob_backups fnmatch env st)) in
  let removed := skipn (length files - k) files in
  actions (world (snd (cleanup_old_backups fnmatch env st))) =
    (actions (world st) ++ map Remove removed)%list /\
  length removed = Nat.min k (length files) /\
  ((length files <= k)%nat -> removed = files).
Proof.
  intros HR k files removed.
  assert (E : Catalog.files_to_delete fnmatch env st = removed).
  { unfold Catalog.files_to_delete, slice_from. fold files.
    destruct (Z.gtb_spec (Z.of_nat (length files))
                (Config.get_retention_count (cfg env))) as [_|H]; [|lia].
    destruct (Z.ltb_spec (Config.get_retention_count (cfg env)) 0)
      as [_|H]; [|lia].
    subst removed. f_equal. subst k. lia. }
  split; [|split].
  - rewrite Catalog.cleanup_old_backups_eq. Backup.obs. now rewrite E.
  - subst removed. rewrite length_skipn. lia.
  - intros Hle. subst removed.
    replace (length files - k)%nat with 0%nat by lia. reflexivity.
Qed.

(** The example installation with [retention_count] set to [-2] in the
    file. *)
Definition hand_edited : Env := {|
  cfg := {|
    Config.config := {|
      Config.drive_path := Some "/mnt/drive/AntigravitySync";
      Config.target_folders := Some [".gemini"; ".antigravity"];
      Config.retention_count := Some (-2)%Z;
      Config.compression_level := Some 5%Z;
      Config.ignore_patterns := None;
      Config.scheduled_times := Some ["10:00"]
    |};
    Config.current_user := "ana";
    Config.hostname := "alpha";
    Config.base_user_path := "/home/ana";
    Config.file_prefix := "Antigravity_Backup"
  |};
  pathsep := pathsep Example.env;
  os_path_join := os_path_join Example.env;
  dir_prefix := dir_prefix Example.env; now := now Example.env;
  makedirs_error := None; source_tree := source_tree Example.env;
  zip_create_error := None; zip_write_error := fun _ => None;
  zip_close_error := None;
  remove_error := fun _ => None; zip_read := zip_read Example.env;
  extract_result := fun _ => Extracted; extract_lands := fun _ => None;
  size_text := fun _ => "0.01"; basename := Example.posix_basename;
  glob_self := false; glob_elsewhere := fun _ => [];
  abort_at := None
|}.

Lemma cleanup_negative_count_witness :
  actions (world (snd (cleanup_old_backups Example.glob_match hand_edited
                         Example.start))) =
  [Remove
     "/mnt/drive/AntigravitySync/Antigravity_Backup_alpha_20250201_080000.zip";
   Remove
     "/mnt/drive/AntigravitySync/Antigravity_Backup_alpha_20250101_080000.zip"].
Proof.
  destruct (cleanup_negative_count Example.glob_match hand_edited
              Example.start) as [E _].
  - vm_compute. reflexivity.
  - etransitivity; [exact E | reflexivity].
Defined.

End Storage.

(* ================================================================== *)
(** * Completed backups *)
(* ================================================================== *)

Module Completion.

Import Engine Frame Exact.
Open Scope monad_scope.

(** The state of a run that wrote every entry, after the [close()] of the
    archive. *)
Definition written (fnmatch : string -> string -> bool) (env : Env)
    (silent : bool) (st : State) : State :=
  perform [ZipClose (full_output_path env)]
    (Backup.after_writes env silent
       (length (files_to_zip fnmatch env)) 0
       (files_to_zip fnmatch env)
       (Backup.loop_entry env silent st)).

(** The same when the archive has been closed, before the pruning. *)
Definition closed (fnmatch : string -> string -> bool) (env : Env)
    (silent : bool) (st : State) : State :=
  emit (say (negb silent)
            [EvLog ("[SUCCESS] Backup saved to: " ++ full_output_path env)])
       (written fnmatch env silent st).

(** No [abort()] lands during the loop. *)
Definition undisturbed (fnmatch : string -> string -> bool) (env : Env)
    (st : State) : Prop :=
  stop_requested (self st) = false /\
  forall K, abort_at env = Some K ->
            (length (files_to_zip fnmatch env) <= K)%nat.

(** How a run that wrote every entry ends: with the pruning and
    [finish(True, "Backup Complete")] when the archive could be closed, in
    the handler when [close()] raised. *)
Definition completed (fnmatch : string -> string -> bool) (env : Env)
    (silent : bool) (st : State) : PyRet * State :=
  match zip_close_error env with
  | None =>
      (RBool true,
       emit (say (negb silent) [EvFinish true "Backup Complete"])
            (snd (cleanup_old_backups fnmatch env
                    (closed fnmatch env silent st))))
  | Some e =>
      (RBool false,
       emit (say (negb silent)
                 [EvLog ("[CRITICAL ERROR] Failed to create ZIP: " ++ e);
                  EvFinish false e])
            (written fnmatch env silent st))
  end.

Lemma run_backup_completes_eq fnmatch env silent st :
  Backup.ensure_ok env st ->
  files_to_zip fnmatch env <> [] ->
  zip_create_error env = None ->
  undisturbed fnmatch env st ->
  run_backup fnmatch env silent st = completed fnmatch env silent st.
Proof.
  intros Hok Hne Hc [Hs Ha].
  rewrite (Backup.run_backup_enters_loop fnmatch env silent st Hok Hne Hc).
  rewrite (bind_eq _ _ _ _ _
             (Backup.backup_loop_completes env silent _
                (Backup.length_nonzero _ Hne)
                _ 0%nat (Backup.loop_entry env silent st)
                (fun K HK => or_intror (Ha K HK))
                ltac:(unfold Backup.loop_entry, Backup.created; Backup.obs;
                      rewrite Backup.stop_drive_ready; exact Hs))).
  cbn [backup_after_loop]. unfold completed.
  rewrite (bind_eq _ _ _ _ _ (act_eq _ _)).
  fold (written fnmatch env silent st).
  destruct (zip_close_error env) as [e|]; [apply backup_failed_eq|].
  rewrite (bind_eq _ _ _ _ _ (when_log _ _ _)).
  unfold bind at 1. fold (closed fnmatch env silent st).
  destruct (cleanup_old_backups fnmatch env (closed fnmatch env silent st))
    as [u st1].
  rewrite (bind_eq _ _ _ _ _ (when_finish _ _ _ _)).
  reflexivity.
Qed.

Lemma listing_written fnmatch env silent st :
  listing (written fnmatch env silent st) =
  if PyStr.mem (final_zip_name env) (listing st) then listing st
  else (listing st ++ [final_zip_name env])%list.
Proof.
  unfold written, Backup.after_writes, Backup.loop_entry, Backup.created,
    listing.
  Backup.obs. unfold Backup.drive_ready.
  destruct (storage (world st)) as [names|] eqn:E; Backup.obs.
  - rewrite E. reflexivity.
  - reflexivity.
Qed.

Lemma listing_closed fnmatch env silent st :
  listing (closed fnmatch env silent st) =
  if PyStr.mem (final_zip_name env) (listing st) then listing st
  else (listing st ++ [final_zip_name env])%list.
Proof. rewrite <- (listing_written fnmatch env silent st). reflexivity. Qed.

Lemma actions_written fnmatch env silent st :
  actions (world (written fnmatch env silent st)) =
  (actions (world (Backup.drive_ready env st)) ++
   ZipCreate (full_output_path env) ::
   map Backup.write_call (files_to_zip fnmatch env) ++
   [ZipClose (full_output_path env)])%list.
Proof.
  unfold written, Backup.after_writes, Backup.loop_entry, Backup.created.
  Backup.obs. now rewrite <- !app_assoc.
Qed.

(** What a run that wrote every entry returns, and the paths it removes
    after closing the archive: when [close()] raises there is no pruning. *)
Definition completed_result (env : Env) : PyRet :=
  match zip_close_error env with
  | None => RBool true
  | Some _ => RBool false
  end.

Definition pruned (fnmatch : string -> string -> bool) (env : Env)
    (silent : bool) (st : State) : list string :=
  match zip_close_error env with
  | None => Catalog.files_to_delete fnmatch env (closed fnmatch env silent st)
  | Some _ => []
  end.

(** X12. A backup during which no [abort()] lands, with the storage root
    available, at least one entry collected and the archive created, writes
    every collected entry exactly once, in the order of the scan, whether
    or not single writes fail, then closes the archive. When the close does
    not raise it returns [True] and its only further I/O calls are the
    removals of the pruning; when the close raises it returns [False] and
    makes no further I/O call. *)
Theorem backup_writes_every_entry
    (fnmatch : string -> string -> bool) (env : Env) (silent : bool)
    (st : State) :
  Backup.ensure_ok env st ->
  files_to_zip fnmatch env <> [] ->
  zip_create_error env = None ->
  undisturbed fnmatch env st ->
  fst (run_backup fnmatch env silent st) = completed_result env /\
  actions (world (snd (run_backup fnmatch env silent st))) =
  (actions (world (Backup.drive_ready env st)) ++
   ZipCreate (full_output_path env) ::
   map Backup.write_call (files_to_zip fnmatch env) ++
   ZipClose (full_output_path env) ::
   map Remove (pruned fnmatch env silent st))%list.
Proof.
  intros Hok Hne Hc Hu.
  rewrite (run_backup_completes_eq fnmatch env silent st Hok Hne Hc Hu).
  unfold completed, completed_result, pruned.
  destruct (zip_close_error env) as [e|]; cbn [fst snd];
    (split; [reflexivity|]).
  - Backup.obs. now rewrite actions_written.
  - rewrite Catalog.cleanup_old_backups_eq. Backup.obs.
    change (actions (world (closed fnmatch env silent st)))
      with (actions (world (written fnmatch env silent st))).
    rewrite actions_written. rewrite <- !app_assoc. cbn [app].
    now rewrite <- app_assoc.
Qed.

Lemma backup_writes_every_entry_witness :
  fst (Example.backup false Example.start) = RBool true /\
  actions (world (snd (Example.backup false Example.start))) =
  [ZipCreate
     "/mnt/drive/AntigravitySync/Antigravity_Backup_alpha_20250309_120000.zip";
   ZipWrite "/home/ana/.gemini/settings.json" ".gemini/settings.json";
   ZipWrite "/home/ana/.gemini/chats/a.md" ".gemini/chats/a.md";
   ZipWrite "/home/ana/.gemini/chats/b.md" ".gemini/chats/b.md";
   ZipClose
     "/mnt/drive/AntigravitySync/Antigravity_Backup_alpha_20250309_120000.zip";
   Remove
     "/mnt/drive/AntigravitySync/Antigravity_Backup_alpha_20250201_080000.zip";
   Remove
     "/mnt/drive/AntigravitySync/Antigravity_Backup_alpha_20250101_080000.zip"].
Proof.
  destruct (backup_writes_every_entry Example.glob_match Example.env false
              Example.start) as [A B].
  - split; [discriminate | left; discriminate].
  - discriminate.
  - reflexivity.
  - split; [reflexivity | discriminate].
  - split; [exact A | etransitivity; [exact B | vm_compute; reflexivity]].
Defined.

(** A backup whose archive cannot be closed: every entry is written, the
    run ends in the handler and nothing is pruned. *)
Example backup_unclosed_example :
  fst (run_backup Example.glob_match
         (Example.with_close_error (Some "No space left on device")
            Example.env) false Example.start) = RBool false /\
  actions (world (snd (run_backup Example.glob_match
                         (Example.with_close_error
                            (Some "No space left on device") Example.env)
                         false Example.start))) =
  [ZipCreate
     "/mnt/drive/AntigravitySync/Antigravity_Backup_alpha_20250309_120000.zip";
   ZipWrite "/home/ana/.gemini/settings.json" ".gemini/settings.json";
   ZipWrite "/home/ana/.gemini/chats/a.md" ".gemini/chats/a.md";
   ZipWrite "/home/ana/.gemini/chats/b.md" ".gemini/chats/b.md";
   ZipClose
     "/mnt/drive/AntigravitySync/Antigravity_Backup_alpha_20250309_120000.zip"].
Proof. split; reflexivity. Qed.

(** The first name of the descending list is a greatest name. *)
Lemma sort_desc_head_max l x :
  In x l ->
  (forall y, In y l -> String.compare y x <> Gt) ->
  exists rest, PySort.sort_desc l = x :: rest.
Proof.
  intros Hx Hmax.
  pose proof (PySort.sort_desc_sorted l) as Hs.
  assert (Hin : forall y, In y (PySort.sort_desc l) <-> In y l)
    by (intros y; apply PySort.sort_desc_by_In).
  destruct (PySort.sort_desc l) as [|h rest] eqn:E.
  - apply Hin in Hx. contradiction.
  - exists rest. f_equal.
    assert (Hh : In h l) by (apply Hin; now left).
    apply Hin in Hx. destruct Hx as [->|Hx]; [reflexivity|].
    inversion Hs as [|? ? _ Hall]; subst.
    rewrite Forall_forall in Hall. specialize (Hall x Hx).
    unfold PySort.ge_by in Hall.
    specialize (Hmax h Hh).
    destruct (String.compare h x) eqn:Ec; try contradiction.
    now apply String.compare_eq_iff.
Qed.

(** The name of the archive and the pattern begin alike: [glob] treats
    neither, or both, as hidden. *)
Lemma final_zip_name_hidden env :
  ishidden (final_zip_name env) = ishidden (Storage.archive_pattern env).
Proof.
  unfold final_zip_name, Storage.archive_pattern, Naming.archive_name,
    ishidden, PyStr.startswith.
  destruct (Config.file_prefix (cfg env)) as [|c rest]; [reflexivity|].
  cbn [String.append String.prefix].
  destruct (ascii_dec "." c); [|reflexivity].
  now destruct (rest ++ _), (rest ++ _).
Qed.

(** X13. With a storage path without glob metacharacters (so that the
    pruning looks at the storage root only): the archive just written
    survives the pruning of its own run when the retention count is at
    least 1, its name matches the archive pattern and no archive in the
    storage root has a greater name (as with archives of this host only and
    a clock that has not gone back). *)
Theorem fresh_archive_kept
    (fnmatch : string -> string -> bool) (env : Env) (silent : bool)
    (st : State) :
  has_magic (Config.get_drive_path (cfg env)) = false ->
  Backup.ensure_ok env st ->
  files_to_zip fnmatch env <> [] ->
  zip_create_error env = None ->
  undisturbed fnmatch env st ->
  NoDup (listing st) ->
  (1 <= Config.get_retention_count (cfg env))%Z ->
  fnmatch (final_zip_name env) (Storage.archive_pattern env) = true ->
  (forall n, In n (listing st) ->
             fnmatch n (Storage.archive_pattern env) = true ->
             String.compare n (final_zip_name env) <> Gt) ->
  In (final_zip_name env)
     (listing (snd (run_backup fnmatch env silent st))).
Proof.
  intros Hmg Hok Hne Hc Hu Hnd HR Hm Hmax.
  rewrite (run_backup_completes_eq fnmatch env silent st Hok Hne Hc Hu).
  pose proof (listing_written fnmatch env silent st) as Hl.
  set (x := final_zip_name env) in *.
  assert (Hx : In x (listing (written fnmatch env silent st))).
  { rewrite Hl.
    destruct (PyStr.mem x (listing st)) eqn:E.
    - now apply PyStr.mem_In.
    - apply in_or_app. right. now left. }
  unfold completed.
  destruct (zip_close_error env) as [e|]; cbn [snd]; [exact Hx|].
  unfold listing at 1. Backup.obs.
  fold (listing (snd (cleanup_old_backups fnmatch env
                        (closed fnmatch env silent st)))).
  change (listing (written fnmatch env silent st))
    with (listing (closed fnmatch env silent st)) in Hl, Hx.
  set (c := closed fnmatch env silent st) in *.
  assert (Hcnd : NoDup (listing c)).
  { rewrite Hl.
    destruct (PyStr.mem x (listing st)) eqn:E; [exact Hnd|].
    apply NoDup_app; [exact Hnd | repeat constructor; intros [] |].
    intros a Ha [<-|[]]. apply PyStr.mem_In in Ha. congruence. }
  assert (Hcmax : forall y, In y (Catalog.archives fnmatch env c) ->
                            String.compare y x <> Gt).
  { intros y Hy. unfold Catalog.archives in Hy.
    apply filter_In in Hy as [Hy Hym].
    unfold glob_finds in Hym. apply andb_true_iff in Hym as [_ Hym].
    rewrite Hl in Hy.
    destruct (PyStr.mem x (listing st)); [now apply Hmax|].
    apply in_app_or in Hy as [Hy|[<-|[]]]; [now apply Hmax|].
    rewrite PySort.string_compare_refl. discriminate. }
  assert (Hxg : In x (Catalog.archives fnmatch env c)).
  { unfold Catalog.archives. apply filter_In. split; [exact Hx|].
    unfold glob_finds. fold (Storage.archive_pattern env).
    subst x. rewrite final_zip_name_hidden, Hm.
    now destruct (ishidden (Storage.archive_pattern env)). }
  destruct (sort_desc_head_max _ x Hxg Hcmax) as [rest Esort].
  rewrite Catalog.listing_after_cleanup. apply Catalog.prune_In.
  split; [exact Hx|]. intros [Hd _].
  rewrite Catalog.files_to_delete_skipn in Hd by lia.
  rewrite (Catalog.glob_plain fnmatch env c Hmg) in Hd.
  rewrite Catalog.sort_root_paths, Esort, skipn_map in Hd.
  apply Catalog.In_root_path in Hd.
  assert (Hfn : NoDup (x :: rest)).
  { rewrite <- Esort. eapply Permutation_NoDup;
      [apply PySort.sort_desc_by_perm|]. now apply Storage.archives_NoDup. }
  destruct (Z.to_nat (Config.get_retention_count (cfg env))) as [|r] eqn:Er;
    [lia|].
  cbn [skipn] in Hd. apply PySort.In_skipn_In in Hd.
  inversion Hfn; subst. contradiction.
Qed.

Lemma fresh_archive_kept_witness :
  In "Antigravity_Backup_alpha_20250309_120000.zip"
     (listing (snd (Example.backup false Example.start))).
Proof.
  apply (fresh_archive_kept Example.glob_match Example.env false
           Example.start).
  - reflexivity.
  - split; [discriminate | left; discriminate].
  - discriminate.
  - reflexivity.
  - split; [reflexivity | discriminate].
  - cbn. repeat constructor; cbn; intuition discriminate.
  - vm_compute. discriminate.
  - reflexivity.
  - intros n Hn Hf. cbn in Hn.
    destruct Hn as [<-|[<-|[<-|[<-|[]]]]];
      first [vm_compute; discriminate | vm_compute in Hf; discriminate].
Defined.

(** Without the condition on the storage path the archive just written can
    be pruned at once: the storage directory [/mnt/drive/Sync*] matches its
    own pattern, which also matches a directory [Sync2] that holds an
    archive of 2024; that path sorts above the path of the fresh archive,
    and with a retention count of 1 the pruning removes the fresh one. *)
Definition starred : Env :=
  Example.with_drive "/mnt/drive/Sync*" 1 true
    ["/mnt/drive/Sync2/Antigravity_Backup_alpha_20240101_000000.zip"]
    Example.env.

Definition empty_root : State := {|
  self := init (Some []);
  world := {| storage := Some []; stdout := []; actions := [] |}
|}.

Example fresh_archive_pruned_behind_star :
  has_magic (Config.get_drive_path (cfg starred)) = true /\
  fst (run_backup Example.glob_match starred false empty_root)
    = RBool true /\
  last (actions (world (snd (run_backup Example.glob_match starred false
                               empty_root)))) (Makedirs "") =
    Remove "/mnt/drive/Sync*/Antigravity_Backup_alpha_20250309_120000.zip"
  /\
  listing (snd (run_backup Example.glob_match starred false empty_root))
    = [].
Proof. repeat split. Qed.

End Completion.

(* ================================================================== *)
(** * What the scan collects *)
(* ================================================================== *)

Module Scan.

Import Engine.




Section Walk.
Variable fnmatch : string -> string -> bool.
Variable env : Env.

Let ignored := path_ignored fnmatch (Config.get_ignore_patterns (cfg env)).



End Walk.




(** A target folder whose name begins with two dots: its file is backed
    up, under an archive path that the guard of the restore rejects. *)
Definition dotted : Env :=
  Example.with_source
    (fun path =>
       if String.eqb path "/home/ana/..data"
       then Some (Dir [("notes.md", File)]) else None)
    (Example.with_folders ["..data"] Example.env).

Example dotted_folder_backed_up_not_restored :
  files_to_zip Example.glob_match dotted =
    [("/home/ana/..data/notes.md", "..data/notes.md")] /\
  path_ignored Example.glob_match
    (Config.get_ignore_patterns (cfg dotted)) "..data/notes.md" = false /\
  traversal_guard Example.posix_isabs "..data/notes.md" = true.
Proof. repeat split. Qed.

End Scan.

(* ================================================================== *)
(** * What a restore extracts *)
(* ================================================================== *)

Module Extraction.

Import Engine Frame Exact.
Open Scope monad_scope.

Section Members.
Variable fnmatch : string -> string -> bool.
Variable isabs : string -> bool.
Variable env : Env.

(** A member that goes through both guards of the extraction loop. *)
Definition passes (file : string) : bool :=
  negb (traversal_guard isabs file) &&
  negb (path_ignored fnmatch (Config.get_ignore_patterns (cfg env)) file).

Definition extract_call (file : string) : Action :=
  Extract file (Config.base_user_path (cfg env)).

(** What the extraction of one member reports. *)
Definition member_events (total idx : nat) (file : string) : list Event :=
  match extract_result env file with
  | PermissionError => [EvLog ("⚠️ SKIPPED (Locked): " ++ file)]
  | OtherError e => [EvLog ("⚠️ Error extracting " ++ file ++ ": " ++ e)]
  | Extracted =>
      [EvProgress
         (Qplus (1 # 10)
                (Qmult (Qmake (Z.of_nat (idx + 1)) (Pos.of_nat total))
                       (9 # 10)))
         ("Copying files... (" ++ nat_text (idx + 1) ++ "/" ++
          nat_text total ++ ")")]
  end.

(** The storage root after the extraction of [files], in this order. *)
Definition lands (files : list string) (names : list string)
    : list string :=
  fold_left (fun names file => landed env file names) files names.

Definition settle (files : list string) (st : State) : State :=
  set_storage (option_map (lands files) (storage (world st))) st.

Lemma settle_nil st : settle [] st = st.
Proof. now destruct st as [[q b] [[s|] o a]]. Qed.

Lemma settle_cons file rest st :
  settle rest (settle [file] st) = settle (file :: rest) st.
Proof. now destruct st as [[q b] [[s|] o a]]. Qed.

Lemma extract_member_eq total idx file st :
  total <> 0%nat ->
  extract_member env total idx file st =
  (None, emit (member_events total idx file)
              (settle [file] (perform [extract_call file] st))).
Proof.
  intros Ht. unfold extract_member, member_events.
  rewrite (bind_eq _ _ _ _ _ (act_eq _ _)).
  unfold bind at 1. cbn [snd].
  change (set_storage _ (perform [Extract file _] st))
    with (settle [file] (perform [extract_call file] st)).
  destruct (extract_result env file) as [| |e].
  - rewrite (py_truediv_some _ _ Ht).
    now rewrite (bind_eq _ _ _ _ _ (progress_eq _ _ _)).
  - now rewrite (bind_eq _ _ _ _ _ (log_eq _ _)).
  - now rewrite (bind_eq _ _ _ _ _ (log_eq _ _)).
Qed.

(** The events of the loop over [files], the first of which has index
    [idx]. *)
Fixpoint members_events (total idx : nat) (files : list string)
    : list Event :=
  match files with
  | [] => []
  | file :: rest =>
      ((if passes file then member_events total idx file else []) ++
       members_events total (S idx) rest)%list
  end.

(** The state after the loop has gone over [files]. *)
Definition after_members (total idx : nat) (files : list string)
    (st : State) : State :=
  emit (members_events total idx files)
       (settle (filter passes files)
               (perform (map extract_call (filter passes files)) st)).

Lemma after_members_nil total idx st : after_members total idx [] st = st.
Proof.
  unfold after_members. cbn [members_events filter map].
  now rewrite perform_nil, settle_nil, emit_nil.
Qed.

Lemma after_members_skip total idx file rest st :
  passes file = false ->
  after_members total (S idx) rest st =
  after_members total idx (file :: rest) st.
Proof.
  intros Hp. unfold after_members. cbn [members_events filter].
  now rewrite Hp.
Qed.

Lemma after_members_cons total idx file rest st :
  passes file = true ->
  after_members total (S idx) rest
    (emit (member_events total idx file)
          (settle [file] (perform [extract_call file] st))) =
  after_members total idx (file :: rest) st.
Proof.
  intros Hp. unfold after_members. cbn [members_events filter].
  rewrite Hp. cbn [map].
  rewrite <- emit_app, <- settle_cons.
  change (extract_call file :: map extract_call (filter passes rest))
    with ([extract_call file] ++ map extract_call (filter passes rest))%list.
  rewrite <- perform_app.
  destruct st as [[q b] [[s|] o a]]; reflexivity.
Qed.

Lemma members_events_no_finish total files :
  forall idx,
    Forall (fun e => ~ Backup.is_finish e) (members_events total idx files).
Proof.
  induction files as [|file rest IH]; intros idx; cbn [members_events];
    [constructor|].
  apply Forall_app. split; [|apply IH].
  destruct (passes file); [|constructor].
  unfold member_events.
  destruct (extract_result env file);
    repeat constructor; intros (ok & msg & E); discriminate.
Qed.

(** One iteration on a member, the stop not being requested. *)
Lemma extract_step total idx file rest st :
  total <> 0%nat ->
  interface_thread (abort_at env) idx st = (tt, st) ->
  stop_requested (self st) = false ->
  extract_loop fnmatch isabs env total idx (file :: rest) st =
  extract_loop fnmatch isabs env total (S idx) rest
    (if passes file
     then emit (member_events total idx file)
               (settle [file] (perform [extract_call file] st))
     else st).
Proof.
  intros Ht Ei Hs. cbn [extract_loop].
  rewrite (bind_eq _ _ _ _ _ Ei), Hs. unfold passes.
  destruct (traversal_guard isabs file); [reflexivity|].
  unfold should_ignore, bind at 1.
  destruct (path_ignored _ _ file); [reflexivity|].
  cbn [negb andb].
  now rewrite (bind_eq _ _ _ _ _ (extract_member_eq _ _ _ _ Ht)).
Qed.

(** The loop when no [abort()] lands during it. *)
Lemma extract_loop_completes total :
  forall files idx st,
    (files <> [] -> total <> 0%nat) ->
    (forall K, abort_at env = Some K ->
               (K < idx \/ idx + length files <= K)%nat) ->
    stop_requested (self st) = false ->
    extract_loop fnmatch isabs env total idx files st =
    (Completed, after_members total idx files st).
Proof.
  induction files as [|file rest IH]; intros idx st Ht Ha Hs.
  - cbn [extract_loop]. unfold ret. now rewrite after_members_nil.
  - assert (Hz : total <> 0%nat) by (apply Ht; discriminate).
    assert (E : interface_thread (abort_at env) idx st = (tt, st)).
    { unfold interface_thread.
      destruct (abort_at env) as [k|] eqn:Ek; [|reflexivity].
      destruct (Nat.eqb k idx) eqn:Eq; [|reflexivity].
      apply Nat.eqb_eq in Eq. subst k.
      specialize (Ha idx eq_refl). simpl in Ha. lia. }
    rewrite (extract_step _ _ _ _ _ Hz E Hs).
    assert (Ha' : forall K, abort_at env = Some K ->
                            (K < S idx \/ S idx + length rest <= K)%nat).
    { intros K HK. specialize (Ha K HK). simpl in Ha. lia. }
    destruct (passes file) eqn:Hp.
    + rewrite IH; [now rewrite after_members_cons | now intros _
                   | exact Ha' | exact Hs].
    + rewrite IH; [now rewrite (after_members_skip _ _ file)
                   | now intros _ | exact Ha' | exact Hs].
Qed.

(** The loop when [abort()] lands after [K] members. *)
Lemma extract_loop_abort total K :
  abort_at env = Some K -> total <> 0%nat ->
  forall files idx st,
    (idx <= K)%nat -> (K < idx + length files)%nat ->
    stop_requested (self st) = false ->
    extract_loop fnmatch isabs env total idx files st =
    (Returned,
     emit [EvFinish false "Cancelled"]
          (set_stop true
             (after_members total idx (firstn (K - idx) files) st))).
Proof.
  intros Ha Ht. induction files as [|file rest IH];
    intros idx st Hle Hlt Hs; simpl in Hlt; [lia|].
  destruct (Nat.eqb K idx) eqn:E.
  - apply Nat.eqb_eq in E. subst idx.
    rewrite Nat.sub_diag. cbn [firstn extract_loop].
    unfold interface_thread. rewrite Ha, Nat.eqb_refl.
    unfold bind at 1, abort. cbn [snd].
    cbn [set_stop self stop_requested].
    rewrite (bind_eq _ _ _ _ _ (finish_eq _ _ _)).
    now rewrite after_members_nil.
  - assert (Ei : interface_thread (abort_at env) idx st = (tt, st))
      by (unfold interface_thread; now rewrite Ha, E).
    apply Nat.eqb_neq in E.
    rewrite (extract_step _ _ _ _ _ Ht Ei Hs).
    replace (K - idx)%nat with (S (K - S idx)) by lia.
    cbn [firstn].
    destruct (passes file) eqn:Hp.
    + rewrite IH by (try lia; exact Hs).
      now rewrite after_members_cons.
    + rewrite IH by (try lia; exact Hs).
      now rewrite (after_members_skip _ _ file).
Qed.

(** The events of the first pass over [files], the first of which has
    index [i]. *)
Fixpoint analysis_events (total i : nat) (files : list string)
    : list Event :=
  match files with
  | [] => []
  | _ :: rest =>
      EvProgress (Qmult (Qmake (Z.of_nat i) (Pos.of_nat total)) (1 # 10))
                 "Analyzing..."
      :: analysis_events total (S i) rest
  end.

Lemma analysis_loop_events total files :
  (files <> [] -> total <> 0%nat) ->
  forall i st,
    analysis_loop total i files st =
    (Completed, emit (analysis_events total i files) st).
Proof.
  induction files as [|f rest IH]; intros Ht i st;
    cbn [analysis_loop analysis_events].
  - unfold ret. now rewrite emit_nil.
  - assert (Hz : total <> 0%nat) by (apply Ht; discriminate).
    rewrite (py_truediv_some _ _ Hz).
    rewrite (bind_eq _ _ _ _ _ (progress_eq _ _ _)).
    rewrite (IH (fun _ => Hz)). now rewrite emit_app.
Qed.

Lemma analysis_events_no_finish total files :
  forall i,
    Forall (fun e => ~ Backup.is_finish e) (analysis_events total i files).
Proof.
  induction files as [|f rest IH]; intros i; cbn [analysis_events];
    constructor; [intros (ok & msg & E); discriminate | apply IH].
Qed.

(** The events up to the opening of the archive at the path
    [latest_backup]. *)
Definition opening_events (latest_backup : string) : list Event :=
  [EvLog "--- Starting RESTORE ---";
   EvLog ("Found latest backup: " ++ basename env latest_backup);
   EvLog "Analyzing archive..."].

(** The state in which the archive has been opened. *)
Definition opened (latest_backup : string) (st : State) : State :=
  perform [ZipRead latest_backup] (emit (opening_events latest_backup) st).

Lemma run_restore_opens st latest_backup older members :
  Config.get_drive_path (cfg env) <> "" ->
  (has_magic (Config.get_drive_path (cfg env)) = true ->
   storage (world st) <> None) ->
  PySort.sort_desc (fst (glob_backups fnmatch env st))
    = latest_backup :: older ->
  zip_read env latest_backup = inr members ->
  run_restore fnmatch isabs env st =
  restore_archive fnmatch isabs env (basename env latest_backup) members
    (opened latest_backup st).
Proof.
  intros Hd Hm Hg Hz.
  pose proof (Restore.glob_storage_present _ _ _ _ _ Hm Hg) as Hst.
  unfold run_restore.
  rewrite (bind_eq _ _ _ _ _ (log_eq _ _)).
  rewrite (bind_eq _ _ _ _ _
             (Restore.ensure_drive_present env
                (emit [EvLog "--- Starting RESTORE ---"] st) Hd Hst)).
  cbn [negb].
  erewrite bind_eq by reflexivity.
  change (fst (glob_backups fnmatch env st)) with
    (fst (glob_backups fnmatch env
            (emit [EvLog "--- Starting RESTORE ---"] st))) in Hg.
  unfold glob_backups in Hg at 1. cbn [fst] in Hg. rewrite Hg.
  rewrite (bind_eq _ _ _ _ _ (log_eq _ _)).
  rewrite (bind_eq _ _ _ _ _ (log_eq _ _)).
  rewrite (bind_eq _ _ _ _ _ (act_eq _ _)).
  rewrite Hz. rewrite !emit_app. reflexivity.
Qed.

(** The events of a restore that goes over every member of the archive at
    [latest_backup]. *)
Definition restore_events (latest_backup : string) (members : list string)
    : list Event :=
  (opening_events latest_backup ++
   analysis_events (length members) 0 members ++
   members_events (length members) 0 members ++
   [EvLog ("[SUCCESS] Restore completed from " ++
           basename env latest_backup);
    EvFinish true "Restore Complete"])%list.

End Members.

(** X16. A restore during which no [abort()] lands extracts, from the
    archive it selects (the first path of the glob in descending order),
    exactly the members that pass the traversal guard and the ignore
    filter, each once and in the order of the archive, into the user's home
    directory. Its events are the three opening lines, one progress event
    per member for the first pass, then for each extracted member its
    progress event, or the log line of its failure when the extraction
    raised (the loop going on with the next member), then the success line
    and [finish(True, "Restore Complete")], the only [finish]. The storage
    root changes only by the entries the extracted members create in
    it. *)
Theorem restore_extracts_members
    (fnmatch : string -> string -> bool) (isabs : string -> bool)
    (env : Env) (st : State) (latest_backup : string)
    (older members : list string) :
  Config.get_drive_path (cfg env) <> "" ->
  (has_magic (Config.get_drive_path (cfg env)) = true ->
   storage (world st) <> None) ->
  PySort.sort_desc (fst (glob_backups fnmatch env st))
    = latest_backup :: older ->
  zip_read env latest_backup = inr members ->
  stop_requested (self st) = false ->
  (forall K, abort_at env = Some K -> (length members <= K)%nat) ->
  let run := run_restore fnmatch isabs env st in
  let extracted := filter (passes fnmatch isabs env) members in
  fst run = RNone /\
  actions (world (snd run)) =
    (actions (world st) ++
     ZipRead latest_backup :: map (extract_call env) extracted)%list /\
  queue (self (snd run)) =
    option_map
      (fun q =>
         (q ++ restore_events fnmatch isabs env latest_backup members)%list)
      (queue (self st)) /\
  Forall (fun e => ~ Backup.is_finish e)
         (removelast (restore_events fnmatch isabs env latest_backup
                        members)) /\
  storage (world (snd run)) =
    option_map (lands env extracted) (storage (world st)).
Proof.
  intros Hd Hm Hg Hz Hs Ha run extracted. subst run extracted.
  rewrite (run_restore_opens fnmatch isabs env st latest_backup older
             members Hd Hm Hg Hz).
  unfold restore_archive.
  rewrite (bind_eq _ _ _ _ _
             (analysis_loop_events (length members) members
                (Backup.length_nonzero members) 0%nat
                (opened env latest_backup st))).
  rewrite (bind_eq _ _ _ _ _
             (extract_loop_completes fnmatch isabs env (length members)
                members 0%nat
                (emit (analysis_events (length members) 0 members)
                      (opened env latest_backup st))
                (Backup.length_nonzero members)
                (fun K HK => or_intror (Ha K HK)) Hs)).
  rewrite (bind_eq _ _ _ _ _ (log_eq _ _)).
  rewrite (bind_eq _ _ _ _ _ (finish_eq _ _ _)).
  unfold ret, after_members, opened, settle, restore_events.
  cbn [fst snd].
  split; [reflexivity|]. split; [|split; [|split]].
  - Backup.obs. now rewrite <- app_assoc.
  - Backup.obs. destruct (queue (self st)) as [q|]; [|reflexivity].
    cbn [option_map]. f_equal. now rewrite <- !app_assoc.
  - rewrite !app_assoc.
    change [EvLog ("[SUCCESS] Restore completed from " ++
                   basename env latest_backup);
            EvFinish true "Restore Complete"]
      with ([EvLog ("[SUCCESS] Restore completed from " ++
                    basename env latest_backup)] ++
            [EvFinish true "Restore Complete"])%list.
    rewrite app_assoc, removelast_last.
    repeat (apply Forall_app; split).
    + repeat constructor; intros (ok & msg & E); discriminate.
    + apply analysis_events_no_finish.
    + apply members_events_no_finish.
    + repeat constructor; intros (ok & msg & E); discriminate.
  - Backup.obs. reflexivity.
Qed.

Lemma restore_extracts_members_witness :
  fst (Example.restore Example.start) = RNone /\
  actions (world (snd (Example.restore Example.start))) =
  [ZipRead
     "/mnt/drive/AntigravitySync/Antigravity_Backup_alpha_20250301_080000.zip";
   Extract ".gemini/settings.json" "/home/ana"].
Proof.
  destruct (restore_extracts_members Example.glob_match Example.posix_isabs
              Example.env Example.start
              "/mnt/drive/AntigravitySync/Antigravity_Backup_alpha_20250301_080000.zip"
              ["/mnt/drive/AntigravitySync/Antigravity_Backup_alpha_20250201_080000.zip";
               "/mnt/drive/AntigravitySync/Antigravity_Backup_alpha_20250101_080000.zip"]
              [".gemini/settings.json"; "../../evil.txt"; "/etc/passwd";
               ".gemini/debug.log"]) as (A & B & _).
  - discriminate.
  - discriminate.
  - reflexivity.
  - reflexivity.
  - reflexivity.
  - discriminate.
  - split; [exact A | etransitivity; [exact B | reflexivity]].
Defined.

(** X17. A restore cancelled after [K] of the members of the archive have been
    gone over has extracted, of the first [K] members, those that pass both
    guards, and nothing of the others; the stop flag is set and the run ends
    with [finish(False, "Cancelled")], its only [finish]. The archive is
    the one at [latest_backup], the first path of the glob in descending
    order. *)
Theorem restore_cancelled
    (fnmatch : string -> string -> bool) (isabs : string -> bool)
    (env : Env) (st : State) (latest_backup : string)
    (older members : list string) (K : nat) :
  Config.get_drive_path (cfg env) <> "" ->
  (has_magic (Config.get_drive_path (cfg env)) = true ->
   storage (world st) <> None) ->
  PySort.sort_desc (fst (glob_backups fnmatch env st))
    = latest_backup :: older ->
  zip_read env latest_backup = inr members ->
  stop_requested (self st) = false ->
  abort_at env = Some K ->
  (K < length members)%nat ->
  let run := run_restore fnmatch isabs env st in
  fst run = RNone /\
  actions (world (snd run)) =
    (actions (world st) ++
     ZipRead latest_backup ::
     map (extract_call env)
         (filter (passes fnmatch isabs env) (firstn K members)))%list /\
  stop_requested (self (snd run)) = true /\
  exists evs,
    queue (self (snd run)) =
      option_map (fun q => (q ++ evs ++ [EvFinish false "Cancelled"])%list)
                 (queue (self st)) /\
    Forall (fun e => ~ Backup.is_finish e) evs.
Proof.
  intros Hd Hm Hg Hz Hs Ha HK run. subst run.
  rewrite (run_restore_opens fnmatch isabs env st latest_backup older
             members Hd Hm Hg Hz).
  unfold restore_archive.
  rewrite (bind_eq _ _ _ _ _
             (analysis_loop_events (length members) members
                (Backup.length_nonzero members) 0%nat
                (opened env latest_backup st))).
  assert (Ht : length members <> 0%nat) by lia.
  rewrite (bind_eq _ _ _ _ _
             (extract_loop_abort fnmatch isabs env (length members) K Ha Ht
                members 0%nat
                (emit (analysis_events (length members) 0 members)
                      (opened env latest_backup st))
                (Nat.le_0_l K) HK Hs)).
  rewrite Nat.sub_0_r.
  unfold ret, after_members, opened, settle. cbn [fst snd].
  repeat split.
  - Backup.obs. now rewrite <- app_assoc.
  - exists (opening_events env latest_backup ++
            analysis_events (length members) 0 members ++
            members_events fnmatch isabs env (length members) 0
              (firstn K members))%list.
    split.
    + Backup.obs. destruct (queue (self st)) as [q|]; [|reflexivity].
      cbn [option_map]. f_equal. now rewrite <- !app_assoc.
    + repeat (apply Forall_app; split).
      * repeat constructor; intros (ok & msg & E); discriminate.
      * apply analysis_events_no_finish.
      * apply members_events_no_finish.
Qed.

(** The example archive, with the cancellation after its first member. *)
Definition interrupted : Env := Example.with_abort_at (Some 1%nat) Example.env.

Lemma restore_cancelled_witness :
  actions (world (snd (run_restore Example.glob_match Example.posix_isabs
                         interrupted Example.start))) =
  [ZipRead
     "/mnt/drive/AntigravitySync/Antigravity_Backup_alpha_20250301_080000.zip";
   Extract ".gemini/settings.json" "/home/ana"] /\
  stop_requested
    (self (snd (run_restore Example.glob_match Example.posix_isabs
                  interrupted Example.start))) = true.
Proof.
  destruct (restore_cancelled Example.glob_match Example.posix_isabs
              interrupted Example.start
              "/mnt/drive/AntigravitySync/Antigravity_Backup_alpha_20250301_080000.zip"
              ["/mnt/drive/AntigravitySync/Antigravity_Backup_alpha_20250201_080000.zip";
               "/mnt/drive/AntigravitySync/Antigravity_Backup_alpha_20250101_080000.zip"]
              [".gemini/settings.json"; "../../evil.txt"; "/etc/passwd";
               ".gemini/debug.log"] 1%nat) as (_ & B & C & _).
  - discriminate.
  - discriminate.
  - reflexivity.
  - reflexivity.
  - reflexivity.
  - reflexivity.
  - cbn. lia.
  - split; [etransitivity; [exact B | reflexivity] | exact C].
Defined.

End Extraction.

(* ================================================================== *)
(** * What a run reports *)
(* ================================================================== *)

Module Reports.

Import Engine Frame Exact.
Open Scope monad_scope.

Definition is_log (e : Event) : Prop := exists text, e = EvLog text.

Definition not_finish (e : Event) : Prop := ~ Backup.is_finish e.

(** The I/O calls of a restore: the creation of a missing storage
    directory, the opening of an archive for reading, the extraction of a
    member. *)
Definition restores (a : Action) : Prop :=
  match a with
  | Makedirs _ | ZipRead _ | Extract _ _ => True
  | ZipCreate _ | ZipWrite _ _ | ZipClose _ | Remove _ => False
  end.

Lemma not_finish_log text : not_finish (EvLog text).
Proof. intros (ok & msg & E). discriminate. Qed.

Lemma not_finish_progress v msg : not_finish (EvProgress v msg).
Proof. intros (ok & msg' & E). discriminate. Qed.

(** ** Methods that only log *)

Section Logs.
Variable fnmatch : string -> string -> bool.
Variable isabs : string -> bool.
Variable env : Env.
Variable PE : Event -> Prop.
Variable PA : Action -> Prop.
Hypothesis PE_log : forall text, PE (EvLog text).

Ltac go := Methods.frame_auto; try apply PE_log; try assumption.

Lemma logs_glob_backups : respects PE PA (glob_backups fnmatch env).
Proof. intros st. apply frame_refl. Qed.

Lemma logs_ensure_drive :
  (forall p, PA (Makedirs p)) -> respects PE PA (ensure_drive env).
Proof.
  intros HA. unfold ensure_drive.
  destruct (String.eqb _ _); [go|].
  intros st. destruct (storage (world st)); [apply frame_refl|].
  revert st. go; [apply HA | apply respects_set_storage].
Qed.

Lemma logs_os_remove name :
  (forall p, PA (Remove p)) -> respects PE PA (os_remove env name).
Proof.
  intros HA. unfold os_remove. go; [apply HA | apply respects_set_storage].
Qed.

Lemma logs_delete_backups files :
  (forall p, PA (Remove p)) -> respects PE PA (delete_backups env files).
Proof.
  intros HA. induction files as [|f rest IH]; simpl; [go|].
  apply respects_bind; [|intros _; exact IH].
  unfold delete_backup.
  apply respects_bind; [now apply logs_os_remove|].
  intros r. go.
Qed.

Lemma logs_cleanup_old_backups :
  (forall p, PA (Remove p)) ->
  respects PE PA (cleanup_old_backups fnmatch env).
Proof.
  intros HA. unfold cleanup_old_backups.
  apply respects_bind; [go|]. intros _.
  apply respects_bind; [apply logs_glob_backups|]. intros found.
  destruct (_ >? _)%Z; [now apply logs_delete_backups | go].
Qed.

Lemma logs_log_sizes files : respects PE PA (log_sizes env files).
Proof. induction files as [|f rest IH]; simpl; go. Qed.

Lemma logs_scan_for_backups :
  (forall p, PA (Makedirs p)) ->
  respects PE PA (scan_for_backups fnmatch env).
Proof.
  intros HA. unfold scan_for_backups.
  apply respects_bind; [now apply logs_ensure_drive|]. intros ok.
  destruct (negb ok); [go|].
  apply respects_bind; [apply logs_glob_backups|]. intros found.
  destruct (PySort.sort_desc found); go. apply logs_log_sizes.
Qed.

Lemma logs_scan_logs silent folders :
  respects PE PA (scan_logs env silent folders).
Proof.
  induction folders as [|f rest IH]; simpl; [go|].
  apply respects_bind; [|intros _; exact IH].
  unfold scan_log. go.
Qed.

Lemma logs_zip_create :
  (forall p, PA (ZipCreate p)) -> respects PE PA (zip_create env).
Proof.
  intros HA. unfold zip_create. go; [apply HA | apply respects_set_storage].
Qed.

(** The body of the backup loop reports log lines and, when not silent,
    progress. *)
Lemma logs_backup_write silent total idx entry :
  (forall src arc, PA (ZipWrite src arc)) ->
  (silent = false -> forall v msg, PE (EvProgress v msg)) ->
  respects PE PA (backup_write env silent total idx entry).
Proof.
  intros HA HP. unfold backup_write. destruct entry as [src arc].
  apply respects_bind; [apply respects_act; apply HA|]. intros _.
  apply respects_bind; [go|]. intros _.
  destruct (py_truediv _ _); [|go].
  destruct silent; cbn [negb when]; [go|].
  apply respects_bind; [|go]. apply respects_progress. now apply HP.
Qed.

(** *** A silent backup *)

Hypothesis PA_all : forall a, PA a.

Lemma logs_backup_cancel_silent :
  respects PE PA (backup_cancel env true).
Proof.
  unfold backup_cancel. cbn [negb when].
  apply respects_bind; [go|]. intros _.
  apply respects_bind; [go; apply PA_all|]. intros _.
  destruct (zip_close_error env) as [e|]; [go|].
  apply respects_bind; [apply logs_os_remove; intros; apply PA_all|].
  intros _. go.
Qed.

Lemma logs_backup_loop_silent total entries :
  forall idx, respects PE PA (backup_loop env true total idx entries).
Proof.
  induction entries as [|entry rest IH]; intros idx; simpl; [go|].
  apply respects_bind; [go|]. intros _ st.
  destruct (stop_requested (self st)).
  - revert st.
    apply respects_bind; [apply logs_backup_cancel_silent | intros [e|]; go].
  - revert st. apply respects_bind.
    + apply logs_backup_write; [intros; apply PA_all | discriminate].
    + intros [e|]; [go | apply IH].
Qed.

Lemma logs_run_backup_silent :
  respects PE PA (run_backup fnmatch env true).
Proof.
  unfold run_backup. cbn [negb when backup_failed].
  apply respects_bind; [go|]. intros _.
  apply respects_bind; [apply logs_ensure_drive; intros; apply PA_all|].
  intros ok. destruct (negb ok); [go|].
  apply respects_bind; [apply logs_scan_logs|]. intros _.
  destruct (files_to_zip fnmatch env) as [|entry rest]; [go|].
  apply respects_bind; [go|]. intros _.
  apply respects_bind; [apply logs_zip_create; intros; apply PA_all|].
  intros [e|]; [unfold backup_failed; cbn [negb when]; go|].
  apply respects_bind; [apply logs_backup_loop_silent|].
  intros [| |e|e]; unfold backup_after_loop; cbn [negb when].
  - apply respects_bind; [go; apply PA_all|]. intros _.
    destruct (zip_close_error env) as [e|];
      [unfold backup_failed; cbn [negb when]; go|].
    apply respects_bind; [go|]. intros _.
    apply respects_bind;
      [apply logs_cleanup_old_backups; intros; apply PA_all|].
    intros _. go.
  - go.
  - apply respects_bind; [go; apply PA_all|]. intros _.
    unfold backup_failed. cbn [negb when].
    destruct (zip_close_error env); go.
  - unfold backup_failed. cbn [negb when]. go.
Qed.

End Logs.

(** X18. A silent backup, the kind the scheduler starts, puts nothing but log
    lines on the reporting queue: no progress and no [finish] tuple, so it
    never moves the progress bar, unlocks the buttons or raises the error
    dialog of the window, whatever its outcome. *)
Theorem silent_backup_only_logs
    (fnmatch : string -> string -> bool) (env : Env) (st : State) :
  exists evs,
    queue (self (snd (run_backup fnmatch env true st))) =
      option_map (fun q => (q ++ evs)%list) (queue (self st)) /\
    Forall is_log evs.
Proof.
  destruct (logs_run_backup_silent fnmatch env is_log (fun _ => True)
              (fun text => ex_intro _ text eq_refl) (fun _ => I) st)
    as ((evs & Hq & He) & _).
  now exists evs.
Qed.

(** ** Runs that end with one [finish] *)

Section Finish.
Variable fnmatch : string -> string -> bool.
Variable isabs : string -> bool.
Variable env : Env.
Variable PA : Action -> Prop.

(** From [st] the run reaches [st'] by steps that put no [finish], and then
    one [finish(ok, msg)]. *)
Definition finished (ok : bool) (st st' : State) : Prop :=
  exists st1 msg,
    frame not_finish PA st st1 /\ st' = emit [EvFinish ok msg] st1.

(** [m] ends every run with one [finish], whose flag is related to the
    value returned by [P]. *)
Definition ends_with_finish {A : Type} (P : A -> bool -> Prop) (m : M A)
    : Prop :=
  forall st, exists ok,
    finished ok st (snd (m st)) /\ P (fst (m st)) ok.

Lemma finished_after st st1 st2 ok :
  frame not_finish PA st st1 -> finished ok st1 st2 -> finished ok st st2.
Proof.
  intros H (st' & msg & H' & E). exists st', msg.
  split; [eapply frame_trans; eassumption | exact E].
Qed.

Lemma ends_bind {A B : Type} (P : B -> bool -> Prop) (m : M A)
    (k : A -> M B) :
  respects not_finish PA m ->
  (forall a, ends_with_finish P (k a)) ->
  ends_with_finish P (bind m k).
Proof.
  intros Hm Hk st. unfold bind.
  specialize (Hm st). destruct (m st) as [a st1]. cbn [snd] in Hm.
  destruct (Hk a st1) as (ok & Hf & HP). exists ok.
  split; [eapply finished_after; eassumption | exact HP].
Qed.

Lemma ends_finish {A : Type} (P : A -> bool -> Prop) ok msg (a : A) :
  P a ok -> ends_with_finish P (finish ok msg ;; ret a).
Proof.
  intros HP st. exists ok.
  rewrite (bind_eq _ _ _ _ _ (finish_eq _ _ _)). cbn [ret fst snd].
  split; [|exact HP]. exists st, msg. split; [apply frame_refl | reflexivity].
Qed.

(** A loop that either has put the closing [finish(False, ..)] and
    returned, or has put no [finish] at all. *)
Definition loop_report (m : M LoopExit) : Prop :=
  forall st,
    match fst (m st) with
    | Returned => finished false st (snd (m st))
    | _ => frame not_finish PA st (snd (m st))
    end.

Lemma loop_report_ret x : x <> Returned -> loop_report (ret x).
Proof.
  intros Hx st. cbn [ret fst snd].
  destruct x; [apply frame_refl | congruence | apply frame_refl
              | apply frame_refl].
Qed.

Lemma loop_report_bind {A : Type} (m : M A) (k : A -> M LoopExit) :
  respects not_finish PA m ->
  (forall a, loop_report (k a)) ->
  loop_report (bind m k).
Proof.
  intros Hm Hk st. unfold bind.
  specialize (Hm st). destruct (m st) as [a st1]. cbn [snd] in Hm.
  specialize (Hk a st1).
  destruct (fst (k a st1));
    [eapply frame_trans; eassumption
    | eapply finished_after; eassumption
    | eapply frame_trans; eassumption
    | eapply frame_trans; eassumption].
Qed.

Lemma ends_after_loop {B : Type} (P : B -> bool -> Prop)
    (loop : M LoopExit) (k : LoopExit -> M B) (b : B) :
  loop_report loop ->
  k Returned = ret b -> P b false ->
  (forall x, x <> Returned -> ends_with_finish P (k x)) ->
  ends_with_finish P (bind loop k).
Proof.
  intros Hl Hr HP Hk st. unfold bind.
  specialize (Hl st). destruct (loop st) as [x st1]. cbn [fst snd] in Hl.
  destruct x as [| |e|e].
  - destruct (Hk Completed ltac:(discriminate) st1) as (ok & Hf & HP').
    exists ok. split; [eapply finished_after; eassumption | exact HP'].
  - rewrite Hr. cbn [ret fst snd]. exists false. now split.
  - destruct (Hk (Raised e) ltac:(discriminate) st1) as (ok & Hf & HP').
    exists ok. split; [eapply finished_after; eassumption | exact HP'].
  - destruct (Hk (RaisedByClose e) ltac:(discriminate) st1)
      as (ok & Hf & HP').
    exists ok. split; [eapply finished_after; eassumption | exact HP'].
Qed.

Ltac quiet :=
  Methods.frame_auto;
  try apply not_finish_log; try apply not_finish_progress; try assumption.

Ltac side :=
  first [ apply not_finish_log
        | intros; apply not_finish_progress
        | intros; match goal with H : forall a, _ |- _ => apply H end ].

(** *** Backup *)

Hypothesis PA_all : forall a, PA a.

(** The flag of the closing [finish] of a backup is its boolean result. *)
Definition backup_flag (r : PyRet) (ok : bool) : Prop :=
  ok = true <-> r = RBool true.

Lemma backup_flag_false r : r <> RBool true -> backup_flag r false.
Proof. intros H. split; [discriminate | contradiction]. Qed.

Lemma ends_backup_failed e :
  ends_with_finish backup_flag (backup_failed false e).
Proof.
  unfold backup_failed. cbn [negb when].
  intros st. exists false.
  rewrite (bind_eq _ _ _ _ _ (log_finish_eq _ _ _ _)). cbn [ret fst snd].
  split; [|apply backup_flag_false; discriminate].
  exists (emit [EvLog ("[CRITICAL ERROR] Failed to create ZIP: " ++ e)] st), e.
  split; [|reflexivity].
  pose proof (respects_log not_finish PA _ (not_finish_log
    ("[CRITICAL ERROR] Failed to create ZIP: " ++ e)) st) as H.
  now rewrite log_eq in H.
Qed.

Lemma report_backup_loop total entries :
  forall idx, loop_report (backup_loop env false total idx entries).
Proof.
  induction entries as [|entry rest IH]; intros idx; cbn [backup_loop].
  - apply loop_report_ret. discriminate.
  - apply loop_report_bind; [apply respects_interface_thread|].
    intros _ st. destruct (stop_requested (self st)) eqn:Es.
    + rewrite (bind_eq _ _ _ _ _ (Backup.backup_cancel_gen _ _ _)).
      unfold Backup.cancel_state.
      destruct (zip_close_error env) as [e|]; cbn [ret fst snd].
      * unfold Backup.close_failed. cbn [negb say]. repeat split.
        -- exists [EvLog "Backup Cancelled."]. split; [reflexivity|].
           repeat constructor. apply not_finish_log.
        -- eexists. split; [reflexivity|].
           repeat constructor; apply PA_all.
        -- trivial.
      * unfold Backup.cancelled. cbn [negb say].
        change [EvLog "Backup Cancelled."; EvFinish false "Cancelled"]
          with ([EvLog "Backup Cancelled."] ++
                [EvFinish false "Cancelled"])%list.
        rewrite <- emit_app.
        eexists _, "Cancelled". split; [|reflexivity].
        repeat split.
        -- exists [EvLog "Backup Cancelled."]. split; [reflexivity|].
           repeat constructor. apply not_finish_log.
        -- eexists. split; [reflexivity|].
           repeat constructor; apply PA_all.
        -- trivial.
    + revert st Es. intros st _. revert st.
      apply loop_report_bind.
      * apply logs_backup_write; side.
      * intros [e|]; [apply loop_report_ret; discriminate | apply IH].
Qed.

Lemma ends_run_backup :
  ends_with_finish backup_flag (run_backup fnmatch env false).
Proof.
  unfold run_backup. cbn [negb when].
  apply ends_bind; [quiet|]. intros _.
  apply ends_bind;
    [apply logs_ensure_drive; side|].
  intros ok. destruct (negb ok).
  { apply ends_finish. apply backup_flag_false. discriminate. }
  apply ends_bind; [apply logs_scan_logs; side|]. intros _.
  destruct (files_to_zip fnmatch env) as [|entry rest].
  { intros st. exists false.
    rewrite (bind_eq _ _ _ _ _ (log_finish_eq _ _ _ _)). cbn [ret fst snd].
    split; [|apply backup_flag_false; discriminate].
    exists (emit [EvLog "No files found to back up."] st), "No files found".
    split; [|reflexivity].
    pose proof (respects_log not_finish PA _
                  (not_finish_log "No files found to back up.") st) as H.
    now rewrite log_eq in H. }
  apply ends_bind; [quiet|]. intros _.
  apply ends_bind;
    [apply logs_zip_create; side|].
  intros [e|]; [apply ends_backup_failed|].
  apply (ends_after_loop backup_flag _ _ RNone).
  - apply report_backup_loop.
  - reflexivity.
  - apply backup_flag_false. discriminate.
  - intros [| |e|e] Hx; [|congruence| |];
      cbn [backup_after_loop negb when].
    + apply ends_bind; [quiet; apply PA_all|]. intros _.
      destruct (zip_close_error env) as [e|]; [apply ends_backup_failed|].
      apply ends_bind; [quiet|]. intros _.
      apply ends_bind;
        [apply logs_cleanup_old_backups; side|].
      intros _. apply ends_finish. split; reflexivity.
    + apply ends_bind; [quiet; apply PA_all|]. intros _.
      destruct (zip_close_error env); apply ends_backup_failed.
    + apply ends_backup_failed.
Qed.

End Finish.

Lemma finished_queue PA ok st st' :
  finished PA ok st st' ->
  exists evs msg,
    queue (self st') =
      option_map (fun q => (q ++ evs ++ [EvFinish ok msg])%list)
                 (queue (self st)) /\
    Forall not_finish evs /\
    exists acts,
      actions (world st') = (actions (world st) ++ acts)%list /\
      Forall PA acts.
Proof.
  intros (st1 & msg & ((evs & Hq & He) & (acts & Ha & HA) & _) & ->).
  exists evs, msg. split; [|split; [exact He|]].
  - cbn [emit self queue]. rewrite Hq.
    destruct (queue (self st)) as [q|]; [|reflexivity].
    cbn [option_map]. now rewrite <- app_assoc.
  - exists acts. split; [exact Ha | exact HA].
Qed.

(** X19. Every run of [run_backup] that is not silent, whatever its outcome
    (storage root missing, nothing to back up, archive not created, a
    cancellation, an error, completion), puts exactly one [finish] tuple on
    the queue, as its last tuple; the flag of that tuple is [True] exactly
    when the method returns [True]. *)
Theorem backup_finishes_once
    (fnmatch : string -> string -> bool) (env : Env) (st : State) :
  exists evs ok msg,
    queue (self (snd (run_backup fnmatch env false st))) =
      option_map (fun q => (q ++ evs ++ [EvFinish ok msg])%list)
                 (queue (self st)) /\
    Forall not_finish evs /\
    (ok = true <-> fst (run_backup fnmatch env false st) = RBool true).
Proof.
  destruct (ends_run_backup fnmatch env (fun _ => True) (fun _ => I) st)
    as (ok & Hf & HP).
  destruct (finished_queue _ _ _ _ Hf) as (evs & msg & Hq & He & _).
  exists evs, ok, msg. repeat split; try assumption; apply HP.
Qed.

(** ** What restore and scan do to the storage root *)

(** A computation that leaves the names of the storage root as they are. *)
Definition keeps_listing {A : Type} (m : M A) : Prop :=
  forall st, listing (snd (m st)) = listing st.

Lemma keeps_ret {A : Type} (a : A) : keeps_listing (ret a).
Proof. intros st. reflexivity. Qed.

Lemma keeps_bind {A B : Type} (m : M A) (k : A -> M B) :
  keeps_listing m -> (forall a, keeps_listing (k a)) ->
  keeps_listing (bind m k).
Proof.
  intros Hm Hk st. unfold bind. specialize (Hm st).
  destruct (m st) as [a st1]. cbn [snd] in Hm. now rewrite Hk.
Qed.

Lemma keeps_put e (otherwise : M unit) :
  keeps_listing otherwise -> keeps_listing (put_if_queue e otherwise).
Proof.
  intros Ho st. unfold put_if_queue.
  destruct (queue (self st)); [reflexivity | apply Ho].
Qed.

Lemma keeps_log text : keeps_listing (log text).
Proof. apply keeps_put. intros st. reflexivity. Qed.

Lemma keeps_progress v msg : keeps_listing (progress v msg).
Proof. apply keeps_put, keeps_ret. Qed.

Lemma keeps_finish ok msg : keeps_listing (finish ok msg).
Proof. apply keeps_put, keeps_ret. Qed.

Lemma keeps_act a : keeps_listing (act a).
Proof. intros st. reflexivity. Qed.

Lemma keeps_interface_thread k idx : keeps_listing (interface_thread k idx).
Proof.
  unfold interface_thread. destruct k as [k|]; [|apply keeps_ret].
  destruct (Nat.eqb k idx); [|apply keeps_ret]. intros st. reflexivity.
Qed.

Ltac keeps :=
  repeat first
    [ apply keeps_ret
    | apply keeps_log
    | apply keeps_progress
    | apply keeps_finish
    | apply keeps_act
    | apply keeps_interface_thread
    | (apply keeps_bind; [|intros ?])
    | match goal with
      | |- keeps_listing (match ?x with _ => _ end) => destruct x
      | |- keeps_listing (if ?b then _ else _) => destruct b
      end ].

Section Restoring.
Variable fnmatch : string -> string -> bool.
Variable isabs : string -> bool.
Variable env : Env.

Lemma keeps_ensure_drive : keeps_listing (ensure_drive env).
Proof.
  unfold ensure_drive. destruct (String.eqb _ _); [keeps|].
  intros st. destruct (storage (world st)) as [names|] eqn:E;
    [reflexivity|].
  rewrite (bind_eq _ _ _ _ _ (act_eq _ _)).
  destruct (makedirs_error env).
  - rewrite (bind_eq _ _ _ _ _ (log_eq _ _)). unfold listing. cbn.
    now rewrite E.
  - unfold listing. cbn. now rewrite E.
Qed.

Lemma keeps_glob_backups : keeps_listing (glob_backups fnmatch env).
Proof. intros st. reflexivity. Qed.

Lemma keeps_log_sizes files : keeps_listing (log_sizes env files).
Proof. induction files as [|f rest IH]; simpl; keeps. exact IH. Qed.

Lemma keeps_scan_for_backups : keeps_listing (scan_for_backups fnmatch env).
Proof.
  unfold scan_for_backups.
  apply keeps_bind; [apply keeps_ensure_drive|]. intros ok.
  destruct (negb ok); [keeps|].
  apply keeps_bind; [apply keeps_glob_backups|]. intros found.
  destruct (PySort.sort_desc found); keeps. apply keeps_log_sizes.
Qed.

Lemma keeps_analysis_loop total file_list :
  forall i, keeps_listing (analysis_loop total i file_list).
Proof.
  induction file_list as [|f rest IH]; intros i; simpl; [keeps|].
  destruct (py_truediv i total); [|keeps].
  apply keeps_bind; [keeps | intros _; apply IH].
Qed.

(** A computation that removes no name from the storage root. *)
Definition grows_listing {A : Type} (m : M A) : Prop :=
  forall st, incl (listing st) (listing (snd (m st))).

Lemma grows_keeps {A : Type} (m : M A) :
  keeps_listing m -> grows_listing m.
Proof. intros H st. rewrite H. apply incl_refl. Qed.

Lemma grows_bind {A B : Type} (m : M A) (k : A -> M B) :
  grows_listing m -> (forall a, grows_listing (k a)) ->
  grows_listing (bind m k).
Proof.
  intros Hm Hk st. unfold bind. specialize (Hm st).
  destruct (m st) as [a st1]. cbn [snd] in Hm.
  eapply incl_tran; [exact Hm | apply Hk].
Qed.

Lemma grows_landed file names : incl names (landed env file names).
Proof.
  unfold landed. destruct (extract_lands env file) as [name|];
    [|apply incl_refl].
  destruct (PyStr.mem name names); [apply incl_refl | apply incl_appl].
  apply incl_refl.
Qed.

Lemma grows_extract_member total idx file :
  grows_listing (extract_member env total idx file).
Proof.
  unfold extract_member.
  apply grows_bind; [apply grows_keeps, keeps_act|]. intros _.
  apply grows_bind.
  - intros st. unfold listing. cbn [snd set_storage world storage].
    destruct (storage (world st)) as [names|]; [|apply incl_refl].
    apply grows_landed.
  - intros _. apply grows_keeps. keeps.
Qed.

Lemma grows_extract_loop total file_list :
  forall idx,
    grows_listing (extract_loop fnmatch isabs env total idx file_list).
Proof.
  induction file_list as [|file rest IH]; intros idx; simpl;
    [apply grows_keeps; keeps|].
  apply grows_bind; [apply grows_keeps; keeps|]. intros _ st.
  destruct (stop_requested (self st));
    [revert st; apply grows_keeps; keeps|].
  destruct (traversal_guard isabs file); [apply IH|].
  unfold bind at 1, should_ignore.
  destruct (path_ignored _ _ file); [apply IH|].
  revert st. apply grows_bind; [apply grows_extract_member|].
  intros [e|]; [apply grows_keeps; keeps | apply IH].
Qed.

Lemma grows_run_restore : grows_listing (run_restore fnmatch isabs env).
Proof.
  unfold run_restore. apply grows_bind; [apply grows_keeps; keeps|].
  intros _.
  apply grows_bind; [apply grows_keeps, keeps_ensure_drive|]. intros ok.
  destruct (negb ok); [apply grows_keeps; keeps|].
  apply grows_bind; [apply grows_keeps, keeps_glob_backups|]. intros found.
  destruct (PySort.sort_desc found) as [|latest_backup rest];
    [apply grows_keeps; keeps|].
  apply grows_bind; [apply grows_keeps; keeps|]. intros _.
  apply grows_bind; [apply grows_keeps; keeps|]. intros _.
  apply grows_bind; [apply grows_keeps; keeps|]. intros _.
  destruct (zip_read env latest_backup) as [e|file_list];
    [unfold zip_error; apply grows_keeps; keeps|].
  unfold restore_archive.
  apply grows_bind; [apply grows_keeps, keeps_analysis_loop|].
  intros [| |e|e];
    [|apply grows_keeps; keeps|unfold zip_error; apply grows_keeps; keeps
     |unfold zip_error; apply grows_keeps; keeps].
  apply grows_bind; [apply grows_extract_loop|].
  intros [| |e|e]; unfold zip_error; apply grows_keeps; keeps.
Qed.

(** *** The report and the calls of a restore *)

Let any_flag : PyRet -> bool -> Prop := fun _ _ => True.

Lemma ends_zip_error e :
  ends_with_finish restores any_flag (zip_error e).
Proof.
  unfold zip_error.
  apply ends_bind; [apply respects_log, not_finish_log|]. intros _.
  now apply ends_finish.
Qed.

Lemma report_analysis_loop total file_list :
  forall i, loop_report restores (analysis_loop total i file_list).
Proof.
  induction file_list as [|f rest IH]; intros i; cbn [analysis_loop].
  - apply loop_report_ret. discriminate.
  - destruct (py_truediv i total);
      [|apply loop_report_ret; discriminate].
    apply loop_report_bind;
      [apply respects_progress, not_finish_progress | intros _; apply IH].
Qed.

Lemma quiet_extract_member total idx file :
  respects not_finish restores (extract_member env total idx file).
Proof.
  unfold extract_member.
  apply respects_bind; [apply respects_act; exact I|]. intros _.
  apply respects_bind; [apply respects_set_storage|]. intros _.
  Methods.frame_auto;
    first [apply not_finish_log | apply not_finish_progress].
Qed.

Lemma report_extract_loop total file_list :
  forall idx,
    loop_report restores
      (extract_loop fnmatch isabs env total idx file_list).
Proof.
  induction file_list as [|file rest IH]; intros idx; cbn [extract_loop].
  - apply loop_report_ret. discriminate.
  - apply loop_report_bind; [apply respects_interface_thread|].
    intros _ st. destruct (stop_requested (self st)).
    + rewrite (bind_eq _ _ _ _ _ (finish_eq _ _ _)). cbn [ret fst snd].
      exists st, "Cancelled". split; [apply frame_refl | reflexivity].
    + destruct (traversal_guard isabs file); [apply IH|].
      rewrite (bind_eq _ _ _ _ _
                 (eq_refl : should_ignore fnmatch env file st = (_, st))).
      destruct (path_ignored _ _ file); [apply IH|].
      revert st. apply loop_report_bind; [apply quiet_extract_member|].
      intros [e|]; [apply loop_report_ret; discriminate | apply IH].
Qed.

Lemma ends_run_restore :
  ends_with_finish restores any_flag (run_restore fnmatch isabs env).
Proof.
  unfold run_restore.
  apply ends_bind; [apply respects_log, not_finish_log|]. intros _.
  apply ends_bind;
    [apply logs_ensure_drive; [apply not_finish_log | intros; exact I]|].
  intros ok. destruct (negb ok); [now apply ends_finish|].
  apply ends_bind; [apply logs_glob_backups|]. intros found.
  destruct (PySort.sort_desc found) as [|filename rest].
  { apply ends_bind; [apply respects_log, not_finish_log|]. intros _.
    now apply ends_finish. }
  apply ends_bind; [apply respects_log, not_finish_log|]. intros _.
  apply ends_bind; [apply respects_log, not_finish_log|]. intros _.
  apply ends_bind; [apply respects_act; exact I|]. intros _.
  destruct (zip_read env filename) as [e|file_list];
    [apply ends_zip_error|].
  unfold restore_archive.
  apply (ends_after_loop restores any_flag _ _ RNone);
    [apply report_analysis_loop | reflexivity | exact I |].
  intros [| |e|e] Hx; [|congruence|apply ends_zip_error..].
  apply (ends_after_loop restores any_flag _ _ RNone);
    [apply report_extract_loop | reflexivity | exact I |].
  intros [| |e|e] Hy; [|congruence|apply ends_zip_error..].
  apply ends_bind; [apply respects_log, not_finish_log|]. intros _.
  now apply ends_finish.
Qed.

End Restoring.

(** X20. Every run of [run_restore], whatever its outcome (storage root missing,
    no archive, unreadable archive, a cancellation, completion), puts
    exactly one [finish] tuple on the queue, as its last tuple. *)
Theorem restore_finishes_once
    (fnmatch : string -> string -> bool) (isabs : string -> bool)
    (env : Env) (st : State) :
  exists evs ok msg,
    queue (self (snd (run_restore fnmatch isabs env st))) =
      option_map (fun q => (q ++ evs ++ [EvFinish ok msg])%list)
                 (queue (self st)) /\
    Forall not_finish evs.
Proof.
  destruct (ends_run_restore fnmatch isabs env st) as (ok & Hf & _).
  destruct (finished_queue _ _ _ _ Hf) as (evs & msg & Hq & He & _).
  now exists evs, ok, msg.
Qed.

(** X21. A restore makes no call that creates, writes, closes or removes an
    archive: whatever happens, its I/O calls are the creation of a missing
    storage directory, the opening of the selected archive for reading and
    extractions. No name leaves the storage root: every entry that was
    there is there afterwards (an extraction adds one when the member lands
    in the storage root, the home directory containing it). *)
Theorem restore_leaves_storage
    (fnmatch : string -> string -> bool) (isabs : string -> bool)
    (env : Env) (st : State) :
  (exists acts,
      actions (world (snd (run_restore fnmatch isabs env st))) =
        (actions (world st) ++ acts)%list /\
      Forall restores acts) /\
  (forall name,
      In name (listing st) ->
      In name (listing (snd (run_restore fnmatch isabs env st)))).
Proof.
  split; [|apply grows_run_restore].
  destruct (ends_run_restore fnmatch isabs env st) as (ok & Hf & _).
  destruct (finished_queue _ _ _ _ Hf) as (_ & _ & _ & _ & Ha).
  exact Ha.
Qed.

(** X22. The scan of the storage root only reads: it puts log lines and nothing
    else on the queue, its only possible I/O call is the creation of a
    missing storage directory, and the names in the storage root are
    afterwards what they were. *)
Theorem scan_only_reads
    (fnmatch : string -> string -> bool) (env : Env) (st : State) :
  (exists evs,
      queue (self (snd (scan_for_backups fnmatch env st))) =
        option_map (fun q => (q ++ evs)%list) (queue (self st)) /\
      Forall is_log evs) /\
  (exists acts,
      actions (world (snd (scan_for_backups fnmatch env st))) =
        (actions (world st) ++ acts)%list /\
      Forall (fun a => exists p, a = Makedirs p) acts) /\
  listing (snd (scan_for_backups fnmatch env st)) = listing st.
Proof.
  destruct (logs_scan_for_backups fnmatch env is_log
              (fun a => exists p, a = Makedirs p)
              (fun text => ex_intro _ text eq_refl)
              (fun p => ex_intro _ p eq_refl) st)
    as (He & Ha & _).
  split; [exact He|]. split; [exact Ha|]. apply keeps_scan_for_backups.
Qed.

End Reports.

(* ================================================================== *)
(** * The polling loop over time *)
(* ================================================================== *)

Module Polling.

Import Scheduler.

(** The minute of a poll is one of its scheduled times. *)
Definition due (p : Poll) : bool :=
  PyStr.mem (strftime_hm (now p)) (scheduled p).

(** What a firing iteration does. *)
Definition firing (p : Poll) : list Effect :=
  QueueLog ("⏰ Auto-Backup triggered at " ++ strftime_hm (now p)) ::
  (if (active_count p <? 5)%nat then [StartBackup] else []).

Lemma strftime_hm_nonempty t : strftime_hm t <> "".
Proof. unfold strftime_hm. cbn. discriminate. Qed.

Lemma iteration_due last p :
  due p = true -> strftime_hm (now p) <> last ->
  iteration last p = (strftime_hm (now p), firing p).
Proof.
  intros Hd Hl. unfold iteration, firing. fold (due p). rewrite Hd.
  apply String.eqb_neq in Hl. now rewrite Hl.
Qed.

Lemma iteration_not_due last p :
  due p = false -> iteration last p = (last, []).
Proof. intros Hd. unfold iteration. fold (due p). now rewrite Hd. Qed.

Lemma iterations_same_minute t polls :
  Forall (fun p => strftime_hm (now p) = t) polls ->
  iterations t polls = (t, map (fun _ => []) polls).
Proof.
  induction 1 as [|p rest Hp _ IH]; [reflexivity|].
  cbn [iterations]. rewrite (iteration_same_minute t p Hp), IH.
  reflexivity.
Qed.

(** X23. In a minute that is due and is not the minute recorded last, the first
    poll puts the log line and starts the backup unless five threads or more
    are alive; the later polls of that minute do nothing. So a minute starts
    at most one backup, and a backup refused by the thread guard is not
    tried again within that minute, even when the threads have gone by the
    next poll. *)
Theorem one_start_per_minute (last : string) (p : Poll) (polls : list Poll) :
  due p = true ->
  strftime_hm (now p) <> last ->
  Forall (fun p' => strftime_hm (now p') = strftime_hm (now p)) polls ->
  iterations last (p :: polls) =
  (strftime_hm (now p), firing p :: map (fun _ => []) polls).
Proof.
  intros Hd Hl Hall. cbn [iterations].
  rewrite (iteration_due last p Hd Hl).
  now rewrite (iterations_same_minute _ polls Hall).
Qed.

(** Polls of the minute 10:00 with six live threads at the first, two at
    the second. *)
Definition crowded : Poll :=
  {| now := now (at_time 9 10 0 0); scheduled := ["10:00"];
     active_count := 6 |}.

Lemma one_start_per_minute_witness :
  snd (scheduler_loop [crowded; at_time 9 10 0 10; at_time 9 10 0 20]) =
  [[QueueLog "⏰ Auto-Backup triggered at 10:00"]; []; []].
Proof.
  unfold scheduler_loop.
  rewrite (one_start_per_minute "" crowded
             [at_time 9 10 0 10; at_time 9 10 0 20]).
  - reflexivity.
  - reflexivity.
  - discriminate.
  - repeat constructor.
Defined.

(** X24. After a start-up the first poll whose minute is scheduled fires,
    whatever the polls before it were: the loop starts with the empty text
    as the minute recorded last, which no clock text equals. *)
Theorem first_due_poll_fires (before : list Poll) (p : Poll)
    (after : list Poll) :
  Forall (fun q => due q = false) before ->
  due p = true ->
  snd (scheduler_loop (before ++ p :: after)) =
  (map (fun _ => []) before ++
   firing p :: snd (iterations (strftime_hm (now p)) after))%list.
Proof.
  intros Hb Hd. unfold scheduler_loop.
  generalize (strftime_hm_nonempty (now p)). generalize "" as last.
  induction Hb as [|q rest Hq _ IH]; intros last Hl.
  - cbn [app map iterations].
    rewrite (iteration_due last p Hd Hl).
    now destruct (iterations _ after).
  - cbn [app map iterations]. rewrite (iteration_not_due last q Hq).
    specialize (IH last Hl).
    destruct (iterations last (rest ++ p :: after)) as [l effects].
    cbn [snd] in *. now rewrite IH.
Qed.

Lemma first_due_poll_fires_witness :
  snd (scheduler_loop [at_time 9 9 59 40; at_time 9 9 59 50;
                       at_time 9 10 0 0; at_time 9 10 0 10]) =
  [[]; []; [QueueLog "⏰ Auto-Backup triggered at 10:00"; StartBackup]; []].
Proof.
  etransitivity.
  - apply (first_due_poll_fires [at_time 9 9 59 40; at_time 9 9 59 50]
             (at_time 9 10 0 0) [at_time 9 10 0 10]).
    + repeat constructor.
    + reflexivity.
  - reflexivity.
Defined.

(** The number of iterations that fire. *)
Definition firings (effects : list (list Effect)) : nat :=
  length (filter fired effects).

Lemma firings_nothing (polls : list Poll) :
  firings (map (fun _ => []) polls) = 0%nat.
Proof. induction polls as [|p rest IH]; [reflexivity | exact IH]. Qed.

Lemma mem_singleton x t : PyStr.mem x [t] = true -> x = t.
Proof.
  unfold PyStr.mem. cbn [existsb]. rewrite orb_false_r.
  apply String.eqb_eq.
Qed.

(** X25. With a single scheduled time the loop fires at most once in the whole
    life of the process, however long it runs and whatever the clock
    reads: the time is armed again only by the firing of another scheduled
    time, and there is none. *)
Theorem single_time_fires_once (t : string) (polls : list Poll) :
  Forall (fun p => scheduled p = [t]) polls ->
  (firings (snd (scheduler_loop polls)) <= 1)%nat.
Proof.
  intros Hall. unfold scheduler_loop. generalize "" as last.
  induction Hall as [|p rest Hp Hrest IH]; intros last; [cbn; lia|].
  cbn [iterations].
  destruct (due p) eqn:Hd.
  - assert (Ht : strftime_hm (now p) = t).
    { unfold due in Hd. rewrite Hp in Hd. now apply mem_singleton. }
    destruct (String.eqb (strftime_hm (now p)) last) eqn:El.
    + apply String.eqb_eq in El.
      rewrite (iteration_same_minute last p El).
      specialize (IH last). destruct (iterations last rest) as [l effects].
      exact IH.
    + apply String.eqb_neq in El.
      rewrite (iteration_due last p Hd El), Ht.
      rewrite (never_rearms t rest).
      * unfold firing, firings. cbn [snd filter fired length].
        fold (firings (map (fun _ : Poll => @nil Effect) rest)).
        rewrite firings_nothing. lia.
      * eapply Forall_impl; [|exact Hrest].
        intros q Hq Hm. rewrite Hq in Hm. now apply mem_singleton.
  - rewrite (iteration_not_due last p Hd).
    specialize (IH last). destruct (iterations last rest) as [l effects].
    exact IH.
Qed.

Lemma single_time_fires_once_witness :
  (firings
     (snd (scheduler_loop
             [at_time 9 10 0 0; at_time 9 10 0 10; at_time 9 10 1 0;
              at_time 10 9 59 50; at_time 10 10 0 0; at_time 10 10 0 10]))
   <= 1)%nat.
Proof.
  apply (single_time_fires_once "10:00"). repeat constructor.
Defined.

End Polling.

(* ================================================================== *)
(** * The window and the reports of a run *)
(* ================================================================== *)

Module Window.

Import Engine Frame Exact.

(** The widgets the reports of a run act on: the three buttons ([true]
    for the state [normal], [false] for [disabled]), the progress bar, the
    messages shown in the log box (each behind the time of its insertion,
    left out here) and the error dialogs raised. The labels of the
    progress area are not represented. *)
Record Widgets := {
  btn_backup : bool;
  btn_restore : bool;
  btn_cancel : bool;
  progress_bar : Q;
  log_textbox : list string;
  errors : list string;
  is_minimized : bool
}.

(** [lock_ui] *)
Definition lock_ui (locked : bool) (w : Widgets) : Widgets :=
  {| btn_backup := negb locked;
     btn_restore := negb locked;
     btn_cancel := if locked then true else btn_cancel w;
     progress_bar := if locked then 0%Q else progress_bar w;
     log_textbox := log_textbox w;
     errors := errors w;
     is_minimized := is_minimized w |}.

(** [log_to_ui] *)
Definition log_to_ui (message : string) (w : Widgets) : Widgets :=
  {| btn_backup := btn_backup w;
     btn_restore := btn_restore w;
     btn_cancel := btn_cancel w;
     progress_bar := progress_bar w;
     log_textbox := (log_textbox w ++ [message])%list;
     errors := errors w;
     is_minimized := is_minimized w |}.

Definition set_progress (val : Q) (w : Widgets) : Widgets :=
  {| btn_backup := btn_backup w;
     btn_restore := btn_restore w;
     btn_cancel := btn_cancel w;
     progress_bar := val;
     log_textbox := log_textbox w;
     errors := errors w;
     is_minimized := is_minimized w |}.

(** [update_progress_ui] *)
Definition update_progress_ui (val : Q) (w : Widgets) : Widgets :=
  set_progress val w.

Definition disable_cancel (w : Widgets) : Widgets :=
  {| btn_backup := btn_backup w;
     btn_restore := btn_restore w;
     btn_cancel := false;
     progress_bar := progress_bar w;
     log_textbox := log_textbox w;
     errors := errors w;
     is_minimized := is_minimized w |}.

Definition showerror (msg : string) (w : Widgets) : Widgets :=
  {| btn_backup := btn_backup w;
     btn_restore := btn_restore w;
     btn_cancel := btn_cancel w;
     progress_bar := progress_bar w;
     log_textbox := log_textbox w;
     errors := (errors w ++ [msg])%list;
     is_minimized := is_minimized w |}.

(** [on_finish] *)
Definition on_finish (success : bool) (msg : string) (w : Widgets)
    : Widgets :=
  let w := disable_cancel (lock_ui false w) in
  if negb success && negb (String.eqb msg "Cancelled") then
    if negb (is_minimized w) then showerror msg w else w
  else if success then set_progress 1%Q w
  else w.

(** The dispatch of [check_queue] on one tuple. *)
Definition dispatch (w : Widgets) (e : Event) : Widgets :=
  match e with
  | EvLog data => log_to_ui data w
  | EvProgress val _ => update_progress_ui val w
  | EvFinish success msg => on_finish success msg w
  end.

(** [check_queue]: the tuples are taken in order until the queue is
    empty. *)
Definition check_queue (q : list Event) (w : Widgets)
    : list Event * Widgets :=
  ([], fold_left dispatch q w).

(** [start_backup] and [confirm_restore] lock the window before the run
    starts. *)
Definition locked (w : Widgets) : Widgets := lock_ui true w.

(** The buttons are as before a run: backup and restore enabled, cancel
    disabled. *)
Definition unlocked (w : Widgets) : Prop :=
  btn_backup w = true /\ btn_restore w = true /\ btn_cancel w = false.

Lemma on_finish_unlocked success msg w : unlocked (on_finish success msg w).
Proof.
  unfold on_finish, unlocked.
  destruct (negb success && negb (String.eqb msg "Cancelled"));
    [destruct (negb (is_minimized _)) | destruct success];
    repeat split.
Qed.

Lemma on_finish_success msg w : progress_bar (on_finish true msg w) = 1%Q.
Proof. reflexivity. Qed.

(** Draining in several calls is draining at once. *)
Lemma check_queue_app q1 q2 w :
  snd (check_queue q2 (snd (check_queue q1 w))) =
  snd (check_queue (q1 ++ q2) w).
Proof. unfold check_queue. cbn [snd]. now rewrite fold_left_app. Qed.

Lemma drained_finished ok st st' q w :
  Reports.finished (fun _ => True) ok st st' ->
  queue (self st) = Some q ->
  exists w0 msg,
    snd (check_queue (events st') w) = on_finish ok msg w0.
Proof.
  intros Hf Hq.
  destruct (Reports.finished_queue _ _ _ _ Hf) as (evs & msg & E & _).
  rewrite Hq in E. unfold events. rewrite E. cbn [option_map].
  unfold check_queue. cbn [snd].
  rewrite app_assoc, fold_left_app. cbn [fold_left dispatch].
  now eexists _, msg.
Qed.

(** X26. Once the window has taken every tuple of a backup or a restore started
    from it, whatever the outcome of the run and whatever else was on the
    queue, the backup and restore buttons are enabled again and the cancel
    button is disabled; and after a backup that returned [True] the
    progress bar is full. *)
Theorem window_unlocked_after_run
    (fnmatch : string -> string -> bool) (isabs : string -> bool)
    (env : Env) (st : State) (w : Widgets) :
  queue (self st) <> None ->
  let after_backup :=
    snd (check_queue (events (snd (run_backup fnmatch env false st)))
                     (locked w)) in
  let after_restore :=
    snd (check_queue (events (snd (run_restore fnmatch isabs env st)))
                     (locked w)) in
  unlocked after_backup /\
  (fst (run_backup fnmatch env false st) = RBool true ->
   progress_bar after_backup = 1%Q) /\
  unlocked after_restore.
Proof.
  intros Hq after_backup after_restore.
  destruct (queue (self st)) as [q|] eqn:Eq; [clear Hq | now elim Hq].
  destruct (Reports.ends_run_backup fnmatch env (fun _ => True)
              (fun _ => I) st) as (ok & Hf & HP).
  destruct (drained_finished ok st _ q (locked w) Hf Eq)
    as (w0 & msg & E).
  destruct (Reports.ends_run_restore fnmatch isabs env st)
    as (ok' & Hf' & _).
  assert (Hf'' : Reports.finished (fun _ => True) ok' st
                   (snd (run_restore fnmatch isabs env st))).
  { destruct Hf' as (st1 & msg' & ((evs & H1 & H2) & (acts & H3 & _) & H5)
                     & E').
    exists st1, msg'. split; [|exact E'].
    repeat split; [now exists evs | exists acts; split; [exact H3|] | exact H5].
    apply Forall_forall. trivial. }
  destruct (drained_finished ok' st _ q (locked w) Hf'' Eq)
    as (w0' & msg' & E').
  subst after_backup after_restore. rewrite E, E'.
  split; [apply on_finish_unlocked|]. split; [|apply on_finish_unlocked].
  intros Hr. apply HP in Hr. subst ok. apply on_finish_success.
Qed.

(** A window with nothing shown. *)
Definition idle : Widgets := {|
  btn_backup := true; btn_restore := true; btn_cancel := false;
  progress_bar := 0%Q; log_textbox := []; errors := [];
  is_minimized := false
|}.

Lemma window_unlocked_after_run_witness :
  unlocked
    (snd (check_queue (events (snd (Example.backup false Example.start)))
                      (locked idle))) /\
  progress_bar
    (snd (check_queue (events (snd (Example.backup false Example.start)))
                      (locked idle))) = 1%Q.
Proof.
  destruct (window_unlocked_after_run Example.glob_match Example.posix_isabs
              Example.env Example.start idle) as (A & B & _).
  - discriminate.
  - split; [exact A | apply B; reflexivity].
Defined.

End Window.

(* ================================================================== *)
(** * Archive names and seconds *)
(* ================================================================== *)

Module Names.

Import Naming.

Lemma lex_eq c k : lex c k = Eq -> c = Eq /\ k = Eq.
Proof. destruct c; cbn; intros H; try discriminate. now split. Qed.

Lemma ts_compare_eq a b : ts_compare a b = Eq -> a = b.
Proof.
  unfold ts_compare. intros H.
  apply lex_eq in H as [Hy H]. apply lex_eq in H as [Hm H].
  apply lex_eq in H as [Hd H]. apply lex_eq in H as [Hh H].
  apply lex_eq in H as [Hmi Hs].
  apply Nat.compare_eq_iff in Hy, Hm, Hd, Hh, Hmi, Hs.
  destruct a, b. cbn in *. now subst.
Qed.

(** X27. Two archives of one host have the same name exactly when they were
    started within the same second: distinct seconds never collide, and a
    backup started in the second of an existing archive of the host is
    written to that archive's file. *)
Theorem archive_name_unique (file_prefix hostname : string)
    (a b : Timestamp) :
  valid a = true -> valid b = true ->
  (archive_name file_prefix hostname a = archive_name file_prefix hostname b
   <-> a = b).
Proof.
  intros Ha Hb. split; [|now intros ->].
  intros E. apply ts_compare_eq.
  rewrite <- (archive_name_compare file_prefix hostname a b Ha Hb), E.
  apply PySort.string_compare_refl.
Qed.

Definition one_second_later : Timestamp :=
  {| year := 2025; month := 3; day := 9;
     hour := 12; minute := 0; second := 1 |}.

Lemma archive_name_unique_witness :
  valid one_second_later = true /\
  archive_name "Antigravity_Backup" "alpha" Example.noon <>
  archive_name "Antigravity_Backup" "alpha" one_second_later.
Proof.
  split; [reflexivity|]. intros E.
  apply (archive_name_unique "Antigravity_Backup" "alpha" Example.noon
           one_second_later) in E; [discriminate | reflexivity | reflexivity].
Defined.

End Names.

(* ================================================================== *)
(** * The lists saved by the settings dialog *)
(* ================================================================== *)

Module SavedLists.

Import PyStr.

Lemma rstrip_idem s : rstrip (rstrip s) = rstrip s.
Proof.
  induction s as [|c rest IH]; [reflexivity|].
  cbn [rstrip]. destruct (rstrip rest) as [|d r] eqn:E.
  - destruct (isspace c) eqn:Ec; [reflexivity|].
    cbn [rstrip]. now rewrite Ec.
  - remember (String d r) as x. cbn [rstrip]. rewrite IH.
    subst x. reflexivity.
Qed.

(** A text that does not begin with a blank. *)
Definition starts_clean (s : string) : Prop :=
  match s with
  | EmptyString => True
  | String c _ => isspace c = false
  end.

Lemma lstrip_clean s : starts_clean (lstrip s).
Proof.
  induction s as [|c rest IH]; [exact I|].
  cbn [lstrip]. destruct (isspace c) eqn:Ec; [exact IH | exact Ec].
Qed.

Lemma lstrip_id s : starts_clean s -> lstrip s = s.
Proof. destruct s as [|c rest]; [reflexivity|]. cbn. now intros ->. Qed.

Lemma rstrip_clean s : starts_clean s -> starts_clean (rstrip s).
Proof.
  destruct s as [|c rest]; [trivial|]. cbn [starts_clean rstrip].
  intros Hc. destruct (rstrip rest); [now rewrite Hc | exact Hc].
Qed.

Lemma strip_idem s : strip (strip s) = strip s.
Proof.
  unfold strip.
  rewrite (lstrip_id (rstrip (lstrip s)))
    by apply rstrip_clean, lstrip_clean.
  apply rstrip_idem.
Qed.

Lemma split_no_sep sep s piece :
  In piece (split sep s) -> has_char sep piece = false.
Proof.
  revert piece. induction s as [|c rest IH]; intros piece Hin.
  - destruct Hin as [<-|[]]. reflexivity.
  - cbn [split] in Hin. destruct (Ascii.eqb c sep) eqn:Ec.
    + destruct Hin as [<-|Hin]; [reflexivity | now apply IH].
    + destruct (split sep rest) as [|seg segs] eqn:Es.
      * destruct Hin as [<-|[]]. cbn. now rewrite Ec.
      * destruct Hin as [<-|Hin].
        -- cbn [has_char]. rewrite Ec. apply IH. now left.
        -- apply IH. now right.
Qed.

Lemma has_char_lstrip c s :
  has_char c s = false -> has_char c (lstrip s) = false.
Proof.
  induction s as [|d rest IH]; [trivial|].
  cbn [lstrip]. destruct (isspace d); [|trivial].
  cbn [has_char]. intros H. apply orb_false_iff in H as [_ H]. now apply IH.
Qed.

Lemma has_char_rstrip c s :
  has_char c s = false -> has_char c (rstrip s) = false.
Proof.
  induction s as [|d rest IH]; [trivial|].
  cbn [has_char]. intros H. apply orb_false_iff in H as [Hd H].
  specialize (IH H). cbn [rstrip].
  destruct (rstrip rest) as [|e r].
  - destruct (isspace d); [reflexivity|]. cbn. now rewrite Hd.
  - cbn [has_char] in *. now rewrite Hd, IH.
Qed.

(** X7. The folder and pattern lists the settings dialog saves (from ASCII
    input) hold no empty entry, no entry with a blank at either end and no
    entry with a comma; so the scan of a backup, which trims every folder
    name and skips the empty ones, takes every saved folder as it is and
    skips none. *)
Theorem saved_lists_are_trimmed (text entry : string) :
  Settings.is_ascii text = true ->
  In entry (Settings.parse_list text) ->
  entry <> "" /\
  strip entry = entry /\
  has_char "," entry = false /\
  (forall fnmatch env,
      Engine.collect_folder fnmatch env entry =
      match Engine.source_tree env (Engine.source_path_of env entry) with
      | Some n =>
          map (Engine.with_arcname env entry)
              (Engine.walk fnmatch env (Engine.source_path_of env entry)
                           [] n)
      | None => []
      end).
Proof.
  intros _ Hin. unfold Settings.parse_list in Hin.
  apply filter_In in Hin as [Hin Hne].
  apply in_map_iff in Hin as (x & <- & Hx).
  apply negb_true_iff, String.eqb_neq in Hne.
  assert (Hs : strip (strip x) = strip x) by apply strip_idem.
  split; [exact Hne|]. split; [exact Hs|]. split.
  - unfold strip. apply has_char_rstrip, has_char_lstrip.
    now apply (split_no_sep "," text).
  - intros fnmatch env. unfold Engine.collect_folder. rewrite Hs.
    apply String.eqb_neq in Hne. now rewrite Hne.
Qed.

Lemma saved_lists_are_trimmed_witness :
  strip ".gemini" = ".gemini" /\ has_char "," ".gemini" = false.
Proof.
  destruct (saved_lists_are_trimmed " .gemini , ,.antigravity " ".gemini")
    as (_ & A & B & _).
  - reflexivity.
  - vm_compute. left. reflexivity.
  - split; [exact A | exact B].
Defined.

End SavedLists.
